(** * The vid.ai editor store and the replace effect of the SAM2 demo

    A shallow embedding of

    - [demo/vid.ai/frontend/src/stores/editorStore.ts]: the Pinia store that
      owns the session identifier, the per-frame point prompts and the
      per-frame masks, with its asynchronous actions [endSession],
      [addPoint] and [propagateMasks];
    - [demo/frontend/src/common/components/video/effects/ReplaceGLEffect.ts]:
      the WebGL effect that binds one texture per mask and draws the
      replacement image.

    Store objects keyed by a frame number are finite maps over [Z]; the
    asynchronous actions are computations in a small state, log and
    exception monad, the backend's answer to the one request an action
    awaits being an argument of the action. The arithmetic of the progress
    value is that of binary64, as rounding on the rationals. *)

From Stdlib Require Import ZArith QArith Qround Qpower String Ascii List Sorted Lia Lqa.
From Stdlib Require PrimFloat FloatOps SpecFloat Uint63.
From stdpp Require Import gmap strings list pretty.

#[local] Set Warnings "-clear-no-such-hyp".

Local Open Scope Z_scope.

(** ** JavaScript strings: truthiness, [trim], [split]

    A string is the sequence of its UTF-16 code units. A character of
    type [ascii] is a code unit below 256, and the texts of this
    development are those whose code units are all in that range. *)

Module Js.

(** [!s] is false exactly for a non-empty string. *)
Definition truthy (s : option string) : bool :=
  match s with
  | None => false
  | Some EmptyString => false
  | Some (String _ _) => true
  end.

(** What [String.prototype.trim] removes: the white space and the line
    terminators of ECMAScript. Below 256 these are tab, line feed,
    vertical tab, form feed, carriage return (9 to 13), space (32) and the
    no-break space U+00A0 (160); the others (U+1680, U+2000 to U+200A,
    U+2028, U+2029, U+202F, U+205F, U+3000, U+FEFF) are above the range. *)
Definition is_space (c : ascii) : bool :=
  let n := nat_of_ascii c in
  (Nat.leb 9 n && Nat.leb n 13) || Nat.eqb n 32 || Nat.eqb n 160.

Fixpoint trimStart (s : string) : string :=
  match s with
  | EmptyString => EmptyString
  | String c r => if is_space c then trimStart r else s
  end.

(** Drops the white space at the end: a character is kept when it is not a
    space or when something is kept after it. *)
Fixpoint trimEnd (s : string) : string :=
  match s with
  | EmptyString => EmptyString
  | String c r =>
      match trimEnd r with
      | EmptyString => if is_space c then EmptyString else String c EmptyString
      | r' => String c r'
      end
  end.

Definition trim (s : string) : string := trimEnd (trimStart s).

Definition newline : ascii := "010"%char.

(** [s.split('\n')]: the pieces between line feeds; never the empty list
    (the empty string splits into one empty piece). *)
Fixpoint split_nl (s : string) : list string :=
  match s with
  | EmptyString => [EmptyString]
  | String c r =>
      if Ascii.eqb c newline then EmptyString :: split_nl r
      else match split_nl r with
           | [] => [String c EmptyString]
           | l :: ls => String c l :: ls
           end
  end.

End Js.

(** ** JavaScript numbers: binary64 arithmetic

    A JavaScript number is a binary64 value, and a division or a
    multiplication gives the exact result rounded to the nearest binary64
    value, ties to the even significand. A finite binary64 value is a
    rational; [round] is that rounding for the results whose magnitude is
    in the normal range, from 2^-1022 up to the largest finite value, and
    for zero. The quotient of two positive counters and its product by 100
    are in that range. *)

Module Binary64.

Local Open Scope Q_scope.

Definition pow2 (e : Z) : Q := 2 ^ e.

(** The exponent of [x > 0]: the [l] with [2^l <= x < 2^(l+1)]. The
    difference of the bit lengths of numerator and denominator is [l] or
    [l + 1]. *)
Definition ilog2 (x : Q) : Z :=
  let l := (Z.log2 (Qnum x) - Z.log2 (Zpos (Qden x)))%Z in
  if Qle_bool (pow2 l) x then l else (l - 1)%Z.

(** The nearest integer, the even one of the two when [x] is half way. *)
Definition nearestEven (x : Q) : Z :=
  let f := Qfloor x in
  match Qcompare (x - inject_Z f) (1 # 2) with
  | Lt => f
  | Gt => (f + 1)%Z
  | Eq => if Z.even f then f else (f + 1)%Z
  end.

(** [x > 0] rounded to 53 significant bits: [x] is scaled by a power of
    two into [2^52, 2^53), rounded to an integer and scaled back. *)
Definition roundPos (x : Q) : Q :=
  let s := pow2 (ilog2 x - 52) in
  inject_Z (nearestEven (x / s)) * s.

Definition round (x : Q) : Q :=
  match Qcompare x 0 with
  | Eq => 0
  | Gt => roundPos x
  | Lt => - roundPos (- x)
  end.

(** Half the distance between 1 and the next binary64 value: the largest
    relative error of a rounding. *)
Definition ulpHalf : Q := pow2 (-53).

(** The same operations on the binary64 numbers of the machine, for
    comparison: a counter as a number, and the rational that a finite
    number is. *)
Definition ofZ (z : Z) : PrimFloat.float := PrimFloat.of_uint63 (Uint63.of_Z z).

Definition toQ (f : PrimFloat.float) : option Q :=
  match FloatOps.Prim2SF f with
  | SpecFloat.S754_zero _ => Some 0
  | SpecFloat.S754_finite s m e =>
      Some ((if s then -1 else 1) * inject_Z (Zpos m) * pow2 e)
  | _ => None
  end.

End Binary64.

(** ** Types of [types/index.ts]

    A [number] that is a frame index, a label or an object identifier is
    an integer; a coordinate, a score or a time stamp is a rational. Field
    names are the source's, prefixed where two interfaces share one. *)

Record GalleryVideo := { video_id : string; video_name : string; video_path : string }.

Record Session := { session_id : string }.

Record RLE := { counts : string; rle_size : Z * Z }.

Record MaskData := {
  rle : RLE;
  score : Q;
  mask_id : option Z;
  object_id : option Z
}.

Record FrameMasks := { frame_idx : Z; fm_masks : list MaskData }.

Record ObjectInstruction := {
  obj_name : string;
  obj_description : option string;
  prompt_words : option (list string)
}.

Record EffectInstruction := { effect_type : string; target : string }.

Record ModelInstructions := {
  objects : list ObjectInstruction;
  effects : list EffectInstruction;
  tracking : bool
}.

Inductive Role := user | bot.

Record ChatMessage := {
  msg_id : string;
  role : Role;
  content : string;
  timestamp : Q
}.

Record CanvasPoint := { x : Q; y : Q; label : Z }.

Record VideoFrame := {
  index : Z;
  frame_timestamp : Q;
  url : option string;
  dataUrl : option string
}.

(** ** The store's state and its effects *)

Module EditorStore.

Record Store := {
  isLoading : bool;
  currentVideo : option GalleryVideo;
  sessionId : option string;
  chatMessages : list ChatMessage;
  currentFrame : Z;
  points : gmap Z (list CanvasPoint);
  masks : gmap Z FrameMasks;
  videoFrames : list VideoFrame;
  isProcessing : bool;
  processingProgress : Z;
  instructions : option ModelInstructions
}.

(** What an action can throw or be rejected with. *)
Inductive Error :=
  | HttpError          (* axios rejects: transport failure or error status *)
  | PropagateFailed    (* new Error('Failed to propagate masks') *)
  | ReadFailed.        (* reader.read() rejects: the stream broke *)

(** What an action does that is seen outside the store: the requests of
    [videoService], the lines of [console.error], and the values it writes
    to [processingProgress], which the view renders as the progress bar. *)
Inductive Effect :=
  | DeleteSession (sid : string)
  | PostPoints (sid : string) (frame : Z) (pts : list (Q * Q)) (labels : list Z)
  | PostPropagate (sid : string) (frame : Z)
  | ConsoleError (msg : string)
  | SetProgress (n : Z).

Inductive result (A : Type) :=
  | Ok (a : A)
  | Throw (e : Error).
Arguments Ok {A} a.
Arguments Throw {A} e.

(** How the promise of an [async] action settles. *)
Inductive Completion :=
  | Resolved
  | Rejected (e : Error).

(** A computation reads and writes the store, appends to the log of effects
    and returns or throws. *)
Definition M (A : Type) : Type := Store -> Store * list Effect * result A.

Definition ret {A} (a : A) : M A := fun st => (st, [], Ok a).

Definition throw {A} (e : Error) : M A := fun st => (st, [], Throw e).

Definition bind {A B} (m : M A) (k : A -> M B) : M B :=
  fun st =>
    match m st with
    | (st1, l1, Ok a) =>
        match k a st1 with
        | (st2, l2, r) => (st2, l1 ++ l2, r)
        end
    | (st1, l1, Throw e) => (st1, l1, Throw e)
    end.

Declare Scope store_scope.
Delimit Scope store_scope with store.
Notation "v <~ m ;; k" := (bind m (fun v => k))
  (at level 100, m at next level, right associativity) : store_scope.
Notation "m ;;; k" := (bind m (fun _ => k))
  (at level 100, right associativity) : store_scope.
Local Open Scope store_scope.

Definition get : M Store := fun st => (st, [], Ok st).

Definition modify (f : Store -> Store) : M unit := fun st => (f st, [], Ok tt).

Definition emit (e : Effect) : M unit := fun st => (st, [e], Ok tt).

(** [await] of a request whose answer is [r]: the value, or the rejection
    thrown at the [await]. *)
Definition await {A} (r : result A) : M A := fun st => (st, [], r).

(** [try { body } catch (error) { handler error }] *)
Definition try_catch {A} (body : M A) (handler : Error -> M A) : M A :=
  fun st =>
    match body st with
    | (st1, l1, Ok a) => (st1, l1, Ok a)
    | (st1, l1, Throw e) =>
        match handler e st1 with
        | (st2, l2, r) => (st2, l1 ++ l2, r)
        end
    end.

(** [try { body } finally { fin }]: [fin] runs on both exits, and the exit
    of [body] stands unless [fin] throws. *)
Definition try_finally {A} (body : M A) (fin : M unit) : M A :=
  fun st =>
    match body st with
    | (st1, l1, r) =>
        match fin st1 with
        | (st2, l2, Ok _) => (st2, l1 ++ l2, r)
        | (st2, l2, Throw e) => (st2, l1 ++ l2, Throw e)
        end
    end.

(** An [async] function run to its end. *)
Definition settle (m : M unit) (st : Store) : Store * list Effect * Completion :=
  match m st with
  | (st1, l, Ok _) => (st1, l, Resolved)
  | (st1, l, Throw e) => (st1, l, Rejected e)
  end.

(** Field updates. *)
Definition set_sessionId (v : option string) (st : Store) : Store :=
  {| isLoading := isLoading st; currentVideo := currentVideo st; sessionId := v;
     chatMessages := chatMessages st; currentFrame := currentFrame st;
     points := points st; masks := masks st; videoFrames := videoFrames st;
     isProcessing := isProcessing st; processingProgress := processingProgress st;
     instructions := instructions st |}.

Definition set_currentVideo (v : option GalleryVideo) (st : Store) : Store :=
  {| isLoading := isLoading st; currentVideo := v; sessionId := sessionId st;
     chatMessages := chatMessages st; currentFrame := currentFrame st;
     points := points st; masks := masks st; videoFrames := videoFrames st;
     isProcessing := isProcessing st; processingProgress := processingProgress st;
     instructions := instructions st |}.

Definition set_points (v : gmap Z (list CanvasPoint)) (st : Store) : Store :=
  {| isLoading := isLoading st; currentVideo := currentVideo st; sessionId := sessionId st;
     chatMessages := chatMessages st; currentFrame := currentFrame st;
     points := v; masks := masks st; videoFrames := videoFrames st;
     isProcessing := isProcessing st; processingProgress := processingProgress st;
     instructions := instructions st |}.

Definition set_masks (v : gmap Z FrameMasks) (st : Store) : Store :=
  {| isLoading := isLoading st; currentVideo := currentVideo st; sessionId := sessionId st;
     chatMessages := chatMessages st; currentFrame := currentFrame st;
     points := points st; masks := v; videoFrames := videoFrames st;
     isProcessing := isProcessing st; processingProgress := processingProgress st;
     instructions := instructions st |}.

Definition set_isProcessing (v : bool) (st : Store) : Store :=
  {| isLoading := isLoading st; currentVideo := currentVideo st; sessionId := sessionId st;
     chatMessages := chatMessages st; currentFrame := currentFrame st;
     points := points st; masks := masks st; videoFrames := videoFrames st;
     isProcessing := v; processingProgress := processingProgress st;
     instructions := instructions st |}.

Definition set_processingProgress (v : Z) (st : Store) : Store :=
  {| isLoading := isLoading st; currentVideo := currentVideo st; sessionId := sessionId st;
     chatMessages := chatMessages st; currentFrame := currentFrame st;
     points := points st; masks := masks st; videoFrames := videoFrames st;
     isProcessing := isProcessing st; processingProgress := v;
     instructions := instructions st |}.

(** [processingProgress.value = n] *)
Definition writeProgress (n : Z) : M unit :=
  modify (set_processingProgress n) ;;; emit (SetProgress n).

(** [hasActiveSession] *)
Definition hasActiveSession (st : Store) : bool :=
  match sessionId st with Some _ => true | None => false end.

(** *** [resetEditorState] (lines 87-96)

    Ten assignments; the one to [processingProgress] is the only one that
    is reported. *)
Definition resetEditorState : M unit :=
  modify (fun st =>
    {| isLoading := isLoading st; currentVideo := currentVideo st;
       sessionId := sessionId st;
       chatMessages := []; currentFrame := 0;
       points := ∅; masks := ∅; videoFrames := [];
       isProcessing := false; processingProgress := processingProgress st;
       instructions := None |}) ;;;
  writeProgress 0.

(** *** [endSession] (lines 73-85)

    [deleted] is the backend's answer to the DELETE request. *)
Definition endSession (deleted : result unit) : M unit :=
  st <~ get ;;
  match sessionId st with
  | Some sid =>
      if Js.truthy (Some sid) then
        try_finally
          (try_catch
             (emit (DeleteSession sid) ;;; await deleted)
             (fun _ => emit (ConsoleError "Failed to end session:")))
          (modify (set_sessionId None) ;;;
           modify (set_currentVideo None) ;;;
           resetEditorState)
      else ret tt
  | None => ret tt
  end.

(** *** [addPoint] (lines 98-129)

    The action awaits one request. [addPoint_send] is the part that runs
    before the [await]: it stores the point and, with a session, posts the
    points and labels of the frame. [addPoint_receive] is the part that
    runs when the answer arrives, on the store as it is then. *)

Record AddPointsResult := { result_masks : list MaskData; result_frame_idx : Z }.

(** [points.value[f]], an absent entry read as no points. *)
Definition framePoints (st : Store) (f : Z) : list CanvasPoint :=
  default [] (points st !! f).

Definition pointsArray (pts : list CanvasPoint) : list (Q * Q) :=
  map (fun p => (x p, y p)) pts.

Definition labelsOf (pts : list CanvasPoint) : list Z := map label pts.

(** The request of lines 111-119, built from the points that the store
    holds for the frame. *)
Definition pointsRequest (sid : string) (st : Store) (frameIdx : Z) : Effect :=
  PostPoints sid frameIdx
    (pointsArray (framePoints st frameIdx)) (labelsOf (framePoints st frameIdx)).

Definition addPoint_send (point : CanvasPoint) : M (option Z) :=
  st <~ get ;;
  let frameIdx := currentFrame st in
  modify (set_points (<[frameIdx := framePoints st frameIdx ++ [point]]> (points st))) ;;;
  st1 <~ get ;;
  match sessionId st1 with
  | Some sid =>
      if Js.truthy (Some sid) then
        emit (pointsRequest sid st1 frameIdx) ;;;
        ret (Some frameIdx)
      else ret None
  | None => ret None
  end.

(** Lines 122-125: the entry of the frame keeps its [frame_idx] when it is
    there, and its masks are replaced. *)
Definition storeMasks (frameIdx : Z) (r : AddPointsResult) (st : Store) : Store :=
  let entry :=
    match masks st !! frameIdx with
    | Some e => {| frame_idx := frame_idx e; fm_masks := result_masks r |}
    | None => {| frame_idx := frameIdx; fm_masks := result_masks r |}
    end in
  set_masks (<[frameIdx := entry]> (masks st)) st.

Definition addPoint_receive (frameIdx : Z) (answer : result AddPointsResult) : M unit :=
  try_catch
    (r <~ await answer ;; modify (storeMasks frameIdx r))
    (fun _ => emit (ConsoleError "Failed to add point:")).

Definition addPoint (point : CanvasPoint) (answer : result AddPointsResult) : M unit :=
  sent <~ addPoint_send point ;;
  match sent with
  | Some frameIdx => addPoint_receive frameIdx answer
  | None => ret tt
  end.

(** *** [propagateMasks] (lines 131-173)

    The reader returned by [propagateInVideo] yields the chunks of the
    response body and then either ends or breaks. A chunk is the text
    that [TextDecoder.decode] gives for the bytes of one read. *)

Inductive Ending := StreamDone | StreamBroken.

Record Reader := { chunks : list string; ending : Ending }.

(** [Math.min(100, Math.floor((receivedFrames / totalFrames) * 100))]:
    the quotient is rounded to binary64, its product by 100 is rounded
    again, and the floor of that is capped at 100. [receivedFrames] is a
    counter and [totalFrames] an array length or 100, both integers that
    binary64 holds exactly; [totalFrames] is never 0 (line 143). *)
Definition progressValue (received total : Z) : Q :=
  Binary64.round (Binary64.round (inject_Z received / inject_Z total) * 100)%Q.

Definition progressOf (received total : Z) : Z :=
  Z.min 100 (Qfloor (progressValue received total)).

(** Line 161 on the binary64 numbers of the machine; [None] when the
    result is not finite. *)
Definition progressOf_machine (received total : Z) : option Z :=
  match Binary64.toQ
          (PrimFloat.mul
             (PrimFloat.div (Binary64.ofZ received) (Binary64.ofZ total))
             (Binary64.ofZ 100)) with
  | Some q => Some (Z.min 100 (Qfloor q))
  | None => None
  end.

(** Whether the two agree for a counter and a total, and whether they do
    for every total from 1 to [n] and every counter from 0 to two above
    the total. *)
Definition agreeAt (received total : Z) : bool :=
  match progressOf_machine received total with
  | Some z => Z.eqb z (progressOf received total)
  | None => false
  end.

Definition agreeUpTo (n : nat) : bool :=
  forallb
    (fun t => forallb (fun r => agreeAt (Z.of_nat r) (Z.of_nat (S t))) (seq 0 (S t + 3)))
    (seq 0 n).

(** Counters and totals of every size up to the longest array. *)
Definition largeSamples : list (Z * Z) :=
  [(1, 4294967295); (4294967294, 4294967295); (4294967295, 4294967295);
   (1234567, 7654321); (7654320, 7654321); (299, 300); (86399, 86400);
   (2147483647, 4294967295); (42949672, 4294967295); (3006476, 4294967)].

(** [videoFrames.value.length || 100] *)
Definition totalFramesOf (st : Store) : Z :=
  let n := Z.of_nat (length (videoFrames st)) in
  if n =? 0 then 100 else n.

(** The guard of lines 132-134. *)
Definition nothingToPropagate (st : Store) (startFrame : Z) : bool :=
  negb (Js.truthy (sessionId st))
  || match points st !! startFrame with
     | None => true
     | Some pts => Nat.eqb (length pts) 0
     end.

Section Propagate.

(** [JSON.parse(line) as FrameMasks]: the record that the line holds, as
    the cast declares it; [None] is the exception that the [catch] of line
    162 receives when the line is not a JSON text. *)
Variable JSON_parse : string -> option FrameMasks.

(** The body of the [for] loop (lines 155-164); returns [receivedFrames]. *)
Definition applyLine (total received : Z) (line : string) : M Z :=
  match JSON_parse line with
  | Some data =>
      modify (fun st => set_masks (<[frame_idx data := data]> (masks st)) st) ;;;
      writeProgress (progressOf (received + 1) total) ;;;
      ret (received + 1)
  | None =>
      emit (ConsoleError "Error parsing propagation result:") ;;;
      ret received
  end.

Fixpoint applyLines (total received : Z) (lines : list string) : M Z :=
  match lines with
  | [] => ret received
  | line :: rest =>
      received1 <~ applyLine total received line ;;
      applyLines total received1 rest
  end.

(** Lines 151-165 for one chunk. *)
Definition applyChunk (total received : Z) (chunk : string) : M Z :=
  applyLines total received (Js.split_nl (Js.trim chunk)).

(** The [while (true)] loop over the reads of the stream. *)
Fixpoint readLoop (total received : Z) (cs : list string) (e : Ending) : M unit :=
  match cs with
  | [] =>
      match e with
      | StreamDone => ret tt
      | StreamBroken => throw ReadFailed
      end
  | chunk :: rest =>
      received1 <~ applyChunk total received chunk ;;
      readLoop total received1 rest e
  end.

(** [answer] is what [propagateInVideo] gives: a reader, or the error it
    throws when the request fails or the response is not ok. *)
Definition propagateMasks (startFrame : Z) (answer : result Reader) : M unit :=
  st <~ get ;;
  if nothingToPropagate st startFrame then ret tt
  else
    match sessionId st with
    | None => ret tt
    | Some sid =>
        modify (set_isProcessing true) ;;;
        writeProgress 0 ;;;
        try_finally
          (try_catch
             (emit (PostPropagate sid startFrame) ;;;
              reader <~ await answer ;;
              st1 <~ get ;;
              readLoop (totalFramesOf st1) 0 (chunks reader) (ending reader))
             (fun _ => emit (ConsoleError "Error propagating masks:")))
          (modify (set_isProcessing false) ;;; writeProgress 100)
    end.

(** The records that a run applies, in order: the lines of the chunks
    that parse. *)
Definition linesOf (cs : list string) : list string :=
  flat_map (fun chunk => Js.split_nl (Js.trim chunk)) cs.

Definition recordsOf (cs : list string) : list FrameMasks :=
  omap JSON_parse (linesOf cs).

(** The records applied before the run ends, and whether it ends by a
    failure: the request refused, or the stream broken. *)
Definition appliedBy (answer : result Reader) : list FrameMasks :=
  match answer with
  | Ok reader => recordsOf (chunks reader)
  | Throw _ => []
  end.

End Propagate.

Definition interrupted (answer : result Reader) : bool :=
  match answer with
  | Ok reader => match ending reader with StreamDone => false | StreamBroken => true end
  | Throw _ => true
  end.

(** The progress values reported while [n] more records are applied after
    [received] of them. *)
Definition reported (total received : Z) (n : nat) : list Z :=
  map (fun k => progressOf (received + Z.of_nat k) total) (seq 1 n).

(** The entry of frame [g] among the records [ds]: the last one for it. *)
Definition lastFor (g : Z) (ds : list FrameMasks) : option FrameMasks :=
  last (List.filter (fun d => frame_idx d =? g) ds).

(** [masks.value[data.frame_idx] = data] for each record in turn. *)
Definition applyRecords (ds : list FrameMasks) (m : gmap Z FrameMasks) : gmap Z FrameMasks :=
  fold_left (fun m d => <[frame_idx d := d]> m) ds m.

(** The store in the course of a run of [propagateMasks] that has stored
    the masks [m] and reported the progress [pr], and the store once the
    run is over. *)
Definition midRun (m : gmap Z FrameMasks) (pr : Z) (st : Store) : Store :=
  set_processingProgress pr (set_isProcessing true (set_masks m st)).

Definition afterRun (m : gmap Z FrameMasks) (st : Store) : Store :=
  set_processingProgress 100 (set_isProcessing false (set_masks m st)).

(** The three parts of what a settled action leaves. *)
Definition finalStore {A} (r : Store * list Effect * A) : Store := fst (fst r).
Definition effectsOf {A} (r : Store * list Effect * A) : list Effect := snd (fst r).
Definition completionOf (r : Store * list Effect * Completion) : Completion := snd r.

(** The store that [endSession] leaves behind: only [isLoading] is kept. *)
Definition cleared (st : Store) : Store :=
  {| isLoading := isLoading st; currentVideo := None; sessionId := None;
     chatMessages := []; currentFrame := 0; points := ∅; masks := ∅;
     videoFrames := []; isProcessing := false; processingProgress := 0;
     instructions := None |}.

(** The values written to [processingProgress], in order. *)
Definition progressWrites (l : list Effect) : list Z :=
  flat_map (fun e => match e with SetProgress n => [n] | _ => [] end) l.

(** The requests sent to the backend, in order. *)
Definition isRequest (e : Effect) : bool :=
  match e with
  | DeleteSession _ | PostPoints _ _ _ _ | PostPropagate _ _ => true
  | ConsoleError _ | SetProgress _ => false
  end.

Definition requestsOf (l : list Effect) : list Effect := List.filter isRequest l.

End EditorStore.

(** ** [ReplaceGLEffect]: the WebGL context and the effect object *)

Module ReplaceGLEffect.

Local Open Scope nat_scope.

Definition Texture := nat.

Record ImageBitmap := { width : nat; height : nat }.

Inductive Format := RGBA | LUMINANCE.

Inductive Filter := LINEAR | NEAREST.

Inductive Pixels :=
  | FromBitmap (b : ImageBitmap)
  | FromData (data : list Z).

(** The calls made on the context, in order. A uniform is named by its
    location, [None] being the null location. *)
Inductive GLCall :=
  | CreateTexture (t : Texture)
  | DeleteTexture (t : Texture)
  | ActiveTexture (unit : nat)
  | BindTexture (t : option Texture)
  | Uniform1i (loc : option string) (v : Z)
  | Uniform4fv (loc : option string) (v : list Q)
  | TexImage2D (f : Format) (w h : nat) (src : Pixels)
  | TexFilterClamp (f : Filter)
  | PixelStorei
  | ClearColor
  | Clear
  | DrawArrays.

(** The context: the textures that are allocated, the next fresh handle
    and the calls received so far. *)
Record GL := {
  liveTextures : gset Texture;
  nextTexture : Texture;
  calls : list GLCall
}.

Definition callAll (cs : list GLCall) (g : GL) : GL :=
  {| liveTextures := liveTextures g; nextTexture := nextTexture g;
     calls := calls g ++ cs |}.

(** [gl.createTexture()], on a context that is not lost: a fresh handle. *)
Definition createTexture (g : GL) : Texture * GL :=
  let t := nextTexture g in
  (t, {| liveTextures := {[t]} ∪ liveTextures g; nextTexture := S t;
         calls := calls g ++ [CreateTexture t] |}).

(** [gl.deleteTexture(t)] *)
Definition deleteTexture (t : Texture) (g : GL) : GL :=
  {| liveTextures := liveTextures g ∖ {[t]}; nextTexture := nextTexture g;
     calls := calls g ++ [DeleteTexture t] |}.

(** Modelled from the spec: [preAllocateTextures] of [ShaderUtils], which is
    not among the sources; it pre-allocates a bounded number of mask slots,
    one texture of the context per slot. *)
Fixpoint preAllocateTextures (g : GL) (n : nat) : list Texture * GL :=
  match n with
  | O => ([], g)
  | S n' =>
      let (t, g1) := createTexture g in
      let (ts, g2) := preAllocateTextures g1 n' in
      (t :: ts, g2)
  end.

(** The private fields of the class (lines 33-44). *)
Record Fields := {
  _numMasks : Z;
  _numMasksUniformLocation : option string;
  _bitmap : list ImageBitmap;
  _customImage : option ImageBitmap;
  _extraTextureUnit : nat;
  _extraTexture : option Texture;
  _fillBg : Z;
  _fillBgLocation : option string;
  _masksTextureUnitStart : nat;
  _maskTextures : list Texture;
  _useCustomImage : bool;
  _useCustomImageLocation : option string
}.

(** The field initialisers. *)
Definition initial : Fields :=
  {| _numMasks := 0; _numMasksUniformLocation := None; _bitmap := [];
     _customImage := None; _extraTextureUnit := 1; _extraTexture := None;
     _fillBg := 0; _fillBgLocation := None; _masksTextureUnitStart := 2;
     _maskTextures := []; _useCustomImage := false;
     _useCustomImageLocation := None |}.

(** A mask of the frame context: its encoded bitmap and its bounds. *)
Record EffectMask := { bitmap : RLE; bounds : (Q * Q) * (Q * Q) }.

Record EffectFrameContext := {
  ctx_masks : list EffectMask;
  ctx_width : nat;
  ctx_height : nat
}.

Inductive Exn :=
  | InvariantViolation (msg : string)
  | DecodeFailed
  | FetchFailed.

Inductive outcome (A : Type) :=
  | Done (a : A)
  | Raise (e : Exn).
Arguments Done {A} a.
Arguments Raise {A} e.

Section Effect.

(** [BaseGLEffect] is not among the sources. Its state is a parameter, with
    what the subclass reads of it ([_gl], [_program], [_canvas], [variant])
    and the two methods the subclass calls through [super]. *)
Variable Base : Type.
Variable gl_present : Base -> bool.
Variable program_present : Base -> bool.
Variable canvas_present : Base -> bool.
Variable variant : Base -> nat.
Variable super_setupUniforms : Base -> GL -> Base * GL.
Variable super_cleanup : Base -> GL -> Base * GL.

(** The uniforms that the program declares ([Replace.frag] is not among the
    sources): [getUniformLocation] gives null for any other name. *)
Variable hasUniform : string -> bool.

(** [decode] of [jscocotools/mask] and [normalizeBounds] of [ShaderUtils]:
    not among the sources; [None] is a decoder that throws. *)
Variable decode : RLE -> option (list Z).
Variable normalizeBounds : Q * Q -> Q * Q -> nat -> nat -> list Q.

Definition getUniformLocation (name : string) : option string :=
  if hasUniform name then Some name else None.

Definition set_setup (loc1 loc2 loc3 : option string) (extra : option Texture)
    (slots : list Texture) (icons : list ImageBitmap) (e : Fields) : Fields :=
  {| _numMasks := _numMasks e; _numMasksUniformLocation := loc1;
     _bitmap := icons; _customImage := _customImage e;
     _extraTextureUnit := _extraTextureUnit e; _extraTexture := extra;
     _fillBg := _fillBg e; _fillBgLocation := loc2;
     _masksTextureUnitStart := _masksTextureUnitStart e;
     _maskTextures := slots; _useCustomImage := _useCustomImage e;
     _useCustomImageLocation := loc3 |}.

(** *** [setupUniforms] (lines 109-150)

    [icons] is what the three fetches of the icon images give; when one of
    them fails the method is rejected with [_bitmap] left empty. *)
Definition setupUniforms (icons : option (ImageBitmap * ImageBitmap * ImageBitmap))
    (b : Base) (e : Fields) (g : GL) : Base * Fields * GL * outcome unit :=
  let (b1, g1) := super_setupUniforms b g in
  let (extra, g2) := createTexture g1 in
  let loc1 := getUniformLocation "uNumMasks" in
  let loc2 := getUniformLocation "uFill" in
  let loc3 := getUniformLocation "uUseCustomImage" in
  let g3 := callAll
    [Uniform1i loc1 (_numMasks e);
     Uniform1i loc2 (_fillBg e);
     Uniform1i loc3 (if _useCustomImage e then 1%Z else 0%Z);
     Uniform1i (getUniformLocation "uEmojiTexture") (Z.of_nat (_extraTextureUnit e))] g2 in
  let (slots, g4) := preAllocateTextures g3 3 in
  match icons with
  | Some (angery, heart, whistle) =>
      (b1, set_setup loc1 loc2 loc3 (Some extra) slots [angery; heart; whistle] e, g4, Done tt)
  | None =>
      (b1, set_setup loc1 loc2 loc3 (Some extra) slots [] e, g4, Raise FetchFailed)
  end.

(** *** [apply] (lines 152-266)

    [_bitmap] is an array and never null, so the early return of line 161
    is never taken. [TexFilterClamp] stands for the four [texParameteri]
    calls that follow an upload of the replacement image. The copy of the
    result to the 2D canvas (line 265) is not a call on the context and is
    left out. *)

(** The upload of the replacement image (lines 181-219). *)
Definition replacementCalls (b : Base) (e : Fields) : list GLCall :=
  match _useCustomImage e, _customImage e with
  | true, Some img =>
      [TexImage2D RGBA (width img) (height img) (FromBitmap img); TexFilterClamp LINEAR]
  | _, _ =>
      if Nat.eqb (length (_bitmap e)) 0 then []
      else
        match _bitmap e !! ((variant b / 2) mod length (_bitmap e)) with
        | Some icon =>
            [TexImage2D RGBA (width icon) (height icon) (FromBitmap icon);
             TexFilterClamp NEAREST]
        | None => []
        end
  end.

(** The body of the first [forEach] (lines 222-251) for the mask at
    [index], once its bitmap is decoded to [maskData]. *)
Definition maskCalls (e : Fields) (context : EffectFrameContext)
    (index : nat) (mask : EffectMask) (maskData : list Z) : list GLCall :=
  [ActiveTexture (index + _masksTextureUnitStart e);
   BindTexture (_maskTextures e !! index);
   Uniform1i (getUniformLocation ("uMaskTexture" +:+ pretty index))
     (Z.of_nat (index + _masksTextureUnitStart e));
   Uniform4fv (getUniformLocation ("bbox" +:+ pretty index))
     (normalizeBounds (fst (bounds mask)) (snd (bounds mask))
        (ctx_width context) (ctx_height context));
   PixelStorei;
   TexImage2D LUMINANCE (ctx_height context) (ctx_width context) (FromData maskData)].

(** The first [forEach], from [index] on; a decoder that throws ends it. *)
Fixpoint uploadMasks (e : Fields) (context : EffectFrameContext)
    (index : nat) (ms : list EffectMask) (g : GL) : GL * outcome unit :=
  match ms with
  | [] => (g, Done tt)
  | mask :: rest =>
      match decode (bitmap mask) with
      | None => (g, Raise DecodeFailed)
      | Some maskData =>
          uploadMasks e context (S index) rest
            (callAll (maskCalls e context index mask maskData) g)
      end
  end.

(** The second [forEach] (lines 258-261). *)
Definition unbindCalls (e : Fields) (n : nat) : list GLCall :=
  flat_map (fun index => [ActiveTexture (index + _masksTextureUnitStart e); BindTexture None])
    (seq 0 n).

(** Lines 165-219: the uniforms of the frame and the replacement image. *)
Definition frameCalls (context : EffectFrameContext) (b : Base) (e : Fields)
    : list GLCall :=
  [ClearColor; Clear;
   Uniform1i (_numMasksUniformLocation e) (Z.of_nat (length (ctx_masks context)));
   Uniform1i (_fillBgLocation e) (if Nat.eqb (variant b mod 2) 0 then 0%Z else 1%Z)]
  ++ match _useCustomImageLocation e with
     | Some _ => [Uniform1i (_useCustomImageLocation e)
                    (if _useCustomImage e then 1%Z else 0%Z)]
     | None => []
     end
  ++ [ActiveTexture (_extraTextureUnit e); BindTexture (_extraTexture e)]
  ++ replacementCalls b e.

Definition apply (context : EffectFrameContext) (b : Base) (e : Fields) (g : GL)
    : GL * outcome unit :=
  if negb (gl_present b) then (g, Raise (InvariantViolation "WebGL2 context is required"))
  else if negb (program_present b) then (g, Raise (InvariantViolation "Not WebGL program found"))
  else
    let g1 := callAll (frameCalls context b e) g in
    match uploadMasks e context 0 (ctx_masks context) g1 with
    | (g2, Raise x) => (g2, Raise x)
    | (g2, Done _) =>
        let g3 := callAll
          ([DrawArrays; BindTexture None]
           ++ unbindCalls e (length (ctx_masks context))) g2 in
        if negb (canvas_present b) then (g3, Raise (InvariantViolation "canvas is required"))
        else (g3, Done tt)
    end.

(** The calls of the first [forEach] when the bitmaps of the masks [ms]
    decode to [datas], the first mask being at [index]. *)
Fixpoint uploadCalls (e : Fields) (context : EffectFrameContext) (index : nat)
    (ms : list EffectMask) (datas : list (list Z)) : list GLCall :=
  match ms, datas with
  | mask :: ms', maskData :: datas' =>
      maskCalls e context index mask maskData
      ++ uploadCalls e context (S index) ms' datas'
  | _, _ => []
  end.

(** The number of mask bitmaps uploaded among the calls [cs]. *)
Definition maskUploads (cs : list GLCall) : nat :=
  length (List.filter (fun c => match c with
                                | TexImage2D LUMINANCE _ _ _ => true
                                | _ => false
                                end) cs).

(** *** [cleanup] (lines 268-280)

    [super.cleanup()] is called without [await]; the parameter stands for
    what it has done when the call returns. *)

Definition deleteTextures (ts : list Texture) (g : GL) : GL :=
  fold_left (fun g t => deleteTexture t g) ts g.

Definition set_maskTextures (slots : list Texture) (e : Fields) : Fields :=
  set_setup (_numMasksUniformLocation e) (_fillBgLocation e)
    (_useCustomImageLocation e) (_extraTexture e) slots (_bitmap e) e.

Definition cleanup (b : Base) (e : Fields) (g : GL) : Base * Fields * GL :=
  let (b1, g1) := super_cleanup b g in
  if gl_present b1 then (b1, set_maskTextures [] e, deleteTextures (_maskTextures e) g1)
  else (b1, e, g1).

End Effect.

End ReplaceGLEffect.

(** ** Point additions whose answers arrive in any order

    Each call of [addPoint] runs to its [await]; the rest of it runs when
    the answer of its request arrives, which may be after later calls were
    made and answered. [issued] lists the frame each request was posted
    for, in the order of the calls. *)

Module Interleaving.

Import EditorStore.

Inductive Event :=
  | Click (point : CanvasPoint)
  | Answer (request : nat) (answer : result AddPointsResult).

Record Run := {
  store : Store;
  issued : list Z;
  log : list Effect
}.

Definition start (st : Store) : Run := {| store := st; issued := []; log := [] |}.

Definition step (r : Run) (ev : Event) : Run :=
  match ev with
  | Click point =>
      match addPoint_send point (store r) with
      | (st1, l, Ok (Some frameIdx)) =>
          {| store := st1; issued := issued r ++ [frameIdx]; log := log r ++ l |}
      | (st1, l, _) =>
          {| store := st1; issued := issued r; log := log r ++ l |}
      end
  | Answer request answer =>
      match issued r !! request with
      | Some frameIdx =>
          match addPoint_receive frameIdx answer (store r) with
          | (st1, l, _) => {| store := st1; issued := issued r; log := log r ++ l |}
          end
      | None => r
      end
  end.

Definition run (st : Store) (evs : list Event) : Run := fold_left step evs (start st).

(** The points of the calls made, in order. *)
Definition clicksOf (evs : list Event) : list CanvasPoint :=
  flat_map (fun ev => match ev with Click p => [p] | Answer _ _ => [] end) evs.

End Interleaving.

(** ** Concrete inputs for the examples *)

Module Fixture.

Import EditorStore.

Definition quote : string := String "034"%char EmptyString.

Definition lf : string := String Js.newline EmptyString.

(** The text of the record of frame [n] with no masks, as the backend
    writes it without spaces. *)
Definition recordText (n : N) : string :=
  "{" +:+ quote +:+ "frame_idx" +:+ quote +:+ ":" +:+ pretty n +:+ ","
      +:+ quote +:+ "masks" +:+ quote +:+ ":[]}".

Fixpoint dropPrefix (p s : string) : option string :=
  match p, s with
  | EmptyString, _ => Some s
  | String a p', String b s' => if Ascii.eqb a b then dropPrefix p' s' else None
  | String _ _, EmptyString => None
  end.

Definition digitOf (c : ascii) : option Z :=
  let n := nat_of_ascii c in
  if (Nat.leb 48 n && Nat.leb n 57)%bool then Some (Z.of_nat (n - 48)) else None.

(** The digits at the head of [s], read in base ten, and what follows. *)
Fixpoint readDigits (acc : Z) (s : string) : Z * string :=
  match s with
  | EmptyString => (acc, s)
  | String c r =>
      match digitOf c with
      | Some d => readDigits (acc * 10 + d) r
      | None => (acc, s)
      end
  end.

(** A JSON integer without sign: [0], or digits that do not start with [0]. *)
Definition readInt (s : string) : option (Z * string) :=
  match s with
  | EmptyString => None
  | String c r =>
      match digitOf c with
      | None => None
      | Some 0%Z => Some (0%Z, r)
      | Some d => Some (readDigits d r)
      end
  end.

(** [JSON.parse] on the texts [recordText n], and the exception for every
    other text. The examples give it only such records and pieces of them,
    which are not JSON texts. *)
Definition parseRecord (s : string) : option FrameMasks :=
  match dropPrefix ("{" +:+ quote +:+ "frame_idx" +:+ quote +:+ ":") s with
  | None => None
  | Some s1 =>
      match readInt s1 with
      | None => None
      | Some (n, s2) =>
          if String.eqb s2 ("," +:+ quote +:+ "masks" +:+ quote +:+ ":[]}")
          then Some {| frame_idx := n; fm_masks := [] |}
          else None
      end
  end.

(** Two records in one chunk, and the same text cut inside the second
    record. *)
Definition wholeChunks : list string :=
  [recordText 0 +:+ lf +:+ recordText 1 +:+ lf].

Definition cutChunks : list string :=
  [recordText 0 +:+ lf +:+ String.substring 0 14 (recordText 1);
   String.substring 14 12 (recordText 1) +:+ lf].

(** The records of frames 0 to [n - 1], one per chunk. *)
Definition framesUpTo (n : nat) : list string :=
  map (fun k => recordText (N.of_nat k) +:+ lf) (seq 0 n).

Definition emptyStore : Store :=
  {| isLoading := false; currentVideo := None; sessionId := None;
     chatMessages := []; currentFrame := 0; points := ∅; masks := ∅;
     videoFrames := []; isProcessing := false; processingProgress := 0;
     instructions := None |}.

Definition click (px py : Z) : CanvasPoint :=
  {| x := inject_Z px; y := inject_Z py; label := 1 |}.

(** A store with the session [s1] and one point on frame 0. *)
Definition activeStore : Store :=
  set_points {[ 0 := [click 50 50] ]} (set_sessionId (Some "s1") emptyStore).

Definition maskOf (obj : Z) (text : string) : MaskData :=
  {| rle := {| counts := text; rle_size := (100, 100) |}; score := 1;
     mask_id := None; object_id := Some obj |}.

(** A base class whose [super] methods do nothing. *)
Record PlainBase := { gl : bool; program : bool; canvas : bool; variantOf : nat }.

Definition readyBase : PlainBase :=
  {| gl := true; program := true; canvas := true; variantOf := 0 |}.

Definition noSuper (b : PlainBase) (g : ReplaceGLEffect.GL) : PlainBase * ReplaceGLEffect.GL :=
  (b, g).

Definition freshGL : ReplaceGLEffect.GL :=
  {| ReplaceGLEffect.liveTextures := ∅; ReplaceGLEffect.nextTexture := 0%nat;
     ReplaceGLEffect.calls := [] |}.

Definition icon : ReplaceGLEffect.ImageBitmap :=
  {| ReplaceGLEffect.width := 64%nat; ReplaceGLEffect.height := 64%nat |}.

Definition someMask : ReplaceGLEffect.EffectMask :=
  {| ReplaceGLEffect.bitmap := {| counts := "16"; rle_size := (4, 4) |};
     ReplaceGLEffect.bounds := ((0%Q, 0%Q), (1%Q, 1%Q)) |}.

Definition frameOf (n : nat) : ReplaceGLEffect.EffectFrameContext :=
  {| ReplaceGLEffect.ctx_masks := replicate n someMask;
     ReplaceGLEffect.ctx_width := 4%nat; ReplaceGLEffect.ctx_height := 4%nat |}.

(** A program that declares every uniform, a decoder that gives four
    bytes, bounds taken as they are. *)
Definition anyUniform (name : string) : bool := true.

Definition fourBytes (r : RLE) : option (list Z) := Some [0; 0; 0; 0].

Definition plainBounds (lo hi : Q * Q) (w h : nat) : list Q :=
  [fst lo; snd lo; fst hi; snd hi].

End Fixture.

(** ** Programs over any state: the actions and handlers outside the claims

    The same shape as the computations of the store, over any state, with
    a log that can also hold the requests of the other actions and with
    thrown values that carry the message the chat shows. *)

Module Prog.

Import EditorStore.

Record File := { file_name : string; file_size : Z; file_type : string }.

Record LLMResponse := {
  llm_response : string;
  llm_provider : string;
  llm_error : option string;
  raw_response : option string
}.

(** A thrown value: an error of the embedded store actions, or an [Error]
    object with its message (an axios error, [new Error(text)]). *)
Inductive Thrown :=
  | StoreError (e : Error)
  | ErrorObject (message : string).

Inductive Call :=
  | Inner (e : Effect)
  | GetGalleryVideos
  | PostUpload (file : File)
  | PostSession (video_path : string)
  | PostProcess (prompt provider : string) (video_context : option string)
  | PostParse (llm_response : string)
  | LogError (msg : string)
  | Alert (msg : string)
  | RouterPush (route : string).

Inductive answer (A : Type) :=
  | Got (a : A)
  | Failed (t : Thrown).
Arguments Got {A} a.
Arguments Failed {A} t.

Definition Prog (S A : Type) : Type := S -> S * list Call * answer A.

Definition ret {S A} (a : A) : Prog S A := fun s => (s, [], Got a).

Definition throw {S A} (t : Thrown) : Prog S A := fun s => (s, [], Failed t).

Definition bind {S A B} (m : Prog S A) (k : A -> Prog S B) : Prog S B :=
  fun s =>
    match m s with
    | (s1, l1, Got a) =>
        match k a s1 with
        | (s2, l2, r) => (s2, l1 ++ l2, r)
        end
    | (s1, l1, Failed t) => (s1, l1, Failed t)
    end.

Declare Scope prog_scope.
Delimit Scope prog_scope with prog.
Notation "v <~ m ;; k" := (bind m (fun v => k))
  (at level 100, m at next level, right associativity) : prog_scope.
Notation "m ;;; k" := (bind m (fun _ => k))
  (at level 100, right associativity) : prog_scope.

Definition get {S} : Prog S S := fun s => (s, [], Got s).

Definition modify {S} (f : S -> S) : Prog S unit := fun s => (f s, [], Got tt).

Definition emit {S} (c : Call) : Prog S unit := fun s => (s, [c], Got tt).

Definition await {S A} (r : answer A) : Prog S A := fun s => (s, [], r).

Definition try_catch {S A} (body : Prog S A) (handler : Thrown -> Prog S A) : Prog S A :=
  fun s =>
    match body s with
    | (s1, l1, Got a) => (s1, l1, Got a)
    | (s1, l1, Failed t) =>
        match handler t s1 with
        | (s2, l2, r) => (s2, l1 ++ l2, r)
        end
    end.

Definition try_finally {S A} (body : Prog S A) (fin : Prog S unit) : Prog S A :=
  fun s =>
    match body s with
    | (s1, l1, r) =>
        match fin s1 with
        | (s2, l2, Got _) => (s2, l1 ++ l2, r)
        | (s2, l2, Failed t) => (s2, l1 ++ l2, Failed t)
        end
    end.

(** An action of the claims run inside a program: the same store, its
    effects in the log, its exception thrown on. *)
Definition inner {A} (m : M A) : Prog Store A :=
  fun st =>
    match m st with
    | (st1, l, Ok a) => (st1, map Inner l, Got a)
    | (st1, l, Throw e) => (st1, map Inner l, Failed (StoreError e))
    end.

(** The requests among the calls, those of the embedded actions
    included. *)
Definition isCallRequest (c : Call) : bool :=
  match c with
  | Inner e => isRequest e
  | GetGalleryVideos | PostUpload _ | PostSession _ | PostProcess _ _ _ | PostParse _ => true
  | LogError _ | Alert _ | RouterPush _ => false
  end.

Definition requestsIn (l : list Call) : list Call := List.filter isCallRequest l.

Definition stateOf {S A} (r : S * list Call * A) : S := fst (fst r).
Definition callsOf {S A} (r : S * list Call * A) : list Call := snd (fst r).
Definition answerOf {S A} (r : S * list Call * answer A) : answer A := snd r.

End Prog.

(** ** The other actions and the getters of the store *)

Module Actions.

Import EditorStore Prog.
Local Open Scope prog_scope.

Definition set_isLoading (v : bool) (st : Store) : Store :=
  {| isLoading := v; currentVideo := currentVideo st; sessionId := sessionId st;
     chatMessages := chatMessages st; currentFrame := currentFrame st;
     points := points st; masks := masks st; videoFrames := videoFrames st;
     isProcessing := isProcessing st; processingProgress := processingProgress st;
     instructions := instructions st |}.

Definition set_chatMessages (v : list ChatMessage) (st : Store) : Store :=
  {| isLoading := isLoading st; currentVideo := currentVideo st; sessionId := sessionId st;
     chatMessages := v; currentFrame := currentFrame st;
     points := points st; masks := masks st; videoFrames := videoFrames st;
     isProcessing := isProcessing st; processingProgress := processingProgress st;
     instructions := instructions st |}.

Definition set_instructions (v : option ModelInstructions) (st : Store) : Store :=
  {| isLoading := isLoading st; currentVideo := currentVideo st; sessionId := sessionId st;
     chatMessages := chatMessages st; currentFrame := currentFrame st;
     points := points st; masks := masks st; videoFrames := videoFrames st;
     isProcessing := isProcessing st; processingProgress := processingProgress st;
     instructions := v |}.

Definition set_currentFrame (v : Z) (st : Store) : Store :=
  {| isLoading := isLoading st; currentVideo := currentVideo st; sessionId := sessionId st;
     chatMessages := chatMessages st; currentFrame := v;
     points := points st; masks := masks st; videoFrames := videoFrames st;
     isProcessing := isProcessing st; processingProgress := processingProgress st;
     instructions := instructions st |}.

(** *** The getters (lines 22-24) *)

(** [points.value[currentFrame.value] || []] *)
Definition currentFramePoints (st : Store) : list CanvasPoint :=
  framePoints st (currentFrame st).

(** [masks.value[currentFrame.value]?.masks || []] *)
Definition currentFrameMasks (st : Store) : list MaskData :=
  match masks st !! currentFrame st with
  | Some fm => fm_masks fm
  | None => []
  end.

(** *** [loadGalleryVideos] (lines 27-37) *)
Definition loadGalleryVideos (got : answer (list GalleryVideo))
    : Prog Store (list GalleryVideo) :=
  modify (set_isLoading true) ;;;
  try_finally
    (try_catch
       (emit GetGalleryVideos ;;; await got)
       (fun _ => emit (LogError "Failed to load gallery videos:") ;;; ret []))
    (modify (set_isLoading false)).

(** *** [uploadVideo] (lines 39-50) *)
Definition uploadVideo (file : File) (got : answer GalleryVideo)
    : Prog Store GalleryVideo :=
  modify (set_isLoading true) ;;;
  try_finally
    (try_catch
       (emit (PostUpload file) ;;; await got)
       (fun t => emit (LogError "Failed to upload video:") ;;; throw t))
    (modify (set_isLoading false)).

(** *** [selectVideo] (lines 52-71)

    [deleted] answers the DELETE request of the session that is closed
    first, [created] the request for the new session. *)
Definition selectVideo (video : GalleryVideo)
    (deleted : result unit) (created : answer Session) : Prog Store unit :=
  st <~ get ;;
  (if Js.truthy (sessionId st) then inner (endSession deleted) else ret tt) ;;;
  modify (set_currentVideo (Some video)) ;;;
  modify (set_isLoading true) ;;;
  try_finally
    (try_catch
       (emit (PostSession (video_path video)) ;;;
        session <~ await created ;;
        modify (set_sessionId (Some (session_id session))) ;;;
        inner resetEditorState)
       (fun _ => emit (LogError "Failed to create session:")))
    (modify (set_isLoading false)).

(** A call of [selectVideo] that is not awaited runs inside its caller up
    to its first [await], and the rest of it runs once the request awaited
    there is answered. With a session the first [await] is that of the
    DELETE request in [endSession] (lines 54-55 and 74-77); without one it
    is that of the request for the new session (lines 58-62). *)
Inductive Awaited := AwaitsDelete | AwaitsSession.

(** Lines 58-62 up to the [await], and lines 62-70 from the answer on. *)
Definition createSession_begin (video : GalleryVideo) : Prog Store Awaited :=
  modify (set_currentVideo (Some video)) ;;;
  modify (set_isLoading true) ;;;
  emit (PostSession (video_path video)) ;;;
  ret AwaitsSession.

Definition createSession_resume (created : answer Session) : Prog Store unit :=
  try_finally
    (try_catch
       (session <~ await created ;;
        modify (set_sessionId (Some (session_id session))) ;;;
        inner resetEditorState)
       (fun _ => emit (LogError "Failed to create session:")))
    (modify (set_isLoading false)).

(** Lines 77-84 of [endSession] from the answer of the DELETE request on. *)
Definition endSession_resume (deleted : result unit) : M unit :=
  EditorStore.try_finally
    (EditorStore.try_catch
       (EditorStore.await deleted)
       (fun _ => EditorStore.emit (ConsoleError "Failed to end session:")))
    (EditorStore.bind (EditorStore.modify (set_sessionId None)) (fun _ =>
     EditorStore.bind (EditorStore.modify (set_currentVideo None)) (fun _ =>
     resetEditorState))).

Definition selectVideo_begin (video : GalleryVideo) : Prog Store Awaited :=
  st <~ get ;;
  match sessionId st with
  | Some sid =>
      if Js.truthy (Some sid)
      then emit (Inner (DeleteSession sid)) ;;; ret AwaitsDelete
      else createSession_begin video
  | None => createSession_begin video
  end.

Definition selectVideo_resume (video : GalleryVideo) (awaited : Awaited)
    (deleted : result unit) (created : answer Session) : Prog Store unit :=
  match awaited with
  | AwaitsDelete =>
      inner (endSession_resume deleted) ;;;
      createSession_begin video ;;;
      createSession_resume created
  | AwaitsSession => createSession_resume created
  end.

(** The store of a session just created for [video]: nothing but the
    video and the session identifier. *)
Definition opened (video : GalleryVideo) (session : Session) : Store :=
  {| isLoading := false; currentVideo := Some video;
     sessionId := Some (session_id session);
     chatMessages := []; currentFrame := 0; points := ∅; masks := ∅;
     videoFrames := []; isProcessing := false; processingProgress := 0;
     instructions := None |}.

(** *** [sendChatMessage] (lines 175-242) *)

(** [Object.keys(points.value)[0]] read as a number. The keys of an
    object that are array indices come first, in increasing order, so for
    frame numbers from 0 up to 4294967294 this is the smallest key. *)
Definition firstKey (m : gmap Z (list CanvasPoint)) : option Z :=
  match (map_to_list m).*1 with
  | [] => None
  | k :: ks => Some (foldr Z.min k ks)
  end.

Definition joinWith (sep : string) (parts : list string) : string :=
  String.concat sep parts.

(** The text of the bot's message (lines 210-214). *)
Definition botContent (ins : ModelInstructions) : string :=
  "I'll help you with that! I'll "
  +:+ joinWith ", " (map (fun obj => "find the " +:+ obj_name obj) (objects ins))
  +:+ " and apply "
  +:+ joinWith ", " (map effect_type (effects ins))
  +:+ " effects.".

Section Chat.

Variable JSON_parse : string -> option FrameMasks.

(** The message of the errors of the embedded actions, which the transport
    gives. *)
Variable messageOf : Error -> string.

Definition thrownMessage (t : Thrown) : string :=
  match t with
  | StoreError e => messageOf e
  | ErrorObject message => message
  end.

Definition pushMessage (m : ChatMessage) : Prog Store unit :=
  modify (fun st => set_chatMessages (chatMessages st ++ [m]) st).

(** [id1], [now1] are the identifier and the date of the user's message,
    [id2], [now2] those of the reply; [processed] and [parsed] answer the
    two requests to the language model, [propagated] the propagation
    request. *)
Definition sendChatMessage (content : string)
    (id1 : string) (now1 : Q) (id2 : string) (now2 : Q)
    (processed : answer LLMResponse) (parsed : answer ModelInstructions)
    (propagated : result Reader) : Prog Store (option ModelInstructions) :=
  pushMessage {| msg_id := id1; role := user; content := content; timestamp := now1 |} ;;;
  modify (set_isLoading true) ;;;
  try_finally
    (try_catch
       (st <~ get ;;
        emit (PostProcess content "openai"
                (match currentVideo st with
                 | Some v => Some ("Processing video: " +:+ video_name v)
                 | None => None
                 end)) ;;;
        llmResponse <~ await processed ;;
        (match llm_error llmResponse with
         | Some text => if Js.truthy (Some text) then throw (ErrorObject text) else ret tt
         | None => ret tt
         end) ;;;
        emit (PostParse (llm_response llmResponse)) ;;;
        parsedInstructions <~ await parsed ;;
        modify (set_instructions (Some parsedInstructions)) ;;;
        pushMessage {| msg_id := id2; role := bot;
                       content := botContent parsedInstructions; timestamp := now2 |} ;;;
        st1 <~ get ;;
        (match firstKey (points st1) with
         | Some firstPointFrame =>
             inner (propagateMasks JSON_parse firstPointFrame propagated)
         | None => ret tt
         end) ;;;
        ret (Some parsedInstructions))
       (fun t =>
          emit (LogError "Error processing chat message:") ;;;
          pushMessage {| msg_id := id2; role := bot;
                         content := "Sorry, I encountered an error: " +:+ thrownMessage t;
                         timestamp := now2 |} ;;;
          ret None))
    (modify (set_isLoading false)).

(** What the two requests to the language model come to: the
    instructions, or the value thrown into the [catch] of line 226. *)
Definition chatOutcome (processed : answer LLMResponse)
    (parsed : answer ModelInstructions) : Thrown + ModelInstructions :=
  match processed with
  | Failed t => inl t
  | Got llmResponse =>
      match llm_error llmResponse with
      | Some (String c text) => inl (ErrorObject (String c text))
      | _ =>
          match parsed with
          | Failed t => inl t
          | Got parsedInstructions => inr parsedInstructions
          end
      end
  end.

(** The reply that ends the exchange. *)
Definition replyContent (outcome : Thrown + ModelInstructions) : string :=
  match outcome with
  | inl t => "Sorry, I encountered an error: " +:+ thrownMessage t
  | inr parsedInstructions => botContent parsedInstructions
  end.

End Chat.

(** The store when the reply is in: two more messages, the loading flag
    on, and the instructions when there are some. *)
Definition replied (userMessage reply : ChatMessage)
    (outcome : Thrown + ModelInstructions) (st : Store) : Store :=
  set_chatMessages (chatMessages st ++ [userMessage; reply])
    (set_instructions
       (match outcome with inl _ => instructions st | inr ins => Some ins end)
       (set_isLoading true st)).

(** Frame numbers that are array indices, the keys that an object lists
    first and in increasing order. *)
Definition arrayIndices (m : gmap Z (list CanvasPoint)) : Prop :=
  forall k, k ∈ dom m -> 0 <= k < 4294967295.

End Actions.

(** ** The handlers of [EditorView.vue] *)

Module EditorView.

Import EditorStore Interleaving Actions.

Inductive Mode := foreground | background.

(** The refs of the view that the handlers below read and write; the
    video element is its [paused] flag once it is mounted. *)
Record View := {
  videoElement : option bool;
  interactionCanvas : bool;
  isPlaying : bool;
  pointMode : option Mode
}.

(** The view, the store with the requests that await their answer, and
    the alerts shown. *)
Record Editor := {
  view : View;
  run : Run;
  alerts : list string
}.

Definition set_pointMode (m : option Mode) (v : View) : View :=
  {| videoElement := videoElement v; interactionCanvas := interactionCanvas v;
     isPlaying := isPlaying v; pointMode := m |}.

Definition withStore (st : Store) (l : list Effect) (r : Run) : Run :=
  {| store := st; issued := issued r; log := log r ++ l |}.

(** [hasPoints] (lines 237-239): [Object.keys(editorStore.points).length > 0] *)
Definition hasPoints (ed : Editor) : bool :=
  match firstKey (points (store (run ed))) with
  | Some _ => true
  | None => false
  end.

(** [onTimeUpdate] (lines 252-259), for the frame index [frameIdx] it has
    computed from the time of the video. *)
Definition onTimeUpdate (frameIdx : Z) (ed : Editor) : Editor :=
  match videoElement (view ed) with
  | None => ed
  | Some _ =>
      {| view := view ed;
         run := withStore (set_currentFrame frameIdx (store (run ed))) [] (run ed);
         alerts := alerts ed |}
  end.

(** [startPointMode] (lines 333-338) *)
Definition startPointMode (ed : Editor) : Editor :=
  {| view := set_pointMode (Some foreground) (view ed); run := run ed;
     alerts := alerts ed |}.

(** [handleCanvasClick] (lines 303-331), for a click at [(px, py)] of the
    canvas; the call of [addPoint] is not awaited, so the handler ends
    when the request is posted. *)
Definition handleCanvasClick (px py : Q) (ed : Editor) : Editor :=
  match pointMode (view ed), interactionCanvas (view ed) with
  | Some mode, true =>
      {| view := view ed;
         run := step (run ed)
                  (Click {| x := px; y := py;
                            label := match mode with foreground => 1 | background => 0 end |});
         alerts := alerts ed |}
  | _, _ => ed
  end.

(** The store call [editorStore.resetEditorState()]. *)
Definition resetStore (r : Run) : Run :=
  match resetEditorState (store r) with
  | (st1, l, _) => withStore st1 l r
  end.

(** [clearPoints] (lines 340-352) *)
Definition clearPoints (ed : Editor) : Editor :=
  {| view := set_pointMode None (view ed); run := resetStore (run ed);
     alerts := alerts ed |}.

(** [resetSession] (lines 418-421) *)
Definition resetSession (ed : Editor) : Editor :=
  clearPoints {| view := view ed; run := resetStore (run ed); alerts := alerts ed |}.

(** [startTracking] (lines 377-400), run to its end without another
    handler in between. *)
Definition startTracking (JSON_parse : string -> option FrameMasks)
    (answer : result Reader) (ed : Editor) : Editor :=
  match firstKey (points (store (run ed))) with
  | None =>
      {| view := view ed; run := run ed;
         alerts := alerts ed ++ ["Please add points first!"%string] |}
  | Some startFrame =>
      let v1 :=
        match videoElement (view ed) with
        | Some false =>
            {| videoElement := Some true; interactionCanvas := interactionCanvas (view ed);
               isPlaying := false; pointMode := pointMode (view ed) |}
        | _ => view ed
        end in
      match propagateMasks JSON_parse startFrame answer (store (run ed)) with
      | (st1, l, Ok _) =>
          {| view := set_pointMode None v1; run := withStore st1 l (run ed);
             alerts := alerts ed |}
      | (st1, l, Throw _) =>
          {| view := v1; run := withStore st1 l (run ed); alerts := alerts ed |}
      end
  end.

(** What happens in the editor, one handler or one answer at a time. *)
Inductive Ui :=
  | TimeUpdate (frameIdx : Z)
  | StartPointMode
  | CanvasClick (px py : Q)
  | ClearPoints
  | ResetSession
  | StartTracking (answer : result Reader)
  | Arrives (request : nat) (answer : result AddPointsResult).

Definition handle (JSON_parse : string -> option FrameMasks) (ed : Editor) (ev : Ui)
    : Editor :=
  match ev with
  | TimeUpdate frameIdx => onTimeUpdate frameIdx ed
  | StartPointMode => startPointMode ed
  | CanvasClick px py => handleCanvasClick px py ed
  | ClearPoints => clearPoints ed
  | ResetSession => resetSession ed
  | StartTracking answer => startTracking JSON_parse answer ed
  | Arrives request answer =>
      {| view := view ed; run := step (run ed) (Answer request answer);
         alerts := alerts ed |}
  end.

Definition session (JSON_parse : string -> option FrameMasks) (ed : Editor)
    (evs : list Ui) : Editor :=
  fold_left (handle JSON_parse) evs ed.

(** Every stored point is a foreground point. *)
Definition allForeground (st : Store) : Prop :=
  forall (f : Z) (pts : list CanvasPoint),
    points st !! f = Some pts -> Forall (fun p => label p = 1) pts.

End EditorView.

(** ** The handlers of [HomeView.vue] *)

Module HomeView.

Import EditorStore Prog Actions.
Local Open Scope prog_scope.

Record Home := {
  galleryVideos : list GalleryVideo;
  homeLoading : bool;
  isUploading : bool;
  uploadError : string;
  fileInput : option string
}.

Definition State : Type := Home * Store.

Definition onHome (f : Home -> Home) : Prog State unit :=
  modify (fun s => (f (fst s), snd s)).

(** A store action run from the view. *)
Definition onStore {A} (m : Prog Store A) : Prog State A :=
  fun s =>
    match m (snd s) with
    | (st1, l, r) => ((fst s, st1), l, r)
    end.

Definition set_gallery (v : list GalleryVideo) (h : Home) : Home :=
  {| galleryVideos := v; homeLoading := homeLoading h; isUploading := isUploading h;
     uploadError := uploadError h; fileInput := fileInput h |}.

Definition set_homeLoading (v : bool) (h : Home) : Home :=
  {| galleryVideos := galleryVideos h; homeLoading := v; isUploading := isUploading h;
     uploadError := uploadError h; fileInput := fileInput h |}.

Definition set_isUploading (v : bool) (h : Home) : Home :=
  {| galleryVideos := galleryVideos h; homeLoading := homeLoading h; isUploading := v;
     uploadError := uploadError h; fileInput := fileInput h |}.

Definition set_uploadError (v : string) (h : Home) : Home :=
  {| galleryVideos := galleryVideos h; homeLoading := homeLoading h;
     isUploading := isUploading h; uploadError := v; fileInput := fileInput h |}.

Definition clear_fileInput (h : Home) : Home :=
  {| galleryVideos := galleryVideos h; homeLoading := homeLoading h;
     isUploading := isUploading h; uploadError := uploadError h;
     fileInput := match fileInput h with Some _ => Some EmptyString | None => None end |}.

(** [loadGalleryVideos] of the view (lines 136-145) *)
Definition loadGalleryVideos (got : answer (list GalleryVideo)) : Prog State unit :=
  onHome (set_homeLoading true) ;;;
  try_finally
    (try_catch
       (videos <~ onStore (Actions.loadGalleryVideos got) ;;
        onHome (set_gallery videos))
       (fun _ => emit (LogError "Failed to load gallery videos:")))
    (onHome (set_homeLoading false)).

(** [openEditor] (lines 182-185): the call of [selectVideo] is not
    awaited, so it runs to its first [await] and the route changes while
    its request is outstanding. *)
Definition openEditor (video : GalleryVideo) : Prog State unit :=
  onStore (selectVideo_begin video) ;;; emit (RouterPush "/editor").

Definition maxSize : Z := 100 * 1024 * 1024.

Definition allowedTypes : list string :=
  ["video/mp4"; "video/avi"; "video/quicktime"]%string.

Definition isAllowedType (t : string) : bool :=
  existsb (String.eqb t) allowedTypes.

(** [handleFileUpload] (lines 147-180), for the files of the input. *)
Definition handleFileUpload (files : list File) (got : answer GalleryVideo)
    : Prog State unit :=
  match files with
  | [] => ret tt
  | file :: _ =>
      onHome (set_uploadError "") ;;;
      if file_size file >? maxSize then
        onHome (set_uploadError "File is too large. Maximum size is 100MB.")
      else if negb (isAllowedType (file_type file)) then
        onHome (set_uploadError "Invalid file type. Please upload MP4, AVI, or MOV files.")
      else
        onHome (set_isUploading true) ;;;
        try_finally
          (try_catch
             (uploadedVideo <~ onStore (uploadVideo file got) ;;
              s <~ get ;;
              onHome (set_gallery (uploadedVideo :: galleryVideos (fst s))) ;;;
              openEditor uploadedVideo)
             (fun _ =>
                emit (LogError "Upload failed:") ;;;
                onHome (set_uploadError "Upload failed. Please try again.")))
          (onHome (set_isUploading false) ;;; onHome clear_fileInput)
  end.

(** The two checks that a file passes before it is uploaded. *)
Definition accepted (file : File) : bool :=
  negb (file_size file >? maxSize) && isAllowedType (file_type file).

End HomeView.

(** ** The replacement image of the effect *)

Module ReplacementImage.

Import ReplaceGLEffect.
Local Open Scope nat_scope.

Definition set_custom (image : option ImageBitmap) (use : bool) (e : Fields) : Fields :=
  {| _numMasks := _numMasks e; _numMasksUniformLocation := _numMasksUniformLocation e;
     _bitmap := _bitmap e; _customImage := image;
     _extraTextureUnit := _extraTextureUnit e; _extraTexture := _extraTexture e;
     _fillBg := _fillBg e; _fillBgLocation := _fillBgLocation e;
     _masksTextureUnitStart := _masksTextureUnitStart e;
     _maskTextures := _maskTextures e; _useCustomImage := use;
     _useCustomImageLocation := _useCustomImageLocation e |}.

Section Image.

Variable Base : Type.
Variable gl_present : Base -> bool.

(** *** [setCustomImage] (lines 55-94)

    [loaded] is what fetching and decoding the image gives, [None] when
    one of the three steps fails. Returns the fields, the context and the
    lines of [console.error]. *)
Definition setCustomImage (loaded : option ImageBitmap)
    (b : Base) (e : Fields) (g : GL) : Fields * GL * list string :=
  match loaded with
  | Some image =>
      let e1 := set_custom (Some image) true e in
      match gl_present b, _extraTexture e1 with
      | true, Some t =>
          (e1,
           callAll
             ([ActiveTexture (_extraTextureUnit e1); BindTexture (Some t);
               TexImage2D RGBA (width image) (height image) (FromBitmap image);
               TexFilterClamp LINEAR]
              ++ match _useCustomImageLocation e1 with
                 | Some _ => [Uniform1i (_useCustomImageLocation e1) 1%Z]
                 | None => []
                 end) g,
           [])
      | _, _ => (e1, g, [])
      end
  | None =>
      (set_custom (_customImage e) false e, g,
       ["Error loading custom replacement image:"%string])
  end.

(** *** [resetToDefaultImages] (lines 99-107) *)
Definition resetToDefaultImages (b : Base) (e : Fields) (g : GL) : Fields * GL :=
  let e1 := set_custom None false e in
  match gl_present b, _useCustomImageLocation e1 with
  | true, Some _ => (e1, callAll [Uniform1i (_useCustomImageLocation e1) 0%Z] g)
  | _, _ => (e1, g)
  end.

End Image.

(** The texture bound to each texture unit, as the context keeps it:
    [activeTexture] selects a unit, [bindTexture] binds an allocated
    texture to the selected unit, or leaves the unit with no texture when
    it is given null, and [deleteTexture] takes the texture off every unit
    it is bound to. The other calls leave the bindings as they are. *)
Record Bindings := { activeUnit : nat; boundTo : gmap nat Texture }.

Definition bindCall (s : Bindings) (c : GLCall) : Bindings :=
  match c with
  | ActiveTexture u => {| activeUnit := u; boundTo := boundTo s |}
  | BindTexture t =>
      {| activeUnit := activeUnit s;
         boundTo := partial_alter (fun _ => t) (activeUnit s) (boundTo s) |}
  | DeleteTexture t =>
      {| activeUnit := activeUnit s;
         boundTo := filter (fun kv : nat * Texture => kv.2 ≠ t) (boundTo s) |}
  | _ => s
  end.

Definition bindingsAfter (cs : list GLCall) (s : Bindings) : Bindings :=
  fold_left bindCall cs s.

End ReplacementImage.

(** ** Chunks that end at a line boundary *)

Module Chunks.

(** The text of a chunk that holds the lines [ls], each followed by a line
    feed. *)
Fixpoint chunkOf (ls : list string) : string :=
  match ls with
  | [] => EmptyString
  | l :: rest => l +:+ String Js.newline (chunkOf rest)
  end.

(** The lines [ls] with a line feed between them and none at the end. *)
Fixpoint joinLines (ls : list string) : string :=
  match ls with
  | [] => EmptyString
  | [l] => l
  | l :: rest => l +:+ String Js.newline (joinLines rest)
  end.

Fixpoint noNewline (s : string) : bool :=
  match s with
  | EmptyString => true
  | String c r => negb (Ascii.eqb c Js.newline) && noNewline r
  end.

(** A printing ASCII character other than the space: one of the codes
    33 to 126. *)
Definition visible (c : ascii) : bool :=
  let n := nat_of_ascii c in
  Nat.leb 33 n && Nat.leb n 126.

Definition startsClean (s : string) : bool :=
  match s with
  | EmptyString => false
  | String c _ => visible c
  end.

Fixpoint endsClean (s : string) : bool :=
  match s with
  | EmptyString => false
  | String c EmptyString => visible c
  | String _ r => endsClean r
  end.

(** A line as the backend writes a record: no line feed inside, and a
    printing ASCII character at either end (it starts with a brace and
    ends with one). *)
Definition cleanLine (l : string) : bool :=
  noNewline l && startsClean l && endsClean l.

End Chunks.

(** ** More concrete inputs *)

Module Sample.

Import EditorStore Prog Actions Fixture.

(** A store with the session [s1] and points on frames 7 and 3. *)
Definition twoFrames : Store :=
  set_points {[ 7 := [click 2 2]; 3 := [click 1 1] ]}
    (set_sessionId (Some "s1") emptyStore).

Definition someVideo : GalleryVideo :=
  {| video_id := "v1"; video_name := "clip"; video_path := "/videos/clip.mp4" |}.

Definition plainAnswer : LLMResponse :=
  {| llm_response := "track the dog"; llm_provider := "openai";
     llm_error := None; raw_response := None |}.

Definition trackDog : ModelInstructions :=
  {| objects := [{| obj_name := "dog"; obj_description := None; prompt_words := None |}];
     effects := [{| effect_type := "blur"; target := "dog" |}];
     tracking := true |}.

Definition transportMessage (e : Error) : string :=
  match e with
  | HttpError => "Network Error"
  | PropagateFailed => "Failed to propagate masks"
  | ReadFailed => "network error"
  end.

(** Three icons of different sizes, a decoder that knows one bitmap only,
    and a mask it cannot decode. *)
Definition angery : ReplaceGLEffect.ImageBitmap :=
  {| ReplaceGLEffect.width := 64%nat; ReplaceGLEffect.height := 64%nat |}.
Definition heart : ReplaceGLEffect.ImageBitmap :=
  {| ReplaceGLEffect.width := 48%nat; ReplaceGLEffect.height := 48%nat |}.
Definition whistle : ReplaceGLEffect.ImageBitmap :=
  {| ReplaceGLEffect.width := 32%nat; ReplaceGLEffect.height := 32%nat |}.

Definition photo : ReplaceGLEffect.ImageBitmap :=
  {| ReplaceGLEffect.width := 640%nat; ReplaceGLEffect.height := 480%nat |}.

Definition pickyDecode (r : RLE) : option (list Z) :=
  if String.eqb (counts r) "16" then Some [0; 0; 0; 0] else None.

Definition badMask : ReplaceGLEffect.EffectMask :=
  {| ReplaceGLEffect.bitmap := {| counts := ""; rle_size := (4, 4) |};
     ReplaceGLEffect.bounds := ((0%Q, 0%Q), (1%Q, 1%Q)) |}.

Definition variantBase (v : nat) : PlainBase :=
  {| gl := true; program := true; canvas := true; variantOf := v |}.

(** The fields after a set-up with the three icons. *)
Definition readyFields : ReplaceGLEffect.Fields :=
  snd (fst (fst (ReplaceGLEffect.setupUniforms PlainBase noSuper anyUniform
                   (Some (angery, heart, whistle)) readyBase
                   ReplaceGLEffect.initial freshGL))).

(** The context after that set-up. *)
Definition readyGL : ReplaceGLEffect.GL :=
  snd (fst (ReplaceGLEffect.setupUniforms PlainBase noSuper anyUniform
              (Some (angery, heart, whistle)) readyBase
              ReplaceGLEffect.initial freshGL)).

Definition freshView : EditorView.View :=
  {| EditorView.videoElement := Some false; EditorView.interactionCanvas := true;
     EditorView.isPlaying := true; EditorView.pointMode := None |}.

Definition freshEditor (st : Store) : EditorView.Editor :=
  {| EditorView.view := freshView; EditorView.run := Interleaving.start st;
     EditorView.alerts := [] |}.

Definition emptyHome : HomeView.Home :=
  {| HomeView.galleryVideos := []; HomeView.homeLoading := false;
     HomeView.isUploading := false; HomeView.uploadError := "";
     HomeView.fileInput := Some "clip.mp4"%string |}.

Definition bigFile : File :=
  {| file_name := "big.mp4"; file_size := 104857601; file_type := "video/mp4" |}.

Definition fullFile : File :=
  {| file_name := "full.mp4"; file_size := 104857600; file_type := "video/mp4" |}.

End Sample.

(** * Properties of the rounding *)

Section RoundingFacts.

Import Binary64 EditorStore.
Local Open Scope Q_scope.

Lemma pow2_pos (e : Z) : 0 < pow2 e.
Proof. apply Qpower_0_lt. reflexivity. Qed.

Lemma pow2_add (a b : Z) : pow2 (a + b) == pow2 a * pow2 b.
Proof. apply Qpower_plus. discriminate. Qed.

Lemma pow2_le (a b : Z) : (a <= b)%Z -> pow2 a <= pow2 b.
Proof. intros H. apply Qpower_le_compat_l; [exact H|discriminate]. Qed.

Lemma pow2_lt_inv (a b : Z) : pow2 a < pow2 b -> (a < b)%Z.
Proof. intros H. apply (Qpower_lt_compat_l_inv 2); [exact H|reflexivity]. Qed.

Lemma pow2_inject (n : Z) : (0 <= n)%Z -> inject_Z (2 ^ n) == pow2 n.
Proof. intros H. apply (Zpower_Qpower 2 n H). Qed.

Lemma pow2_succ (a : Z) : pow2 (a + 1) == 2 * pow2 a.
Proof. rewrite pow2_add. unfold pow2 at 2. simpl (2 ^ 1). ring. Qed.

Lemma pow2_pred (a : Z) : pow2 a == 2 * pow2 (a - 1).
Proof. rewrite <- pow2_succ. replace (a - 1 + 1)%Z with a by lia. reflexivity. Qed.

(** [x = n / d] with [2^ln <= n < 2^(ln+1)] and [2^ld <= d < 2^(ld+1)] *)
Lemma ilog2_spec (x : Q) : 0 < x -> pow2 (ilog2 x) <= x /\ x < pow2 (ilog2 x + 1).
Proof.
  intros Hx. destruct x as [n d]. unfold ilog2. cbn [Qnum Qden].
  assert (Hn : (0 < n)%Z) by (unfold Qlt in Hx; cbn in Hx; lia).
  set (ln := Z.log2 n). set (ld := Z.log2 (Z.pos d)).
  pose proof (Z.log2_spec n Hn) as [Hn1 Hn2]. fold ln in Hn1, Hn2.
  pose proof (Z.log2_spec (Z.pos d) ltac:(lia)) as [Hd1 Hd2]. fold ld in Hd1, Hd2.
  assert (Hln : (0 <= ln)%Z) by apply Z.log2_nonneg.
  assert (Hld : (0 <= ld)%Z) by apply Z.log2_nonneg.
  assert (Qn1 : pow2 ln <= inject_Z n).
  { rewrite <- pow2_inject by exact Hln. rewrite <- Zle_Qle. exact Hn1. }
  assert (Qn2 : inject_Z n < pow2 (ln + 1)).
  { rewrite <- pow2_inject by lia. rewrite <- Zlt_Qlt. unfold Z.succ in Hn2. exact Hn2. }
  assert (Qd1 : pow2 ld <= inject_Z (Z.pos d)).
  { rewrite <- pow2_inject by exact Hld. rewrite <- Zle_Qle. exact Hd1. }
  assert (Qd2 : inject_Z (Z.pos d) < pow2 (ld + 1)).
  { rewrite <- pow2_inject by lia. rewrite <- Zlt_Qlt. unfold Z.succ in Hd2. exact Hd2. }
  assert (Hx' : (n # d) * inject_Z (Z.pos d) == inject_Z n).
  { unfold Qeq, Qmult, inject_Z. cbn. lia. }
  assert (Hdpos : 0 < inject_Z (Z.pos d)) by reflexivity.
  pose proof (pow2_pos ld) as Pld. pose proof (pow2_pos (ln - ld)) as Pl.
  pose proof (pow2_pos (ln - ld - 1)) as Pl1.
  assert (E1 : pow2 ln == pow2 (ln - ld) * pow2 ld)
    by (rewrite <- pow2_add; replace (ln - ld + ld)%Z with ln by lia; reflexivity).
  assert (E2 : pow2 (ln - ld) == 2 * pow2 (ln - ld - 1)) by apply pow2_pred.
  assert (E3 : pow2 (ln - ld + 1) == 2 * pow2 (ln - ld)) by apply pow2_succ.
  assert (E4 : pow2 (ln + 1) == 2 * pow2 ln) by apply pow2_succ.
  assert (E5 : pow2 (ld + 1) == 2 * pow2 ld) by apply pow2_succ.
  set (x := n # d) in *. set (D := inject_Z (Z.pos d)) in *. set (N := inject_Z n) in *.
  (* bounds: pow2 (ln-ld-1) < x < pow2 (ln-ld+1) *)
  assert (Hlow : pow2 (ln - ld - 1) < x).
  { apply (Qmult_lt_r _ _ D Hdpos). rewrite Hx'.
    apply Qlt_le_trans with (pow2 (ln - ld - 1) * pow2 (ld + 1)).
    - apply Qmult_lt_l; assumption.
    - rewrite E5. setoid_replace (pow2 (ln - ld - 1) * (2 * pow2 ld))
        with (pow2 ln) using relation Qeq by (rewrite E1, E2; ring). exact Qn1. }
  assert (Hhigh : x < pow2 (ln - ld + 1)).
  { apply (Qmult_lt_r _ _ D Hdpos). rewrite Hx'.
    apply Qlt_le_trans with (pow2 (ln + 1)); [exact Qn2|].
    rewrite E4, E3, E1. setoid_replace (2 * (pow2 (ln - ld) * pow2 ld))
      with (2 * pow2 (ln - ld) * pow2 ld) using relation Qeq by ring.
    apply Qmult_le_l; [|exact Qd1].
    apply Qmult_lt_0_compat; [reflexivity|exact Pl]. }
  destruct (Qle_bool (pow2 (ln - ld)) x) eqn:Hb.
  - apply Qle_bool_iff in Hb. split; assumption.
  - assert (Hnb : x < pow2 (ln - ld)).
    { apply Qnot_le_lt. intros H. apply Qle_bool_iff in H. congruence. }
    replace (ln - ld - 1 + 1)%Z with (ln - ld)%Z by lia.
    split; [apply Qlt_le_weak; exact Hlow | exact Hnb].
Qed.

Lemma ilog2_mono (x y : Q) : 0 < x -> x <= y -> (ilog2 x <= ilog2 y)%Z.
Proof.
  intros Hx Hxy. assert (Hy : 0 < y) by (eapply Qlt_le_trans; eassumption).
  destruct (ilog2_spec x Hx) as [H1 _]. destruct (ilog2_spec y Hy) as [_ H2].
  assert (H : pow2 (ilog2 x) < pow2 (ilog2 y + 1)).
  { eapply Qle_lt_trans; [exact H1|]. eapply Qle_lt_trans; eassumption. }
  apply pow2_lt_inv in H. lia.
Qed.

Lemma nearestEven_near (y : Q) :
  y - (1 # 2) <= inject_Z (nearestEven y) /\ inject_Z (nearestEven y) <= y + (1 # 2).
Proof.
  unfold nearestEven. pose proof (Qfloor_le y) as Hl. pose proof (Qlt_floor y) as Hu.
  rewrite inject_Z_plus in Hu. change (inject_Z 1) with 1 in Hu.
  destruct (Qcompare_spec (y - inject_Z (Qfloor y)) (1 # 2)) as [He|Hlt|Hgt].
  - destruct (Z.even (Qfloor y)); rewrite ?inject_Z_plus; change (inject_Z 1) with 1; lra.
  - lra.
  - rewrite inject_Z_plus. change (inject_Z 1) with 1. lra.
Qed.

Lemma nearestEven_floor (y : Q) :
  (Qfloor y <= nearestEven y <= Qfloor y + 1)%Z.
Proof.
  unfold nearestEven.
  destruct (Qcompare (y - inject_Z (Qfloor y)) (1 # 2)); [destruct (Z.even _)| |]; lia.
Qed.

Lemma nearestEven_mono (x y : Q) : x <= y -> (nearestEven x <= nearestEven y)%Z.
Proof.
  intros Hxy. pose proof (Qfloor_resp_le x y Hxy) as Hf.
  pose proof (nearestEven_floor x) as Hx. pose proof (nearestEven_floor y) as Hy.
  destruct (Z.eq_dec (Qfloor x) (Qfloor y)) as [He|Hne]; [|lia].
  unfold nearestEven in *. rewrite He in *.
  destruct (Qcompare_spec (x - inject_Z (Qfloor y)) (1 # 2)) as [E1|L1|G1];
  destruct (Qcompare_spec (y - inject_Z (Qfloor y)) (1 # 2)) as [E2|L2|G2];
    try destruct (Z.even (Qfloor y)); try lia; lra.
Qed.

Lemma nearestEven_Z (n : Z) : nearestEven (inject_Z n) = n.
Proof.
  unfold nearestEven. rewrite Qfloor_Z.
  destruct (Qcompare_spec (inject_Z n - inject_Z n) (1 # 2)) as [E|L|G];
    [|reflexivity|]; exfalso; lra.
Qed.

(** The scaled value lies in [2^52, 2^53). *)
Lemma significand_range (x : Q) : 0 < x ->
  let s := pow2 (ilog2 x - 52) in
  pow2 52 * s <= x /\ x < pow2 53 * s.
Proof.
  intros Hx s. destruct (ilog2_spec x Hx) as [H1 H2]. subst s.
  rewrite <- !pow2_add.
  replace (52 + (ilog2 x - 52))%Z with (ilog2 x) by lia.
  replace (53 + (ilog2 x - 52))%Z with (ilog2 x + 1)%Z by lia.
  split; assumption.
Qed.

Lemma roundPos_range (x : Q) : 0 < x ->
  let s := pow2 (ilog2 x - 52) in
  pow2 52 * s <= roundPos x <= pow2 53 * s.
Proof.
  intros Hx s. destruct (significand_range x Hx) as [H1 H2]. fold s in H1, H2.
  assert (Hs : 0 < s) by apply pow2_pos.
  unfold roundPos. fold s.
  assert (L : (2 ^ 52 <= nearestEven (x / s))%Z).
  { rewrite <- (nearestEven_Z (2 ^ 52)). apply nearestEven_mono.
    rewrite pow2_inject by lia. apply Qle_shift_div_l; assumption. }
  assert (U : (nearestEven (x / s) <= 2 ^ 53)%Z).
  { rewrite <- (nearestEven_Z (2 ^ 53)). apply nearestEven_mono.
    rewrite pow2_inject by lia. apply Qle_shift_div_r; [assumption|].
    apply Qlt_le_weak; assumption. }
  rewrite Zle_Qle in L, U. rewrite pow2_inject in L, U by lia.
  split; apply Qmult_le_compat_r; try assumption; apply Qlt_le_weak; assumption.
Qed.

Lemma roundPos_mono (x y : Q) : 0 < x -> x <= y -> roundPos x <= roundPos y.
Proof.
  intros Hx Hxy. assert (Hy : 0 < y) by (eapply Qlt_le_trans; eassumption).
  pose proof (ilog2_mono x y Hx Hxy) as He.
  destruct (Z.eq_dec (ilog2 x) (ilog2 y)) as [Heq|Hne].
  - unfold roundPos. rewrite Heq. set (s := pow2 (ilog2 y - 52)).
    assert (Hs : 0 < s) by apply pow2_pos.
    apply Qmult_le_compat_r; [|apply Qlt_le_weak; exact Hs].
    rewrite <- Zle_Qle. apply nearestEven_mono.
    unfold Qdiv. apply Qmult_le_compat_r; [exact Hxy|].
    apply Qlt_le_weak, Qinv_lt_0_compat, Hs.
  - destruct (roundPos_range x Hx) as [_ Ux]. destruct (roundPos_range y Hy) as [Ly _].
    cbv zeta in *. eapply Qle_trans; [exact Ux|]. eapply Qle_trans; [|exact Ly].
    rewrite <- !pow2_add. apply pow2_le. lia.
Qed.

Lemma roundPos_error (x : Q) : 0 < x ->
  x * (1 - ulpHalf) <= roundPos x /\ roundPos x <= x * (1 + ulpHalf).
Proof.
  intros Hx. destruct (significand_range x Hx) as [H1 _]. cbv zeta in H1.
  unfold roundPos. set (s := pow2 (ilog2 x - 52)) in *.
  assert (Hs : 0 < s) by apply pow2_pos.
  destruct (nearestEven_near (x / s)) as [N1 N2].
  set (m := inject_Z (nearestEven (x / s))) in *.
  assert (Hxs : x / s * s == x) by (field; lra).
  assert (M1 : x - (1 # 2) * s <= m * s).
  { setoid_replace (x - (1 # 2) * s) with ((x / s - (1 # 2)) * s) using relation Qeq
      by (field; lra).
    apply Qmult_le_compat_r; lra. }
  assert (M2 : m * s <= x + (1 # 2) * s).
  { setoid_replace (x + (1 # 2) * s) with ((x / s + (1 # 2)) * s) using relation Qeq
      by (field; lra).
    apply Qmult_le_compat_r; lra. }
  assert (Hu : (1 # 2) * s <= x * ulpHalf).
  { unfold ulpHalf.
    assert (E : pow2 (-53) * pow2 52 == 1 # 2) by reflexivity.
    setoid_replace ((1 # 2) * s) with (pow2 (-53) * (pow2 52 * s)) using relation Qeq
      by (rewrite <- E; ring).
    rewrite (Qmult_comm x). apply Qmult_le_l; [apply pow2_pos|exact H1]. }
  split; lra.
Qed.

Lemma round_pos (x : Q) : 0 < x -> round x = roundPos x.
Proof. intros H. unfold round. apply Qgt_alt in H. rewrite H. reflexivity. Qed.

Lemma round_zero (x : Q) : x == 0 -> round x = 0.
Proof. intros H. unfold round. apply Qeq_alt in H. rewrite H. reflexivity. Qed.

Lemma quotient_pos (k t : Z) : (0 < k)%Z -> (0 < t)%Z -> 0 < inject_Z k / inject_Z t.
Proof.
  intros Hk Ht. apply Qlt_shift_div_l.
  - rewrite <- (Zlt_Qlt 0). exact Ht.
  - rewrite Qmult_0_l. rewrite <- (Zlt_Qlt 0). exact Hk.
Qed.

Lemma roundPos_pos (x : Q) : 0 < x -> 0 < roundPos x.
Proof.
  intros Hx. destruct (roundPos_range x Hx) as [L _]. cbv zeta in L.
  eapply Qlt_le_trans; [|exact L].
  apply Qmult_lt_0_compat; apply pow2_pos.
Qed.

Lemma progressValue_eq (k t : Z) : (0 < k)%Z -> (0 < t)%Z ->
  progressValue k t = roundPos (roundPos (inject_Z k / inject_Z t) * 100) /\
  0 < roundPos (inject_Z k / inject_Z t) * 100.
Proof.
  intros Hk Ht. pose proof (quotient_pos k t Hk Ht) as Hq.
  pose proof (roundPos_pos _ Hq) as Hr.
  assert (H100 : 0 < roundPos (inject_Z k / inject_Z t) * 100) by lra.
  unfold progressValue. rewrite (round_pos _ Hq), (round_pos _ H100).
  split; [reflexivity|exact H100].
Qed.

Lemma progressValue_zero (t : Z) : progressValue 0 t = 0.
Proof.
  unfold progressValue. rewrite (round_zero (inject_Z 0 / inject_Z t)).
  - reflexivity.
  - unfold Qdiv. rewrite Qmult_0_l. reflexivity.
Qed.

Lemma progressValue_mono (j k t : Z) :
  (0 < t)%Z -> (0 <= j <= k)%Z -> progressValue j t <= progressValue k t.
Proof.
  intros Ht [Hj Hjk].
  destruct (Z.eq_dec j 0%Z) as [->|Hj0].
  - rewrite progressValue_zero. destruct (Z.eq_dec k 0%Z) as [->|Hk0].
    + rewrite progressValue_zero. apply Qle_refl.
    + destruct (progressValue_eq k t ltac:(lia) Ht) as [-> H]. apply Qlt_le_weak, roundPos_pos, H.
  - destruct (progressValue_eq j t ltac:(lia) Ht) as [-> Hj'].
    destruct (progressValue_eq k t ltac:(lia) Ht) as [-> Hk'].
    apply roundPos_mono; [exact Hj'|].
    apply Qmult_le_compat_r; [|discriminate].
    apply roundPos_mono; [apply quotient_pos; lia|].
    unfold Qdiv. apply Qmult_le_compat_r.
    + rewrite <- Zle_Qle. exact Hjk.
    + apply Qlt_le_weak, Qinv_lt_0_compat. rewrite <- (Zlt_Qlt 0). exact Ht.
Qed.

Lemma progressOf_mono (total j k : Z) :
  (0 < total)%Z -> (0 <= j <= k)%Z -> (progressOf j total <= progressOf k total)%Z.
Proof.
  intros Ht Hjk. unfold progressOf.
  apply Z.min_le_compat_l, Qfloor_resp_le, progressValue_mono; assumption.
Qed.

Lemma progressOf_zero (total : Z) : progressOf 0 total = 0%Z.
Proof. unfold progressOf. rewrite progressValue_zero. reflexivity. Qed.

Lemma progressOf_bounds (total k : Z) :
  (0 < total)%Z -> (0 <= k)%Z -> (0 <= progressOf k total <= 100)%Z.
Proof.
  intros Ht Hk. split.
  - rewrite <- (progressOf_zero total). apply progressOf_mono; lia.
  - unfold progressOf. apply Z.le_min_l.
Qed.

Lemma round_one : 1 <= roundPos 1.
Proof. vm_compute. discriminate. Qed.

Lemma round_hundred : 100 <= roundPos 100.
Proof. vm_compute. discriminate. Qed.

(** From the [total]-th record on the value is 100. *)
Lemma progressOf_full (total k : Z) :
  (0 < total)%Z -> (total <= k)%Z -> progressOf k total = 100%Z.
Proof.
  intros Ht Hk. unfold progressOf.
  destruct (progressValue_eq k total ltac:(lia) Ht) as [-> H].
  apply Z.min_l. change 100%Z with (Qfloor 100). apply Qfloor_resp_le.
  eapply Qle_trans; [exact round_hundred|]. apply roundPos_mono; [reflexivity|].
  apply Qle_trans with (1 * 100); [discriminate|].
  apply Qmult_le_compat_r; [|discriminate].
  eapply Qle_trans; [exact round_one|]. apply roundPos_mono; [reflexivity|].
  apply Qle_shift_div_l.
  - rewrite <- (Zlt_Qlt 0). exact Ht.
  - rewrite Qmult_1_l, <- Zle_Qle. exact Hk.
Qed.

Lemma ulpHalf_value : ulpHalf == 1 # 9007199254740992.
Proof. reflexivity. Qed.

(** Below the total, the value before the floor is within [201 * 2^-53] of
    the exact percentage. *)
Lemma progressValue_near (k t : Z) : (0 < k < t)%Z ->
  let E := 100 * (inject_Z k / inject_Z t) in
  E - 201 * ulpHalf <= progressValue k t /\ progressValue k t <= E + 201 * ulpHalf.
Proof.
  intros [Hk Hkt] E. assert (Ht : (0 < t)%Z) by lia.
  destruct (progressValue_eq k t Hk Ht) as [-> Hy].
  pose proof (quotient_pos k t Hk Ht) as Hx.
  set (x := inject_Z k / inject_Z t) in *.
  assert (Hx1 : x <= 1).
  { subst x. apply Qle_shift_div_r.
    - rewrite <- (Zlt_Qlt 0). exact Ht.
    - rewrite Qmult_1_l, <- Zle_Qle. lia. }
  destruct (roundPos_error x Hx) as [A1 A2].
  set (r1 := roundPos x) in *.
  destruct (roundPos_error (r1 * 100) Hy) as [B1 B2].
  set (z := roundPos (r1 * 100)) in *.
  pose proof ulpHalf_value as Hu. set (u := ulpHalf) in *.
  assert (Hxu : x * u <= 1 * u) by (apply Qmult_le_compat_r; [exact Hx1|lra]).
  assert (Hyu : r1 * 100 * u <= 101 * u) by (apply Qmult_le_compat_r; lra).
  subst E. split; lra.
Qed.

Lemma Qfloor_lt (z : Q) (n : Z) : z < inject_Z n -> (Qfloor z < n)%Z.
Proof.
  intros H. pose proof (Qfloor_le z) as Hl. rewrite Zlt_Qlt.
  eapply Qle_lt_trans; eassumption.
Qed.

Lemma Qfloor_ge (z : Q) (n : Z) : inject_Z n <= z -> (n <= Qfloor z)%Z.
Proof.
  intros H. rewrite <- (Qfloor_Z n). apply Qfloor_resp_le, H.
Qed.

(** The value of the code is the exact percentage, rounded down, or one
    less. *)
Lemma progressOf_near_exact (total k : Z) :
  (0 < total <= 2 ^ 32)%Z -> (0 <= k)%Z ->
  (Z.min 100 (100 * k / total) - 1 <= progressOf k total <= Z.min 100 (100 * k / total))%Z.
Proof.
  intros [Ht Hmax] Hk.
  destruct (Z.eq_dec k 0%Z) as [->|Hk0].
  - rewrite progressOf_zero. change (100 * 0)%Z with 0%Z. rewrite Zdiv_0_l. lia.
  - destruct (Z_lt_le_dec k total) as [Hlt|Hge].
    + set (q := (100 * k / total)%Z).
      assert (Hq1 : (total * q <= 100 * k)%Z) by (apply Z.mul_div_le; lia).
      assert (Hq2 : (100 * k < total * (q + 1))%Z)
        by (pose proof (Z.mul_succ_div_gt (100 * k) total Ht); unfold q; lia).
      assert (Hq99 : (q <= 99)%Z) by (unfold q; apply Z.lt_succ_r, Z.div_lt_upper_bound; lia).
      assert (Hq0 : (0 <= q)%Z) by (unfold q; apply Z.div_pos; lia).
      destruct (progressValue_near k total ltac:(lia)) as [S1 S2]. cbv zeta in S1, S2.
      unfold progressOf.
      set (z := progressValue k total) in *. set (T := inject_Z total) in *.
      assert (HT : 0 < T) by (subst T; rewrite <- (Zlt_Qlt 0); exact Ht).
      set (inv := / T).
      assert (Hinv : 0 < inv) by (apply Qinv_lt_0_compat, HT).
      assert (HTinv : T * inv == 1) by (apply Qmult_inv_r; lra).
      assert (Hx : inject_Z k / T == inject_Z k * inv) by reflexivity.
      (* q <= E *)
      assert (E1 : inject_Z q <= 100 * (inject_Z k * inv)).
      { setoid_replace (inject_Z q) with (inject_Z (total * q) * inv) using relation Qeq
          by (rewrite inject_Z_mult; fold T;
              setoid_replace (T * inject_Z q * inv) with (T * inv * inject_Z q)
                using relation Qeq by ring;
              rewrite HTinv; ring).
        setoid_replace (100 * (inject_Z k * inv)) with (inject_Z (100 * k) * inv) using relation Qeq
          by (rewrite inject_Z_mult; ring).
        apply Qmult_le_compat_r; [|lra]. rewrite <- Zle_Qle. exact Hq1. }
      (* E + 1/t <= q + 1 *)
      assert (E2 : 100 * (inject_Z k * inv) + inv <= inject_Z q + 1).
      { setoid_replace (inject_Z q + 1) with (inject_Z (total * (q + 1)) * inv) using relation Qeq
          by (rewrite inject_Z_mult, inject_Z_plus; fold T; change (inject_Z 1) with 1;
              setoid_replace (T * (inject_Z q + 1) * inv) with (T * inv * (inject_Z q + 1))
                using relation Qeq by ring;
              rewrite HTinv; ring).
        setoid_replace (100 * (inject_Z k * inv) + inv) with (inject_Z (100 * k + 1) * inv)
          using relation Qeq
          by (rewrite inject_Z_plus, inject_Z_mult; change (inject_Z 1) with 1; ring).
        apply Qmult_le_compat_r; [|lra]. rewrite <- Zle_Qle. lia. }
      (* 1/t >= 2^-32 *)
      assert (E3 : 1 <= 4294967296 * inv).
      { rewrite <- HTinv. apply Qmult_le_compat_r; [|lra].
        subst T. change 4294967296 with (inject_Z (2 ^ 32)). rewrite <- Zle_Qle. exact Hmax. }
      rewrite Hx in S1, S2. pose proof ulpHalf_value as Hu.
      assert (F1 : (Qfloor z < q + 1)%Z).
      { apply Qfloor_lt. rewrite inject_Z_plus. change (inject_Z 1) with 1. lra. }
      assert (F2 : (q - 1 <= Qfloor z)%Z).
      { apply Qfloor_ge. unfold Z.sub. rewrite inject_Z_plus, inject_Z_opp.
        change (inject_Z 1) with 1. lra. }
      lia.
    + rewrite (progressOf_full total k Ht Hge).
      assert (100 <= 100 * k / total)%Z by (apply Z.div_le_lower_bound; lia). lia.
Qed.

(** The cap is reached exactly from the [total]-th record on. *)
Lemma progressOf_full_iff (total k : Z) :
  (0 < total <= 2 ^ 32)%Z -> (0 <= k)%Z -> (progressOf k total = 100%Z <-> (total <= k)%Z).
Proof.
  intros Ht Hk. split.
  - intros H. destruct (Z_lt_le_dec k total) as [Hlt|Hge]; [|exact Hge].
    pose proof (progressOf_near_exact total k Ht Hk) as [_ Hu].
    assert (100 * k / total < 100)%Z by (apply Z.div_lt_upper_bound; lia). lia.
  - apply progressOf_full. lia.
Qed.

(** The rounding is that of the machine: line 161 computed with [round]
    and computed on the binary64 numbers of the machine agree for every
    total up to 120 and every counter up to two above the total, and on
    samples with totals up to the longest array. *)
Lemma progressOf_agrees_with_the_machine :
  agreeUpTo 120 = true /\
  forallb (fun p => agreeAt (fst p) (snd p)) largeSamples = true.
Proof. split; vm_compute; reflexivity. Qed.

(** The rounding shows: 29 records of 100 are reported as 28. *)
Lemma progressOf_29_of_100 : progressOf 29 100 = 28%Z /\ (100 * 29 / 100 = 29)%Z.
Proof. split; vm_compute; reflexivity. Qed.

End RoundingFacts.

(** * Properties of the store *)

Section StoreFacts.

Import EditorStore Fixture.

Lemma truthy_Some (sid : string) : sid ≠ EmptyString -> Js.truthy (Some sid) = true.
Proof. destruct sid; [congruence | reflexivity]. Qed.

Lemma truthy_inv (s : option string) :
  Js.truthy s = true -> exists sid, s = Some sid /\ sid ≠ EmptyString.
Proof.
  destruct s as [[|c r]|]; simpl; try discriminate.
  intros _. exists (String c r). split; [reflexivity | discriminate].
Qed.

Lemma endSession_active (st : Store) (sid : string) (deleted : result unit) :
  sessionId st = Some sid -> sid ≠ EmptyString ->
  settle (endSession deleted) st =
    (cleared st,
     DeleteSession sid ::
       match deleted with
       | Ok _ => []
       | Throw _ => [ConsoleError "Failed to end session:"]
       end ++ [SetProgress 0],
     Resolved).
Proof.
  intros Hs Hne.
  unfold settle, endSession, bind, get. rewrite Hs, (truthy_Some _ Hne).
  destruct deleted; reflexivity.
Qed.

Lemma endSession_inactive (st : Store) (deleted : result unit) :
  Js.truthy (sessionId st) = false ->
  settle (endSession deleted) st = (st, [], Resolved).
Proof.
  intros Ht. unfold settle, endSession, bind, get.
  destruct (sessionId st) as [sid|]; [|reflexivity].
  rewrite Ht. reflexivity.
Qed.

Lemma ended_not_truthy (st : Store) (deleted : result unit) :
  Js.truthy (sessionId (finalStore (settle (endSession deleted) st))) = false.
Proof.
  destruct (Js.truthy (sessionId st)) eqn:Ht.
  - destruct (truthy_inv _ Ht) as (sid & Hs & Hne).
    rewrite (endSession_active _ _ _ Hs Hne). reflexivity.
  - rewrite (endSession_inactive _ _ Ht). exact Ht.
Qed.

(** C10. [endSession] never rejects, whether the DELETE request succeeds
    or fails, and it always leaves a store in which no session identifier
    counts as a session. When there was a session it has sent that one
    request, the identifier is null and the editor state is reset (points,
    masks, current frame, video frames, chat messages, processing flag and
    progress, instructions). Calling it again on the store it left sends
    nothing and changes nothing. *)
Theorem endSession_leaves_no_session (st : Store) (deleted : result unit) :
  let r := settle (endSession deleted) st in
  completionOf r = Resolved /\
  Js.truthy (sessionId (finalStore r)) = false /\
  (forall sid : string, sessionId st = Some sid -> sid ≠ EmptyString ->
     requestsOf (effectsOf r) = [DeleteSession sid] /\
     finalStore r = cleared st /\
     hasActiveSession (finalStore r) = false /\
     sessionId (finalStore r) = None /\ currentVideo (finalStore r) = None /\
     points (finalStore r) = ∅ /\ masks (finalStore r) = ∅ /\
     currentFrame (finalStore r) = 0 /\ videoFrames (finalStore r) = [] /\
     chatMessages (finalStore r) = [] /\ isProcessing (finalStore r) = false /\
     processingProgress (finalStore r) = 0 /\ instructions (finalStore r) = None) /\
  forall again : result unit,
    settle (endSession again) (finalStore r) = (finalStore r, [], Resolved).
Proof.
  cbv zeta. split; [|split; [apply ended_not_truthy|split]].
  - destruct (Js.truthy (sessionId st)) eqn:Ht.
    + destruct (truthy_inv _ Ht) as (sid & Hs & Hne).
      rewrite (endSession_active _ _ _ Hs Hne). reflexivity.
    + rewrite (endSession_inactive _ _ Ht). reflexivity.
  - intros sid Hs Hne. rewrite (endSession_active _ _ _ Hs Hne).
    unfold effectsOf, finalStore. cbn [fst snd].
    split; [destruct deleted; reflexivity|]. repeat split.
  - intros again. apply endSession_inactive, ended_not_truthy.
Qed.

Lemma endSession_leaves_no_session_witness :
  finalStore (settle (endSession (Throw HttpError)) activeStore) = cleared activeStore /\
  requestsOf (effectsOf (settle (endSession (Throw HttpError)) activeStore))
    = [DeleteSession "s1"].
Proof.
  destruct (endSession_leaves_no_session activeStore (Throw HttpError))
    as (_ & _ & Hactive & _).
  destruct (Hactive "s1" eq_refl ltac:(discriminate)) as (Hreq & Hc & _).
  split; [exact Hc | exact Hreq].
Defined.

(** C6 (as the code has it). After [endSession], [propagateMasks] returns
    at its guard: it settles without rejection, sends no request, writes no
    progress and leaves the store as it is. *)
Theorem propagate_after_endSession_does_nothing
    (JSON_parse : string -> option FrameMasks)
    (st : Store) (deleted : result unit) (startFrame : Z) (answer : result Reader) :
  let ended := finalStore (settle (endSession deleted) st) in
  settle (propagateMasks JSON_parse startFrame answer) ended = (ended, [], Resolved).
Proof.
  intros ended.
  pose proof (ended_not_truthy st deleted) as Ht. fold ended in Ht.
  unfold settle, propagateMasks, bind, get, nothingToPropagate.
  rewrite Ht. reflexivity.
Qed.

(** C6, the claim refuted: on a store with a session and a point, ending
    the session and then propagating is not rejected with any error. *)
Lemma propagate_after_endSession_not_rejected :
  let ended := finalStore (settle (endSession (Ok tt)) activeStore) in
  let r := settle (propagateMasks parseRecord 0
                     (Ok {| chunks := [recordText 0 +:+ lf]; ending := StreamDone |})) ended in
  completionOf r = Resolved /\ effectsOf r = [] /\
  ~ exists e, completionOf r = Rejected e.
Proof.
  cbv zeta. split; [reflexivity|]. split; [reflexivity|].
  intros [e He]. vm_compute in He. discriminate.
Qed.

(** ** Point additions *)

Lemma framePoints_set_points (st : Store) (f : Z) (l : list CanvasPoint) :
  framePoints (set_points (<[f := l]> (points st)) st) f = l.
Proof. unfold framePoints. simpl. rewrite lookup_insert_eq. reflexivity. Qed.

Lemma framePoints_set_points_ne (st : Store) (f g : Z) (l : list CanvasPoint) :
  f ≠ g -> framePoints (set_points (<[f := l]> (points st)) st) g = framePoints st g.
Proof.
  intros H. unfold framePoints. simpl. rewrite lookup_insert_ne by exact H. reflexivity.
Qed.

Lemma addPoint_send_eq (st : Store) (p : CanvasPoint) :
  addPoint_send p st =
    let f := currentFrame st in
    let pts := framePoints st f ++ [p] in
    let st1 := set_points (<[f := pts]> (points st)) st in
    match sessionId st with
    | Some sid =>
        if Js.truthy (Some sid)
        then (st1, [PostPoints sid f (pointsArray pts) (labelsOf pts)], Ok (Some f))
        else (st1, [], Ok None)
    | None => (st1, [], Ok None)
    end.
Proof.
  unfold addPoint_send, pointsRequest, bind, get, modify, emit, ret.
  cbv zeta. cbn [sessionId set_points].
  rewrite framePoints_set_points.
  destruct (sessionId st) as [[|c s]|]; reflexivity.
Qed.

Lemma addPoint_receive_eq (st : Store) (f : Z) (answer : result AddPointsResult) :
  addPoint_receive f answer st =
    match answer with
    | Ok r => (storeMasks f r st, [], Ok tt)
    | Throw _ => (st, [ConsoleError "Failed to add point:"], Ok tt)
    end.
Proof. destruct answer; reflexivity. Qed.

Import Interleaving.

Lemma run_snoc (st : Store) (evs : list Event) (ev : Event) :
  run st (evs ++ [ev]) = step (run st evs) ev.
Proof. unfold run. rewrite fold_left_app. reflexivity. Qed.

(** What a call does to the run: the point joins its frame, and with a
    session the request for the whole frame is logged and awaited. *)
Lemma step_Click (r : Run) (p : CanvasPoint) :
  let f := currentFrame (store r) in
  let pts := framePoints (store r) f ++ [p] in
  store (step r (Click p)) = set_points (<[f := pts]> (points (store r))) (store r) /\
  (forall sid, sessionId (store r) = Some sid -> sid ≠ EmptyString ->
     log (step r (Click p)) = log r ++ [PostPoints sid f (pointsArray pts) (labelsOf pts)] /\
     issued (step r (Click p)) = issued r ++ [f]).
Proof.
  cbv zeta. unfold step. rewrite addPoint_send_eq. cbv zeta.
  destruct (sessionId (store r)) as [sid|] eqn:Hs.
  - destruct (Js.truthy (Some sid)) eqn:Ht; simpl.
    + split; [reflexivity|]. intros sid' [= <-] _. split; reflexivity.
    + split; [reflexivity|]. intros sid' [= <-] Hne.
      rewrite (truthy_Some _ Hne) in Ht. discriminate.
  - simpl. split; [reflexivity|]. intros sid' [=].
Qed.

(** An answer touches neither the points, nor the session, nor the
    current frame. *)
Lemma step_Answer_frame (r : Run) (i : nat) (answer : result AddPointsResult) :
  points (store (step r (Answer i answer))) = points (store r) /\
  sessionId (store (step r (Answer i answer))) = sessionId (store r) /\
  currentFrame (store (step r (Answer i answer))) = currentFrame (store r).
Proof.
  unfold step. destruct (issued r !! i) as [f|]; [|auto].
  rewrite addPoint_receive_eq. destruct answer; simpl; auto.
Qed.

Lemma step_keeps_session (r : Run) (ev : Event) :
  sessionId (store (step r ev)) = sessionId (store r) /\
  currentFrame (store (step r ev)) = currentFrame (store r).
Proof.
  destruct ev as [p|i answer].
  - destruct (step_Click r p) as [-> _]. split; reflexivity.
  - destruct (step_Answer_frame r i answer) as (_ & ? & ?). auto.
Qed.

Lemma run_keeps_session (st : Store) (evs : list Event) :
  sessionId (store (run st evs)) = sessionId st /\
  currentFrame (store (run st evs)) = currentFrame st.
Proof.
  induction evs as [|ev evs IH] using rev_ind; [split; reflexivity|].
  rewrite run_snoc. destruct (step_keeps_session (run st evs) ev) as [-> ->]. exact IH.
Qed.

Lemma clicksOf_snoc (evs : list Event) (ev : Event) :
  clicksOf (evs ++ [ev]) =
    clicksOf evs ++ match ev with Click p => [p] | Answer _ _ => [] end.
Proof. unfold clicksOf. rewrite flat_map_app. simpl. rewrite app_nil_r. reflexivity. Qed.

(** The points of every frame after a run: those it had, and on the
    current frame the points of the calls, in order. *)
Lemma run_points (st : Store) (evs : list Event) (g : Z) :
  framePoints (store (run st evs)) g =
    if decide (g = currentFrame st) then framePoints st g ++ clicksOf evs
    else framePoints st g.
Proof.
  induction evs as [|ev evs IH] using rev_ind.
  - simpl. case_decide; [rewrite app_nil_r|]; reflexivity.
  - rewrite run_snoc, clicksOf_snoc.
    destruct (run_keeps_session st evs) as [_ Hf].
    destruct ev as [p|i answer].
    + destruct (step_Click (run st evs) p) as [-> _]. rewrite Hf.
      destruct (Z.eq_dec g (currentFrame st)) as [->|Hne].
      * rewrite framePoints_set_points, IH.
        rewrite !decide_True by reflexivity. rewrite app_assoc. reflexivity.
      * rewrite framePoints_set_points_ne by congruence. rewrite IH.
        rewrite !decide_False by exact Hne. reflexivity.
    + unfold framePoints in *.
      destruct (step_Answer_frame (run st evs) i answer) as (-> & _ & _).
      rewrite IH, app_nil_r. reflexivity.
Qed.

(** C4. Whatever calls and answers came before, a call of [addPoint]
    appends its point to the points of the current frame, keeps every
    earlier point of that frame in order, leaves the other frames as they
    were, and with a session posts one request that carries the
    coordinates and the labels of all the points of the frame, the new one
    last. *)
Theorem addPoint_sends_cumulative_points
    (st : Store) (evs : list Event) (p : CanvasPoint) :
  let f := currentFrame st in
  let before := run st evs in
  let after := step before (Click p) in
  let all := framePoints st f ++ clicksOf evs ++ [p] in
  framePoints (store before) f = framePoints st f ++ clicksOf evs /\
  framePoints (store after) f = all /\
  (forall g, g ≠ f -> framePoints (store after) g = framePoints st g) /\
  (forall sid, sessionId st = Some sid -> sid ≠ EmptyString ->
     log after =
       log before ++
       [PostPoints sid f (map (fun q => (x q, y q)) all) (map label all)]).
Proof.
  cbv zeta.
  pose proof (run_points st (evs ++ [Click p])) as Hafter.
  rewrite run_snoc, clicksOf_snoc in Hafter.
  pose proof (run_points st evs (currentFrame st)) as Hbefore.
  rewrite decide_True in Hbefore by reflexivity.
  split; [exact Hbefore|]. split.
  - rewrite Hafter, decide_True by reflexivity. reflexivity.
  - split.
    + intros g Hg. rewrite Hafter, decide_False by exact Hg. reflexivity.
    + intros sid Hs Hne.
      destruct (run_keeps_session st evs) as [Hsid Hf].
      destruct (step_Click (run st evs) p) as [_ Hlog].
      rewrite <- Hsid in Hs. destruct (Hlog sid Hs Hne) as [-> _].
      rewrite Hf, Hbefore, <- app_assoc. reflexivity.
Qed.

Lemma addPoint_sends_cumulative_points_witness :
  let evs := [Click (click 10 10); Answer 0 (Throw HttpError); Click (click 20 20)] in
  let all := [click 50 50; click 10 10; click 20 20; click 30 30] in
  framePoints (store (step (run activeStore evs) (Click (click 30 30)))) 0 = all /\
  log (step (run activeStore evs) (Click (click 30 30))) =
    log (run activeStore evs) ++
    [PostPoints "s1" 0
       [(50 # 1, 50 # 1); (10 # 1, 10 # 1); (20 # 1, 20 # 1); (30 # 1, 30 # 1)]%Q
       [1; 1; 1; 1]].
Proof.
  cbv zeta.
  destruct (addPoint_sends_cumulative_points activeStore
              [Click (click 10 10); Answer 0 (Throw HttpError); Click (click 20 20)]
              (click 30 30)) as (_ & Hpts & _ & Hlog).
  split; [exact Hpts|].
  exact (Hlog "s1" eq_refl ltac:(discriminate)).
Defined.
Lemma addPoint_eq (st : Store) (p : CanvasPoint) (answer : result AddPointsResult) :
  addPoint p answer st =
    match addPoint_send p st with
    | (st1, l1, Ok (Some f)) =>
        match addPoint_receive f answer st1 with
        | (st2, l2, r) => (st2, l1 ++ l2, r)
        end
    | (st1, l1, Ok None) => (st1, l1 ++ [], Ok tt)
    | (st1, l1, Throw e) => (st1, l1, Throw e)
    end.
Proof.
  unfold addPoint, bind. destruct (addPoint_send p st) as [[st1 l1] [[f|]|e]]; reflexivity.
Qed.

Lemma storeMasks_lookup (st : Store) (f : Z) (res : AddPointsResult) :
  fm_masks <$> masks (storeMasks f res st) !! f = Some (result_masks res) /\
  forall g, g ≠ f -> masks (storeMasks f res st) !! g = masks st !! g.
Proof.
  unfold storeMasks. cbn [masks set_masks]. split.
  - rewrite lookup_insert_eq. destruct (masks st !! f); reflexivity.
  - intros g Hg. rewrite lookup_insert_ne by congruence. reflexivity.
Qed.



(** ** Answers that arrive out of order *)

(** C3 (as the code has it). The masks stored for a frame are those of the
    answer that arrived last for it, whatever the order in which the
    requests were made: when the answer of any request made for frame [f]
    arrives, its masks replace the masks of [f] and the other frames are
    untouched; an answer that is a failure changes no masks. *)
Theorem last_answer_wins
    (st : Store) (evs : list Event) (i : nat) (f : Z) (res : AddPointsResult) :
  issued (run st evs) !! i = Some f ->
  let before := run st evs in
  let after := step before (Answer i (Ok res)) in
  fm_masks <$> masks (store after) !! f = Some (result_masks res) /\
  (forall g, g ≠ f -> masks (store after) !! g = masks (store before) !! g) /\
  forall e, masks (store (step before (Answer i (Throw e)))) = masks (store before).
Proof.
  intros Hi. cbv zeta. unfold step. rewrite Hi, !addPoint_receive_eq. cbn [store].
  destruct (storeMasks_lookup (store (run st evs)) f res) as [H1 H2].
  split; [exact H1|]. split; [exact H2|]. reflexivity.
Qed.

Lemma last_answer_wins_witness :
  let r1 := {| result_masks := [maskOf 1 "first"]; result_frame_idx := 0 |} in
  let evs := [Click (click 10 10); Click (click 20 20)] in
  fm_masks <$> masks (store (step (run activeStore evs) (Answer 0 (Ok r1)))) !! 0
    = Some [maskOf 1 "first"].
Proof.
  cbv zeta.
  exact (proj1 (last_answer_wins activeStore [Click (click 10 10); Click (click 20 20)]
                  0%nat 0 {| result_masks := [maskOf 1 "first"]; result_frame_idx := 0 |}
                  eq_refl)).
Defined.

(** C3, the claim refuted: two requests for frame 0, the second answered
    first; once the answer of the first request arrives the store holds
    the masks of the first request, not those of the second. *)
Lemma stale_answer_overwrites :
  let r1 := {| result_masks := [maskOf 1 "first"]; result_frame_idx := 0 |} in
  let r2 := {| result_masks := [maskOf 1 "second"]; result_frame_idx := 0 |} in
  let final := run activeStore
                 [Click (click 10 10); Click (click 20 20);
                  Answer 1 (Ok r2); Answer 0 (Ok r1)] in
  issued final = [0; 0] /\
  fm_masks <$> masks (store final) !! 0 = Some (result_masks r1) /\
  fm_masks <$> masks (store final) !! 0 ≠ Some (result_masks r2).
Proof.
  cbv zeta. split; [reflexivity|]. split; [reflexivity|].
  vm_compute. discriminate.
Qed.

(** ** Propagation *)

Section PropagateFacts.

Variable JSON_parse : string -> option FrameMasks.

Lemma applyLine_midRun (total received : Z) (line : string)
    (m : gmap Z FrameMasks) (pr : Z) (st : Store) :
  applyLine JSON_parse total received line (midRun m pr st) =
    match JSON_parse line with
    | Some data =>
        (midRun (<[frame_idx data := data]> m) (progressOf (received + 1) total) st,
         [SetProgress (progressOf (received + 1) total)], Ok (received + 1))
    | None =>
        (midRun m pr st, [ConsoleError "Error parsing propagation result:"], Ok received)
    end.
Proof. unfold applyLine. destruct (JSON_parse line); reflexivity. Qed.

Lemma reported_S (total received : Z) (n : nat) :
  reported total received (S n) =
    progressOf (received + 1) total :: reported total (received + 1) n.
Proof.
  unfold reported. simpl. f_equal. rewrite <- seq_shift, map_map.
  apply map_ext. intros k. f_equal. lia.
Qed.

Lemma omap_cons_parse (line : string) (rest : list string) :
  omap JSON_parse (line :: rest) =
    match JSON_parse line with
    | Some d => d :: omap JSON_parse rest
    | None => omap JSON_parse rest
    end.
Proof. reflexivity. Qed.

Lemma applyLines_midRun (total : Z) (lines : list string) :
  forall (received : Z) (m : gmap Z FrameMasks) (pr : Z) (st : Store),
  exists (pr' : Z) (l : list Effect),
    let ds := omap JSON_parse lines in
    applyLines JSON_parse total received lines (midRun m pr st) =
      (midRun (applyRecords ds m) pr' st, l, Ok (received + Z.of_nat (length ds))) /\
    progressWrites l = reported total received (length ds) /\
    requestsOf l = [] /\
    (ds = [] -> pr' = pr) /\
    (ds ≠ [] -> pr' = progressOf (received + Z.of_nat (length ds)) total).
Proof.
  induction lines as [|line rest IH]; intros received m pr st.
  - exists pr, []. cbn. rewrite Z.add_0_r. repeat split; congruence.
  - cbn [applyLines]. unfold bind. rewrite applyLine_midRun, omap_cons_parse.
    destruct (JSON_parse line) as [data|].
    + destruct (IH (received + 1) (<[frame_idx data := data]> m)
                  (progressOf (received + 1) total) st) as (pr' & l & Hrun & Hw & Hq & He & Hn).
      cbv zeta in Hrun. rewrite Hrun.
      exists pr', (SetProgress (progressOf (received + 1) total) :: l). cbv zeta.
      cbn [length applyRecords fold_left]. split; [|split; [|split; [|split]]].
      * rewrite Nat2Z.inj_succ, <- Z.add_1_l, Z.add_assoc. reflexivity.
      * rewrite reported_S, <- Hw. reflexivity.
      * exact Hq.
      * discriminate.
      * intros _. destruct (omap JSON_parse rest) as [|d ds] eqn:Hds.
        -- rewrite (He eq_refl). reflexivity.
        -- rewrite Hn by discriminate. f_equal. cbn [length]. lia.
    + destruct (IH received m pr st) as (pr' & l & Hrun & Hw & Hq & He & Hn).
      cbv zeta in Hrun. rewrite Hrun.
      exists pr', (ConsoleError "Error parsing propagation result:" :: l). cbv zeta.
      repeat split; assumption.
Qed.

Lemma applyRecords_app (ds1 ds2 : list FrameMasks) (m : gmap Z FrameMasks) :
  applyRecords (ds1 ++ ds2) m = applyRecords ds2 (applyRecords ds1 m).
Proof. unfold applyRecords. apply fold_left_app. Qed.

Lemma reported_app (total received : Z) (n1 n2 : nat) :
  reported total received (n1 + n2) =
    reported total received n1 ++ reported total (received + Z.of_nat n1) n2.
Proof.
  revert received. induction n1 as [|n1 IH]; intros received.
  - simpl. rewrite Z.add_0_r. reflexivity.
  - change (S n1 + n2)%nat with (S (n1 + n2)). rewrite !reported_S, IH.
    rewrite Nat2Z.inj_succ, <- Z.add_1_l, Z.add_assoc. reflexivity.
Qed.

Lemma recordsOf_cons (chunk : string) (cs : list string) :
  recordsOf JSON_parse (chunk :: cs) =
    omap JSON_parse (Js.split_nl (Js.trim chunk)) ++ recordsOf JSON_parse cs.
Proof. unfold recordsOf, linesOf. cbn [flat_map]. apply omap_app. Qed.

(** The loop over the reads: every record of every chunk is stored, one
    progress value is reported per record, and the loop ends by returning
    or by the error of the broken stream. *)
Lemma readLoop_midRun (total : Z) (e : Ending) (cs : list string) :
  forall (received : Z) (m : gmap Z FrameMasks) (pr : Z) (st : Store),
  exists (pr' : Z) (l : list Effect),
    let ds := recordsOf JSON_parse cs in
    readLoop JSON_parse total received cs e (midRun m pr st) =
      (midRun (applyRecords ds m) pr' st, l,
       match e with StreamDone => Ok tt | StreamBroken => Throw ReadFailed end) /\
    progressWrites l = reported total received (length ds) /\
    requestsOf l = [].
Proof.
  induction cs as [|chunk rest IH]; intros received m pr st.
  - exists pr, []. cbn. destruct e; repeat split.
  - cbn [readLoop]. unfold bind, applyChunk.
    destruct (applyLines_midRun total (Js.split_nl (Js.trim chunk)) received m pr st)
      as (pr1 & l1 & Hrun1 & Hw1 & Hq1 & _ & _).
    cbv zeta in Hrun1. rewrite Hrun1.
    destruct (IH (received + Z.of_nat (length (omap JSON_parse (Js.split_nl (Js.trim chunk)))))
                (applyRecords (omap JSON_parse (Js.split_nl (Js.trim chunk))) m) pr1 st)
      as (pr2 & l2 & Hrun2 & Hw2 & Hq2).
    cbv zeta in Hrun2. rewrite Hrun2.
    exists pr2, (l1 ++ l2). cbv zeta.
    rewrite recordsOf_cons, applyRecords_app, length_app, reported_app.
    split; [reflexivity|]. split.
    + unfold progressWrites in *. rewrite flat_map_app, Hw1, Hw2. reflexivity.
    + unfold requestsOf in *. rewrite List.filter_app, Hq1, Hq2. reflexivity.
Qed.

Lemma guard_gives_session (st : Store) (startFrame : Z) :
  nothingToPropagate st startFrame = false ->
  exists sid, sessionId st = Some sid /\ sid ≠ EmptyString.
Proof.
  unfold nothingToPropagate. intros H.
  apply orb_false_iff in H as [H _]. apply negb_false_iff in H.
  exact (truthy_inv _ H).
Qed.

Lemma midRun_start (st : Store) :
  set_processingProgress 0 (set_isProcessing true st) = midRun (masks st) 0 st.
Proof. destruct st; reflexivity. Qed.

(** A run of [propagateMasks] past its guard, whatever the backend gives:
    it never rejects; it sends the one request; the masks are the records
    applied before the end, laid over the masks of before; the progress
    values are 0, one value per applied record, and 100. *)
Lemma propagateMasks_run (st : Store) (startFrame : Z) (answer : result Reader) :
  nothingToPropagate st startFrame = false ->
  exists (sid : string) (l : list Effect),
    let ds := appliedBy JSON_parse answer in
    sessionId st = Some sid /\
    settle (propagateMasks JSON_parse startFrame answer) st =
      (afterRun (applyRecords ds (masks st)) st, l, Resolved) /\
    progressWrites l = 0 :: reported (totalFramesOf st) 0 (length ds) ++ [100] /\
    requestsOf l = [PostPropagate sid startFrame] /\
    (interrupted answer = true -> last l <> None /\
       In (ConsoleError "Error propagating masks:") l).
Proof.
  intros Hguard. destruct (guard_gives_session _ _ Hguard) as (sid & Hs & Hne).
  exists sid.
  unfold settle, propagateMasks, bind at 1, get. rewrite Hguard, Hs.
  unfold writeProgress, try_finally, try_catch, bind, modify, emit, await.
  cbn [fst snd]. rewrite midRun_start.
  destruct answer as [reader|err].
  - destruct (readLoop_midRun (totalFramesOf st) (ending reader) (chunks reader)
                0 (masks st) 0 st) as (pr' & l & Hrun & Hw & Hq).
    cbv zeta in Hrun.
    change (totalFramesOf (midRun (masks st) 0 st)) with (totalFramesOf st).
    rewrite Hrun. cbn [appliedBy interrupted].
    destruct (ending reader).
    + eexists. cbv zeta. split; [reflexivity|]. split; [reflexivity|].
      split; [|split].
      * unfold progressWrites in *. cbn [app flat_map]. rewrite !flat_map_app, Hw.
        reflexivity.
      * unfold requestsOf in *. cbn [app List.filter isRequest].
        rewrite !List.filter_app, Hq. reflexivity.
      * discriminate.
    + eexists. cbv zeta. split; [reflexivity|]. split; [reflexivity|].
      split; [|split].
      * unfold progressWrites in *. cbn [app flat_map]. rewrite !flat_map_app, Hw.
        cbn [flat_map app]. rewrite app_nil_r. reflexivity.
      * unfold requestsOf in *. cbn [app List.filter isRequest].
        rewrite !List.filter_app, Hq. reflexivity.
      * intros _. split.
        -- rewrite !app_assoc, last_snoc. discriminate.
        -- rewrite !in_app_iff. cbn. tauto.
  - eexists. cbv zeta. cbn [appliedBy interrupted length]. split; [reflexivity|].
    split; [reflexivity|]. split; [reflexivity|]. split; [reflexivity|].
    intros _. split; [discriminate|]. cbn. tauto.
Qed.

(** The same run when every line of the stream holds a record: the
    whole trace. *)
Lemma applyLines_records (total : Z) (lines : list string) (ds : list FrameMasks) :
  Forall2 (fun l d => JSON_parse l = Some d) lines ds ->
  forall (received : Z) (m : gmap Z FrameMasks) (pr : Z) (st : Store),
  exists pr' : Z,
    applyLines JSON_parse total received lines (midRun m pr st) =
      (midRun (applyRecords ds m) pr' st,
       map SetProgress (reported total received (length ds)),
       Ok (received + Z.of_nat (length ds))).
Proof.
  induction 1 as [|line d lines ds Hd _ IH]; intros received m pr st.
  - exists pr. cbn. rewrite Z.add_0_r. reflexivity.
  - cbn [applyLines]. unfold bind. rewrite applyLine_midRun, Hd.
    destruct (IH (received + 1) (<[frame_idx d := d]> m)
                (progressOf (received + 1) total) st) as [pr' Hrun].
    rewrite Hrun. exists pr'. cbn [length]. rewrite reported_S.
    cbn [map app applyRecords fold_left].
    rewrite Nat2Z.inj_succ, <- Z.add_1_l, Z.add_assoc. reflexivity.
Qed.

Lemma readLoop_records (total : Z) (e : Ending) (cs : list string) :
  forall (ds : list FrameMasks),
  Forall2 (fun l d => JSON_parse l = Some d) (linesOf cs) ds ->
  forall (received : Z) (m : gmap Z FrameMasks) (pr : Z) (st : Store),
  exists pr' : Z,
    readLoop JSON_parse total received cs e (midRun m pr st) =
      (midRun (applyRecords ds m) pr' st,
       map SetProgress (reported total received (length ds)),
       match e with StreamDone => Ok tt | StreamBroken => Throw ReadFailed end).
Proof.
  induction cs as [|chunk rest IH]; intros ds Hds received m pr st.
  - inversion Hds; subst. exists pr. cbn. destruct e; reflexivity.
  - unfold linesOf in Hds. cbn [flat_map] in Hds.
    apply Forall2_app_inv_l in Hds as (ds1 & ds2 & H1 & H2 & ->).
    cbn [readLoop]. unfold bind, applyChunk.
    destruct (applyLines_records total _ _ H1 received m pr st) as [pr1 Hrun1].
    rewrite Hrun1.
    destruct (IH ds2 H2 (received + Z.of_nat (length ds1)) (applyRecords ds1 m) pr1 st)
      as [pr2 Hrun2].
    rewrite Hrun2. exists pr2.
    rewrite applyRecords_app, length_app, reported_app, map_app. reflexivity.
Qed.

Lemma propagateMasks_records (st : Store) (startFrame : Z) (sid : string)
    (cs : list string) (e : Ending) (ds : list FrameMasks) :
  nothingToPropagate st startFrame = false ->
  sessionId st = Some sid ->
  Forall2 (fun l d => JSON_parse l = Some d) (linesOf cs) ds ->
  settle (propagateMasks JSON_parse startFrame (Ok {| chunks := cs; ending := e |})) st =
    (afterRun (applyRecords ds (masks st)) st,
     [SetProgress 0; PostPropagate sid startFrame]
       ++ map SetProgress (reported (totalFramesOf st) 0 (length ds))
       ++ match e with
          | StreamDone => []
          | StreamBroken => [ConsoleError "Error propagating masks:"]
          end
       ++ [SetProgress 100],
     Resolved).
Proof.
  intros Hguard Hs Hds.
  unfold settle, propagateMasks, bind at 1, get. rewrite Hguard, Hs.
  unfold writeProgress, try_finally, try_catch, bind, modify, emit, await.
  cbn [fst snd chunks ending]. rewrite midRun_start.
  destruct (readLoop_records (totalFramesOf st) e cs ds Hds 0 (masks st) 0 st) as [pr' Hrun].
  change (totalFramesOf (midRun (masks st) 0 st)) with (totalFramesOf st).
  rewrite Hrun. destruct e; cbn [app]; rewrite <- ?app_assoc, ?app_nil_r; reflexivity.
Qed.

Lemma lastFor_snoc (g : Z) (ds : list FrameMasks) (d : FrameMasks) :
  lastFor g (ds ++ [d]) = if frame_idx d =? g then Some d else lastFor g ds.
Proof.
  unfold lastFor. rewrite List.filter_app. cbn [List.filter].
  destruct (frame_idx d =? g).
  - apply last_snoc.
  - rewrite app_nil_r. reflexivity.
Qed.

(** The masks after the records [ds] are applied: for each frame the last
    record for it, and the entry of before when there is none. *)
Lemma applyRecords_lookup (ds : list FrameMasks) (m : gmap Z FrameMasks) (g : Z) :
  applyRecords ds m !! g =
    match lastFor g ds with
    | Some d => Some d
    | None => m !! g
    end.
Proof.
  induction ds as [|d ds IH] using rev_ind; [reflexivity|].
  rewrite applyRecords_app, lastFor_snoc. cbn [applyRecords fold_left].
  destruct (Z.eqb_spec (frame_idx d) g) as [->|Hne].
  - apply lookup_insert_eq.
  - rewrite lookup_insert_ne by exact Hne. exact IH.
Qed.

(** C2 (as the code has it). When the request is refused or the stream
    breaks after some records were applied, [propagateMasks] does not fail:
    the error is caught and logged and the action settles without
    rejection. Nothing is rolled back: each frame for which a record was
    applied holds the last record applied for it, every other frame holds
    what it held before the run, and the run is marked over with the
    progress at 100. *)
Theorem interrupted_propagation_keeps_applied
    (st : Store) (startFrame : Z) (answer : result Reader) :
  nothingToPropagate st startFrame = false ->
  interrupted answer = true ->
  let r := settle (propagateMasks JSON_parse startFrame answer) st in
  let ds := appliedBy JSON_parse answer in
  completionOf r = Resolved /\
  In (ConsoleError "Error propagating masks:") (effectsOf r) /\
  masks (finalStore r) = applyRecords ds (masks st) /\
  (forall g : Z,
     masks (finalStore r) !! g =
       match lastFor g ds with
       | Some d => Some d
       | None => masks st !! g
       end) /\
  isProcessing (finalStore r) = false /\
  processingProgress (finalStore r) = 100.
Proof.
  intros Hguard Hint. cbv zeta.
  destruct (propagateMasks_run st startFrame answer Hguard)
    as (sid & l & _ & Hrun & _ & _ & Hlog).
  rewrite Hrun. unfold completionOf, effectsOf, finalStore. cbn [fst snd].
  split; [reflexivity|]. split; [exact (proj2 (Hlog Hint))|].
  split; [reflexivity|]. split; [|split; reflexivity].
  intros g. apply applyRecords_lookup.
Qed.

Lemma totalFramesOf_pos (st : Store) : 0 < totalFramesOf st.
Proof.
  unfold totalFramesOf. destruct (Z.eqb_spec (Z.of_nat (length (videoFrames st))) 0); lia.
Qed.

Lemma totalFramesOf_eq (st : Store) :
  totalFramesOf st =
    match videoFrames st with
    | [] => 100
    | _ :: _ => Z.of_nat (length (videoFrames st))
    end.
Proof. unfold totalFramesOf. destruct (videoFrames st); reflexivity. Qed.

Lemma reported_sorted (total received : Z) (n : nat) :
  0 < total -> 0 <= received ->
  StronglySorted Z.le (reported total received n ++ [100]).
Proof.
  intros Ht. revert received. induction n as [|n IH]; intros received Hr.
  - cbn. repeat constructor.
  - rewrite reported_S. cbn [app]. constructor; [apply IH; lia|].
    apply Forall_app. split.
    + unfold reported. apply Forall_map, Forall_forall. intros k _. cbn beta.
      apply progressOf_mono; lia.
    + repeat constructor. apply progressOf_bounds; lia.
Qed.

(** C8 (as the code has it). In a run of [propagateMasks] the progress
    values are 0, then one value per applied record, then 100 when the run
    is over, by completion or by failure; they never decrease. The value
    for the k-th applied record is the floor of [(k / total) * 100] as
    binary64 computes it, capped at 100, where [total] is the number of
    loaded video frames, or 100 when none is loaded: it is the exact
    percentage rounded down, or one less. It is 100 exactly when k is at
    least [total], so 100 is reported before the end when the stream holds
    that many records. An array holds fewer than 2^32 video frames. *)
Theorem progress_never_decreases
    (st : Store) (startFrame : Z) (answer : result Reader) :
  nothingToPropagate st startFrame = false ->
  Z.of_nat (length (videoFrames st)) < 2 ^ 32 ->
  let r := settle (propagateMasks JSON_parse startFrame answer) st in
  let total :=
    match videoFrames st with
    | [] => 100
    | _ :: _ => Z.of_nat (length (videoFrames st))
    end in
  let n := length (appliedBy JSON_parse answer) in
  let value := fun k : nat =>
    Z.min 100
      (Qfloor (Binary64.round
                 (Binary64.round (inject_Z (Z.of_nat k) / inject_Z total) * 100)%Q)) in
  progressWrites (effectsOf r) = 0 :: map value (seq 1 n) ++ [100] /\
  StronglySorted Z.le (progressWrites (effectsOf r)) /\
  processingProgress (finalStore r) = 100 /\
  (forall k : nat,
     Z.min 100 (100 * Z.of_nat k / total) - 1 <= value k
       <= Z.min 100 (100 * Z.of_nat k / total)) /\
  forall k : nat,
    map value (seq 1 n) !! k = Some 100 <-> (k < n)%nat /\ total <= Z.of_nat (S k).
Proof.
  intros Hguard Hlen. cbv zeta.
  destruct (propagateMasks_run st startFrame answer Hguard)
    as (sid & l & _ & Hrun & Hw & _ & _).
  rewrite Hrun. unfold effectsOf, finalStore. cbn [fst snd]. rewrite Hw.
  pose proof (totalFramesOf_pos st) as Ht.
  assert (Hmax : totalFramesOf st <= 2 ^ 32)
    by (unfold totalFramesOf; destruct (Z.of_nat (length (videoFrames st)) =? 0); lia).
  rewrite <- (totalFramesOf_eq st).
  assert (Hrep : forall n, reported (totalFramesOf st) 0 n =
            map (fun k : nat => progressOf (Z.of_nat k) (totalFramesOf st)) (seq 1 n))
    by (intros n; unfold reported; apply map_ext; intros k; rewrite Z.add_0_l; reflexivity).
  change (fun k : nat =>
            Z.min 100
              (Qfloor (Binary64.round
                 (Binary64.round (inject_Z (Z.of_nat k) / inject_Z (totalFramesOf st)) * 100)%Q)))
    with (fun k : nat => progressOf (Z.of_nat k) (totalFramesOf st)).
  rewrite <- Hrep.
  split; [reflexivity|]. split; [|split; [reflexivity|split]].
  - constructor; [apply reported_sorted; lia|].
    apply Forall_app. split.
    + unfold reported. apply Forall_map, Forall_forall. intros k _. cbn beta.
      apply progressOf_bounds; lia.
    + repeat constructor. lia.
  - intros k. apply progressOf_near_exact; lia.
  - intros k. unfold reported. rewrite list_lookup_fmap.
    destruct (decide (k < length (appliedBy JSON_parse answer))%nat) as [Hk|Hk].
    + rewrite lookup_seq_lt by exact Hk. cbn [fmap option_fmap option_map].
      rewrite Z.add_0_l. split.
      * intros [= H]. apply progressOf_full_iff in H; [|lia|lia]. split; [exact Hk|exact H].
      * intros [_ H]. f_equal. apply progressOf_full_iff; [lia|lia|exact H].
    + rewrite lookup_seq_ge by lia. cbn. split; [discriminate|]. intros [H _]. lia.
Qed.
End PropagateFacts.

Lemma interrupted_propagation_keeps_applied_witness :
  let answer := Ok {| chunks := [recordText 0 +:+ lf; recordText 1 +:+ lf];
                      ending := StreamBroken |} in
  let r := settle (propagateMasks parseRecord 0 answer) activeStore in
  completionOf r = Resolved /\
  masks (finalStore r) = applyRecords (appliedBy parseRecord answer) (masks activeStore).
Proof.
  cbv zeta.
  destruct (interrupted_propagation_keeps_applied parseRecord activeStore 0
              (Ok {| chunks := [recordText 0 +:+ lf; recordText 1 +:+ lf];
                     ending := StreamBroken |}) eq_refl eq_refl)
    as (Hc & _ & Hm & _).
  split; [exact Hc | exact Hm].
Defined.

(** C2, the claim refuted: the stream breaks after the records of frames 0
    and 1 were applied, and the action is not rejected with any error. *)
Lemma interrupted_propagation_not_rejected :
  let answer := Ok {| chunks := [recordText 0 +:+ lf; recordText 1 +:+ lf];
                      ending := StreamBroken |} in
  let r := settle (propagateMasks parseRecord 0 answer) activeStore in
  interrupted answer = true /\
  map frame_idx (appliedBy parseRecord answer) = [0; 1] /\
  completionOf r = Resolved /\
  ~ exists e, completionOf r = Rejected e.
Proof.
  cbv zeta. split; [reflexivity|]. split; [reflexivity|]. split; [reflexivity|].
  intros [e He]. vm_compute in He. discriminate.
Qed.

Lemma progress_never_decreases_witness :
  let answer := Ok {| chunks := framesUpTo 29; ending := StreamDone |} in
  let writes :=
    progressWrites (effectsOf (settle (propagateMasks parseRecord 0 answer) activeStore)) in
  take 4 writes = [0; 1; 2; 3] /\
  writes !! 28%nat = Some 28 /\ writes !! 29%nat = Some 28 /\ writes !! 30%nat = Some 100.
Proof.
  cbv zeta.
  destruct (progress_never_decreases parseRecord activeStore 0
              (Ok {| chunks := framesUpTo 29; ending := StreamDone |}) eq_refl eq_refl)
    as (Hw & _).
  rewrite Hw. repeat split; vm_compute; reflexivity.
Defined.

(** C8, the claim refuted: no video frame is loaded, so the total is 100,
    and the stream holds the records of frames 0 to 100. Once the first 100
    chunks are read the progress is 100 while the run is still going and
    frame 100 has no mask yet; the last chunk is applied after that. *)
Lemma progress_full_before_the_end :
  let st0 := midRun (masks activeStore) 0 activeStore in
  let after100 := finalStore (readLoop parseRecord (totalFramesOf activeStore) 0
                                (framesUpTo 100) StreamDone st0) in
  let r := settle (propagateMasks parseRecord 0
                     (Ok {| chunks := framesUpTo 101; ending := StreamDone |})) activeStore in
  framesUpTo 101 = framesUpTo 100 ++ [recordText 100 +:+ lf] /\
  processingProgress after100 = 100 /\
  isProcessing after100 = true /\
  masks after100 !! 100 = None /\
  masks (finalStore r) !! 100 = Some {| frame_idx := 100; fm_masks := [] |} /\
  progressWrites (effectsOf r) !! 100%nat = Some 100 /\
  length (progressWrites (effectsOf r)) = 103%nat.
Proof.
  cbv zeta. repeat split; vm_compute; reflexivity.
Qed.

(** C1. One stream, two ways of cutting it into chunks. With the two
    records in one chunk both are stored. With the second record cut
    between two chunks, each piece fails to parse and is logged, and the
    mask of frame 1 is never stored: nothing is kept from one read to the
    next. *)
Theorem split_record_is_dropped :
  let whole := settle (propagateMasks parseRecord 0
                         (Ok {| chunks := wholeChunks; ending := StreamDone |})) activeStore in
  let cut := settle (propagateMasks parseRecord 0
                       (Ok {| chunks := cutChunks; ending := StreamDone |})) activeStore in
  String.concat "" cutChunks = String.concat "" wholeChunks /\
  masks (finalStore whole) !! 0 = Some {| frame_idx := 0; fm_masks := [] |} /\
  masks (finalStore whole) !! 1 = Some {| frame_idx := 1; fm_masks := [] |} /\
  masks (finalStore cut) !! 0 = Some {| frame_idx := 0; fm_masks := [] |} /\
  masks (finalStore cut) !! 1 = None /\
  effectsOf cut =
    [SetProgress 0; PostPropagate "s1" 0; SetProgress 1;
     ConsoleError "Error parsing propagation result:";
     ConsoleError "Error parsing propagation result:";
     SetProgress 100].
Proof.
  cbv zeta. repeat split; vm_compute; reflexivity.
Qed.

End StoreFacts.

(** * Properties of the replace effect *)

Section EffectFacts.

Import ReplaceGLEffect Fixture.

Variable Base : Type.
Variable gl_present program_present canvas_present : Base -> bool.
Variable variant : Base -> nat.
Variable super_setupUniforms super_cleanup : Base -> GL -> Base * GL.
Variable hasUniform : string -> bool.
Variable decode : RLE -> option (list Z).
Variable normalizeBounds : Q * Q -> Q * Q -> nat -> nat -> list Q.

#[local] Set Default Proof Using "Type".

Local Abbreviation setup := (setupUniforms Base super_setupUniforms hasUniform).
Local Abbreviation render :=
  (apply Base gl_present program_present canvas_present variant hasUniform
     decode normalizeBounds).
Local Abbreviation teardown := (cleanup Base gl_present super_cleanup).

Lemma callAll_callAll (cs1 cs2 : list GLCall) (g : GL) :
  callAll cs2 (callAll cs1 g) = callAll (cs1 ++ cs2) g.
Proof. unfold callAll. cbn. rewrite app_assoc. reflexivity. Qed.

(** The slots are fresh, consecutive handles, and they are allocated. *)
Lemma preAllocateTextures_spec (n : nat) :
  forall g : GL,
    fst (preAllocateTextures g n) = seq (nextTexture g) n /\
    liveTextures (snd (preAllocateTextures g n)) =
      list_to_set (seq (nextTexture g) n) ∪ liveTextures g /\
    nextTexture (snd (preAllocateTextures g n)) = (nextTexture g + n)%nat.
Proof.
  clear gl_present program_present canvas_present variant super_setupUniforms super_cleanup hasUniform decode normalizeBounds.
  induction n as [|n IH]; intros g.
  - cbn. split; [reflexivity|]. split; [set_solver | lia].
  - cbn [preAllocateTextures]. unfold createTexture.
    set (g1 := {| liveTextures := _; nextTexture := S (nextTexture g); calls := _ |}).
    destruct (IH g1) as (Hts & Hlive & Hnext).
    destruct (preAllocateTextures g1 n) as [ts g2]. cbn [fst snd] in *.
    subst ts. cbn [seq list_to_set]. rewrite Hlive, Hnext. cbn.
    split; [reflexivity|]. split; [set_solver | lia].
Qed.

(** What [setupUniforms] acquires: the extra texture is the first fresh
    handle after the base class's own set-up, the three slots are the next
    three, and all four are allocated. *)
Lemma setupUniforms_acquires icons (b b1 : Base) (e e1 : Fields) (g g1 : GL) o :
  setup icons b e g = (b1, e1, g1, o) ->
  let t := nextTexture (snd (super_setupUniforms b g)) in
  _extraTexture e1 = Some t /\
  _maskTextures e1 = [S t; S (S t); S (S (S t))] /\
  liveTextures g1 =
    {[t; S t; S (S t); S (S (S t))]} ∪ liveTextures (snd (super_setupUniforms b g)).
Proof.
  clear gl_present program_present canvas_present variant super_cleanup decode normalizeBounds.
  unfold setupUniforms. destruct (super_setupUniforms b g) as [b0 g0]. cbn [snd].
  unfold createTexture.
  set (g3 := callAll _ _).
  destruct (preAllocateTextures_spec 3 g3) as (Hts & Hlive & _).
  destruct (preAllocateTextures g3 3) as [slots g4]. cbn [fst snd] in *.
  intros H.
  assert (He : e1 = set_setup (getUniformLocation hasUniform "uNumMasks")
                      (getUniformLocation hasUniform "uFill")
                      (getUniformLocation hasUniform "uUseCustomImage")
                      (Some (nextTexture g0)) slots (_bitmap e1) e /\ g1 = g4).
  { destruct icons as [[[a h] w]|]; inversion H; subst; split; reflexivity. }
  destruct He as [-> ->]. cbn.
  split; [reflexivity|]. split; [subst slots; reflexivity|].
  rewrite Hlive. subst g3. cbn. set_solver.
Qed.

Lemma deleteTextures_live (ts : list Texture) :
  forall g : GL,
    liveTextures (deleteTextures ts g) = liveTextures g ∖ list_to_set ts /\
    nextTexture (deleteTextures ts g) = nextTexture g.
Proof.
  clear gl_present program_present canvas_present variant super_setupUniforms super_cleanup hasUniform decode normalizeBounds.
  unfold deleteTextures. induction ts as [|t ts IH]; intros g.
  - cbn. split; [set_solver | reflexivity].
  - cbn [fold_left]. destruct (IH (deleteTexture t g)) as [-> ->]. cbn.
    split; [set_solver | reflexivity].
Qed.

(** C9. After [setupUniforms] and then [cleanup], whatever the fetch of
    the icons gave and provided the base class's own clean-up leaves the
    textures of the subclass alone, the extra texture created during
    set-up is still allocated and still referenced by [_extraTexture]:
    [cleanup] deletes the three mask textures (when the context is still
    there) and nothing else. *)
Theorem cleanup_leaves_extraTexture
    icons (b b1 b2 : Base) (e e1 e2 : Fields) (g g1 g2 : GL) o :
  setup icons b e g = (b1, e1, g1, o) ->
  teardown b1 e1 g1 = (b2, e2, g2) ->
  (forall t, _extraTexture e1 = Some t -> t ∈ liveTextures g1 ->
     t ∈ liveTextures (snd (super_cleanup b1 g1))) ->
  exists t : Texture,
    _extraTexture e1 = Some t /\ t ∈ liveTextures g1 /\
    _extraTexture e2 = Some t /\ t ∈ liveTextures g2 /\
    (gl_present b2 = true ->
       _maskTextures e2 = [] /\
       forall s, s ∈ _maskTextures e1 -> s ∉ liveTextures g2).
Proof.
  clear program_present canvas_present variant decode normalizeBounds.
  intros Hsetup Hclean Hsuper.
  destruct (setupUniforms_acquires _ _ _ _ _ _ _ _ Hsetup) as (Hextra & Hslots & Hlive).
  set (t := nextTexture (snd (super_setupUniforms b g))) in *.
  exists t.
  assert (Ht : t ∈ liveTextures g1) by (rewrite Hlive; set_solver).
  specialize (Hsuper t Hextra Ht).
  unfold cleanup in Hclean. destruct (super_cleanup b1 g1) as [b' g'].
  cbn [snd] in Hsuper.
  destruct (gl_present b') eqn:Hgl; inversion Hclean; subst b2 e2 g2.
  - destruct (deleteTextures_live (_maskTextures e1) g') as [Hl _].
    split; [exact Hextra|]. split; [exact Ht|]. split; [exact Hextra|].
    split.
    + rewrite Hl, Hslots. apply elem_of_difference. split; [exact Hsuper|].
      rewrite !list_to_set_cons, list_to_set_nil. set_unfold. lia.
    + intros _. split; [reflexivity|]. intros s Hs. rewrite Hl.
      set_solver.
  - split; [exact Hextra|]. split; [exact Ht|]. split; [exact Hextra|].
    split; [exact Hsuper|]. intros Hgl'. congruence.
Qed.

Lemma uploadMasks_decoded (e : Fields) (context : EffectFrameContext)
    (ms : list EffectMask) (datas : list (list Z)) :
  Forall2 (fun mask data => decode (bitmap mask) = Some data) ms datas ->
  forall (index : nat) (g : GL),
    uploadMasks hasUniform decode normalizeBounds e context index ms g =
      (callAll (uploadCalls hasUniform normalizeBounds e context index ms datas) g, Done tt).
Proof.
  induction 1 as [|mask data ms datas Hd _ IH]; intros index g.
  - cbn. unfold callAll. rewrite app_nil_r. destruct g; reflexivity.
  - cbn [uploadMasks uploadCalls]. rewrite Hd, IH, callAll_callAll. reflexivity.
Qed.

Lemma uploadCalls_has (e : Fields) (context : EffectFrameContext)
    (ms : list EffectMask) (datas : list (list Z)) :
  forall (index i : nat) (mask : EffectMask) (data : list Z),
    ms !! i = Some mask -> datas !! i = Some data ->
    incl (maskCalls hasUniform normalizeBounds e context (index + i) mask data)
         (uploadCalls hasUniform normalizeBounds e context index ms datas).
Proof.
  revert datas. induction ms as [|m0 ms IH]; intros datas index i mask data Hm Hd.
  - discriminate.
  - destruct datas as [|d0 datas]; [discriminate|]. cbn [uploadCalls].
    destruct i as [|i].
    + injection Hm as ->. injection Hd as ->. rewrite Nat.add_0_r.
      apply incl_appl, incl_refl.
    + apply incl_appr. replace (index + S i)%nat with (S index + i)%nat by lia.
      apply IH; assumption.
Qed.


End EffectFacts.

Section EffectExamples.

Import ReplaceGLEffect Fixture.

Lemma cleanup_leaves_extraTexture_witness :
  exists (e1 e2 : Fields) (g1 g2 : GL),
    setupUniforms PlainBase noSuper anyUniform (Some (icon, icon, icon))
      readyBase initial freshGL = (readyBase, e1, g1, Done tt) /\
    cleanup PlainBase gl noSuper readyBase e1 g1 = (readyBase, e2, g2) /\
    _maskTextures e1 = [1; 2; 3]%nat /\
    _maskTextures e2 = [] /\
    _extraTexture e2 = Some 0%nat /\
    0%nat ∈ liveTextures g2.
Proof.
  eexists _, _, _, _.
  split; [reflexivity|]. split; [reflexivity|]. split; [reflexivity|].
  split; [reflexivity|].
  destruct (cleanup_leaves_extraTexture PlainBase gl noSuper noSuper anyUniform
              (Some (icon, icon, icon)) readyBase readyBase readyBase
              initial _ _ freshGL _ _ (Done tt) eq_refl eq_refl
              ltac:(intros t _ Ht; exact Ht))
    as (t & Hextra & _ & Hextra2 & Ht & _).
  injection Hextra as <-. split; [exact Hextra2 | exact Ht].
Defined.



End EffectExamples.

(** * Further properties of the store *)

Section ActionFacts.

Import EditorStore Prog Actions Fixture.

Lemma settle_Resolved (m : M unit) (st st1 : Store) (l : list Effect) :
  settle m st = (st1, l, Resolved) -> m st = (st1, l, Ok tt).
Proof.
  unfold settle. destruct (m st) as [[st2 l2] [[]|e]]; intros H; inversion H; reflexivity.
Qed.

(** [propagateMasks] on any store, past its guard or not: it returns
    normally and writes only the masks, the processing flag and the
    progress. *)
Lemma propagateMasks_cases (JSON_parse : string -> option FrameMasks)
    (st : Store) (startFrame : Z) (answer : result Reader) :
  exists l : list Effect,
    (nothingToPropagate st startFrame = true /\
     propagateMasks JSON_parse startFrame answer st = (st, l, Ok tt) /\ l = []) \/
    (nothingToPropagate st startFrame = false /\
     propagateMasks JSON_parse startFrame answer st =
       (afterRun (applyRecords (appliedBy JSON_parse answer) (masks st)) st, l, Ok tt)).
Proof.
  destruct (nothingToPropagate st startFrame) eqn:Hg.
  - exists []. left. split; [reflexivity|]. split; [|reflexivity].
    unfold propagateMasks, EditorStore.bind, EditorStore.get. rewrite Hg. reflexivity.
  - destruct (propagateMasks_run JSON_parse st startFrame answer Hg)
      as (sid & l & _ & Hrun & _).
    exists l. right. split; [reflexivity|]. exact (settle_Resolved _ _ _ _ Hrun).
Qed.

Lemma applyRecords_dom (ds : list FrameMasks) (m : gmap Z FrameMasks) :
  dom m ⊆ dom (applyRecords ds m).
Proof.
  revert m. induction ds as [|d ds IH]; intros m; [reflexivity|].
  cbn [applyRecords fold_left]. etrans; [|apply IH]. rewrite dom_insert. set_solver.
Qed.

Lemma propagateMasks_frame
    (JSON_parse : string -> option FrameMasks)
    (st : Store) (startFrame : Z) (answer : result Reader) :
  let r := settle (propagateMasks JSON_parse startFrame answer) st in
  completionOf r = Resolved /\
  sessionId (finalStore r) = sessionId st /\
  currentVideo (finalStore r) = currentVideo st /\
  currentFrame (finalStore r) = currentFrame st /\
  points (finalStore r) = points st /\
  videoFrames (finalStore r) = videoFrames st /\
  chatMessages (finalStore r) = chatMessages st /\
  instructions (finalStore r) = instructions st /\
  isLoading (finalStore r) = isLoading st /\
  dom (masks st) ⊆ dom (masks (finalStore r)) /\
  isProcessing (finalStore r) =
    (if nothingToPropagate st startFrame then isProcessing st else false).
Proof.
  cbv zeta. unfold settle.
  destruct (propagateMasks_cases JSON_parse st startFrame answer)
    as (l & [(Hg & -> & ->) | (Hg & ->)]);
    unfold completionOf, finalStore; cbn [fst snd].
  - rewrite Hg. repeat split; reflexivity.
  - rewrite Hg. repeat split; try reflexivity. cbn. apply applyRecords_dom.
Qed.

(** X1. [propagateMasks] never rejects, and whatever the backend sends it
    leaves the session, the video, the current frame, the points, the
    video frames, the chat, the instructions and the loading flag as they
    were; it removes no entry from the masks; when it ran the processing
    flag is off at the end. *)
Theorem propagateMasks_keeps_the_rest
    (JSON_parse : string -> option FrameMasks)
    (st : Store) (startFrame : Z) (answer : result Reader) :
  let r := settle (propagateMasks JSON_parse startFrame answer) st in
  completionOf r = Resolved /\
  sessionId (finalStore r) = sessionId st /\
  currentVideo (finalStore r) = currentVideo st /\
  currentFrame (finalStore r) = currentFrame st /\
  points (finalStore r) = points st /\
  videoFrames (finalStore r) = videoFrames st /\
  chatMessages (finalStore r) = chatMessages st /\
  instructions (finalStore r) = instructions st /\
  isLoading (finalStore r) = isLoading st /\
  dom (masks st) ⊆ dom (masks (finalStore r)) /\
  isProcessing (finalStore r) =
    (if nothingToPropagate st startFrame then isProcessing st else false).
Proof. exact (propagateMasks_frame JSON_parse st startFrame answer). Qed.

(** ** [loadGalleryVideos] and [uploadVideo] *)

(** X2. [loadGalleryVideos] never rejects: it sends one request and gives
    the list of the backend, or the empty list with one logged error when
    the request fails; in both cases the loading flag is off at the end and
    nothing else of the store has changed. *)
Theorem loadGalleryVideos_never_rejects
    (st : Store) (got : answer (list GalleryVideo)) :
  let r := loadGalleryVideos got st in
  stateOf r = set_isLoading false st /\
  answerOf r = Got (match got with Got videos => videos | Failed _ => [] end) /\
  callsOf r =
    GetGalleryVideos ::
    match got with
    | Got _ => []
    | Failed _ => [LogError "Failed to load gallery videos:"]
    end.
Proof. cbv zeta. destruct got as [videos|t]; repeat split; reflexivity. Qed.

(** X3. [uploadVideo] hands on what the backend gives, value or error: a
    failed upload is logged and rejected with the very error of the
    request. On both exits the loading flag is off and nothing else of the
    store has changed. *)
Theorem uploadVideo_rethrows
    (st : Store) (file : File) (got : answer GalleryVideo) :
  let r := uploadVideo file got st in
  stateOf r = set_isLoading false st /\
  answerOf r = got /\
  callsOf r =
    PostUpload file ::
    match got with
    | Got _ => []
    | Failed _ => [LogError "Failed to upload video:"]
    end.
Proof. cbv zeta. destruct got as [video|t]; repeat split; reflexivity. Qed.

(** ** [selectVideo] *)

Lemma endSession_run (st : Store) (deleted : result unit) :
  exists l : list Effect,
    endSession deleted st = (finalStore (settle (endSession deleted) st), l, Ok tt) /\
    requestsOf l = match sessionId st with
                   | Some sid => if Js.truthy (Some sid) then [DeleteSession sid] else []
                   | None => []
                   end.
Proof.
  destruct (Js.truthy (sessionId st)) eqn:Ht.
  - destruct (truthy_inv _ Ht) as (sid & Hs & Hne).
    pose proof (endSession_active st sid deleted Hs Hne) as H.
    rewrite H. eexists. split; [exact (settle_Resolved _ _ _ _ H)|].
    rewrite Hs, (truthy_Some _ Hne). destruct deleted; reflexivity.
  - pose proof (endSession_inactive st deleted Ht) as H.
    rewrite H. exists []. split; [exact (settle_Resolved _ _ _ _ H)|].
    destruct (sessionId st) as [sid|]; [rewrite Ht|]; reflexivity.
Qed.

Lemma map_Inner_requests (l : list Effect) :
  requestsIn (map Inner l) = map Inner (requestsOf l).
Proof.
  unfold requestsIn, requestsOf. induction l as [|e l IH]; [reflexivity|].
  cbn [map List.filter isCallRequest]. destruct (isRequest e); cbn [map]; rewrite IH; reflexivity.
Qed.

(** The first step of [selectVideo]: the store as [endSession] leaves it,
    with the DELETE request when there was a session. *)
Lemma selectVideo_closes (st : Store) (deleted : result unit) :
  exists l : list Call,
    (if Js.truthy (sessionId st) then inner (endSession deleted) else ret tt) st =
      (finalStore (settle (endSession deleted) st), l, Got tt) /\
    requestsIn l = match sessionId st with
                   | Some sid =>
                       if Js.truthy (Some sid) then [Inner (DeleteSession sid)] else []
                   | None => []
                   end.
Proof.
  destruct (Js.truthy (sessionId st)) eqn:Ht.
  - destruct (endSession_run st deleted) as (l & Hrun & Hreq).
    exists (map Inner l). unfold inner. rewrite Hrun. split; [reflexivity|].
    rewrite map_Inner_requests, Hreq.
    destruct (sessionId st) as [sid|]; [|reflexivity].
    destruct (Js.truthy (Some sid)); reflexivity.
  - exists []. rewrite (endSession_inactive st deleted Ht). split; [reflexivity|].
    destruct (sessionId st) as [sid|]; [rewrite Ht|]; reflexivity.
Qed.

Lemma selectVideo_eq (st : Store) (video : GalleryVideo)
    (deleted : result unit) (created : answer Session) :
  exists l : list Call,
    requestsIn l = match sessionId st with
                   | Some sid =>
                       if Js.truthy (Some sid) then [Inner (DeleteSession sid)] else []
                   | None => []
                   end /\
    selectVideo video deleted created st =
      match created with
      | Got session =>
          (opened video session,
           l ++ [PostSession (video_path video); Inner (SetProgress 0)], Got tt)
      | Failed _ =>
          (set_isLoading false
             (set_currentVideo (Some video) (finalStore (settle (endSession deleted) st))),
           l ++ [PostSession (video_path video); LogError "Failed to create session:"],
           Got tt)
      end.
Proof.
  destruct (selectVideo_closes st deleted) as (l & Hclose & Hreq).
  exists l. split; [exact Hreq|].
  unfold selectVideo. unfold bind at 1. unfold get. cbv beta iota.
  unfold bind at 1. rewrite Hclose. destruct created; reflexivity.
Qed.

(** X4. When the backend creates the session, [selectVideo] leaves the
    store of a fresh session whatever the store was before: the video, the
    new identifier and an empty editor state. The session there was is
    closed first: its DELETE request goes out before the request for the
    new session. *)
Theorem selectVideo_opens_fresh_session
    (st : Store) (video : GalleryVideo) (deleted : result unit) (session : Session) :
  let r := selectVideo video deleted (Got session) st in
  stateOf r = opened video session /\
  answerOf r = Got tt /\
  requestsIn (callsOf r) =
    match sessionId st with
    | Some sid => if Js.truthy (Some sid) then [Inner (DeleteSession sid)] else []
    | None => []
    end ++ [PostSession (video_path video)].
Proof.
  cbv zeta. destruct (selectVideo_eq st video deleted (Got session)) as (l & Hreq & ->).
  unfold stateOf, callsOf, answerOf. cbn [fst snd].
  split; [reflexivity|]. split; [reflexivity|].
  unfold requestsIn in *. rewrite List.filter_app, Hreq. reflexivity.
Qed.

(** X5. When the backend refuses the session, [selectVideo] still does not
    reject: the error is logged, the loading flag is off, the video is the
    selected one and no session is open. The editor state is the one
    [endSession] left: emptied when a session was closed, and otherwise
    kept as it was, points and masks included. *)
Theorem selectVideo_refused_leaves_no_session
    (st : Store) (video : GalleryVideo) (deleted : result unit) (t : Thrown) :
  let r := selectVideo video deleted (Failed t) st in
  let closed := finalStore (settle (endSession deleted) st) in
  answerOf r = Got tt /\
  stateOf r = set_isLoading false (set_currentVideo (Some video) closed) /\
  Js.truthy (sessionId (stateOf r)) = false /\
  In (LogError "Failed to create session:") (callsOf r) /\
  points (stateOf r) = (if Js.truthy (sessionId st) then ∅ else points st) /\
  masks (stateOf r) = (if Js.truthy (sessionId st) then ∅ else masks st).
Proof.
  cbv zeta. destruct (selectVideo_eq st video deleted (Failed t)) as (l & _ & ->).
  unfold stateOf, callsOf, answerOf. cbn [fst snd].
  split; [reflexivity|]. split; [reflexivity|].
  split; [apply ended_not_truthy|]. split; [rewrite !in_app_iff; cbn; tauto|].
  destruct (Js.truthy (sessionId st)) eqn:Ht.
  - destruct (truthy_inv _ Ht) as (sid & Hs & Hne).
    rewrite (endSession_active st sid deleted Hs Hne). split; reflexivity.
  - rewrite (endSession_inactive st deleted Ht). split; reflexivity.
Qed.

(** ** [sendChatMessage] *)

Lemma foldr_min_spec (k : Z) (ks : list Z) :
  foldr Z.min k ks ∈ k :: ks /\ forall j, j ∈ k :: ks -> foldr Z.min k ks <= j.
Proof.
  induction ks as [|a ks [IHin IHle]].
  - cbn. split; [set_solver|]. intros j Hj. apply list_elem_of_singleton in Hj. lia.
  - cbn [foldr]. split.
    + destruct (Z.min_spec a (foldr Z.min k ks)) as [[_ ->]|[_ ->]]; [set_solver|].
      apply elem_of_cons in IHin as [->|Hin]; set_solver.
    + intros j Hj. apply elem_of_cons in Hj as [->|Hj].
      * specialize (IHle k ltac:(set_solver)). lia.
      * apply elem_of_cons in Hj as [->|Hj]; [lia|].
        specialize (IHle j ltac:(set_solver)). lia.
Qed.

(** The first key is the smallest frame that has an entry; there is none
    exactly when no frame has. *)
Lemma firstKey_spec (m : gmap Z (list CanvasPoint)) :
  match firstKey m with
  | Some k => k ∈ dom m /\ forall j, j ∈ dom m -> k <= j
  | None => m = ∅
  end.
Proof.
  unfold firstKey.
  assert (Hdom : forall j, j ∈ (map_to_list m).*1 <-> j ∈ dom m).
  { intros j. rewrite elem_of_dom, list_elem_of_fmap. split.
    - intros [[j' v] [-> H]]. apply elem_of_map_to_list in H. eauto.
    - intros [v H]. exists (j, v). split; [reflexivity|]. apply elem_of_map_to_list, H. }
  destruct ((map_to_list m).*1) as [|k ks] eqn:Hks.
  - apply map_to_list_empty_iff. destruct (map_to_list m); [reflexivity|discriminate].
  - destruct (foldr_min_spec k ks) as [Hin Hle]. split.
    + apply Hdom, Hin.
    + intros j Hj. apply Hle, Hdom, Hj.
Qed.

Section ChatFacts.

Variable JSON_parse : string -> option FrameMasks.
Variable messageOf : Error -> string.

Local Abbreviation chat := (sendChatMessage JSON_parse messageOf).

Ltac chat_state :=
  unfold replied;
  cbn [chatMessages instructions set_chatMessages set_instructions set_isLoading];
  rewrite <- ?app_assoc; reflexivity.

Ltac chat_case :=
  eexists; split;
  [ apply pair_equal_spec; split;
    [apply pair_equal_spec; split; [chat_state | reflexivity] | reflexivity]
  | reflexivity ].

Ltac chat_propagate :=
  unfold inner, settle, finalStore, effectsOf;
  match goal with
  | |- context [propagateMasks ?p ?f ?a ?s] =>
      match goal with
      | |- context [propagateMasks p f a (replied ?u ?r ?o ?st0)] =>
          replace s with (replied u r o st0) by (symmetry; chat_state);
          destruct (propagateMasks_cases p (replied u r o st0) f a)
            as (l & [(Hg & Hrun & ->)|(Hg & Hrun)]);
          rewrite !Hrun
      end
  end;
  eexists; (split; [reflexivity|]);
  unfold requestsIn; cbn [app List.filter isCallRequest map fst snd];
  rewrite ?List.filter_app, ?app_nil_r;
  try reflexivity;
  do 2 f_equal; cbn [List.filter isCallRequest]; rewrite ?app_nil_r;
  apply map_Inner_requests.

Lemma sendChatMessage_eq (st : Store) (content id1 : string) (now1 : Q)
    (id2 : string) (now2 : Q) (processed : answer LLMResponse)
    (parsed : answer ModelInstructions) (propagated : result Reader) :
  let outcome := chatOutcome processed parsed in
  let userMessage :=
    {| msg_id := id1; role := user; content := content; timestamp := now1 |} in
  let reply :=
    {| msg_id := id2; role := bot; content := replyContent messageOf outcome;
       timestamp := now2 |} in
  let mid := replied userMessage reply outcome st in
  exists l : list Call,
    chat content id1 now1 id2 now2 processed parsed propagated st =
      (set_isLoading false
         match outcome, firstKey (points st) with
         | inr _, Some f =>
             finalStore (settle (propagateMasks JSON_parse f propagated) mid)
         | _, _ => mid
         end,
       l,
       Got (match outcome with inl _ => None | inr ins => Some ins end)) /\
    requestsIn l =
      PostProcess content "openai"
        (match currentVideo st with
         | Some v => Some ("Processing video: " +:+ video_name v)
         | None => None
         end)
      :: match processed with
         | Got llmResponse =>
             if Js.truthy (llm_error llmResponse) then []
             else PostParse (llm_response llmResponse)
                  :: match outcome, firstKey (points st) with
                     | inr _, Some f =>
                         map Inner (requestsOf
                           (effectsOf (settle (propagateMasks JSON_parse f propagated) mid)))
                     | _, _ => []
                     end
         | Failed _ => []
         end.
Proof.
  cbv zeta. unfold sendChatMessage, chatOutcome.
  unfold pushMessage, bind, try_finally, try_catch, modify, emit, await, get, ret, throw.
  destruct processed as [llmResponse|t]; [|chat_case].
  destruct (llm_error llmResponse) as [[|c text]|]; cbn [Js.truthy]; try chat_case.
  - destruct parsed as [ins|t]; [|chat_case].
    cbn [fst snd chatMessages points set_chatMessages set_instructions set_isLoading].
    destruct (firstKey (points st)) as [f|]; [|chat_case].
    chat_propagate.
  - destruct parsed as [ins|t]; [|chat_case].
    cbn [fst snd chatMessages points set_chatMessages set_instructions set_isLoading].
    destruct (firstKey (points st)) as [f|]; [|chat_case].
    chat_propagate.
Qed.

Lemma chatOutcome_inr (processed : answer LLMResponse)
    (parsed : answer ModelInstructions) (ins : ModelInstructions) :
  chatOutcome processed parsed = inr ins ->
  exists llmResponse,
    processed = Got llmResponse /\ Js.truthy (llm_error llmResponse) = false /\
    parsed = Got ins.
Proof using Type.
  unfold chatOutcome. destruct processed as [llmResponse|t]; [|discriminate].
  intros H. exists llmResponse. split; [reflexivity|].
  destruct (llm_error llmResponse) as [[|c text]|]; try discriminate;
    (destruct parsed; [injection H as ->; split; reflexivity | discriminate]).
Qed.

Lemma propagations_among_requests (cs : list Call) :
  List.filter (fun c => match c with Inner (PostPropagate _ _) => true | _ => false end) cs =
  List.filter (fun c => match c with Inner (PostPropagate _ _) => true | _ => false end)
    (requestsIn cs).
Proof using Type.
  unfold requestsIn. induction cs as [|c cs IH]; [reflexivity|].
  cbn [List.filter]. destruct c as [[]| | | | | | | |]; cbn; rewrite ?IH; reflexivity.
Qed.

(** X6. [sendChatMessage] never rejects and always answers in the chat:
    whatever the language model and the propagation give, the chat gains
    exactly the user's message and then one message of the bot, the
    summary of the instructions or the apology with the message of the
    error. It returns the instructions, or null on an error, in which case
    the instructions of the store are kept. The loading flag is off at the
    end; session, video, current frame and points are untouched. *)
Theorem sendChatMessage_always_replies
    (st : Store) (content id1 : string) (now1 : Q) (id2 : string) (now2 : Q)
    (processed : answer LLMResponse) (parsed : answer ModelInstructions)
    (propagated : result Reader) :
  let r := chat content id1 now1 id2 now2 processed parsed propagated st in
  let outcome := chatOutcome processed parsed in
  answerOf r = Got (match outcome with inl _ => None | inr ins => Some ins end) /\
  chatMessages (stateOf r) =
    chatMessages st
    ++ [{| msg_id := id1; role := user; content := content; timestamp := now1 |};
        {| msg_id := id2; role := bot; content := replyContent messageOf outcome;
           timestamp := now2 |}] /\
  instructions (stateOf r) =
    (match outcome with inl _ => instructions st | inr ins => Some ins end) /\
  isLoading (stateOf r) = false /\
  sessionId (stateOf r) = sessionId st /\
  currentVideo (stateOf r) = currentVideo st /\
  currentFrame (stateOf r) = currentFrame st /\
  points (stateOf r) = points st.
Proof.
  cbv zeta.
  destruct (sendChatMessage_eq st content id1 now1 id2 now2 processed parsed propagated)
    as (l & -> & _).
  unfold stateOf, answerOf. cbn [fst snd]. split; [reflexivity|].
  destruct (chatOutcome processed parsed) as [t|ins]; [repeat split|].
  destruct (firstKey (points st)) as [f|]; [|repeat split].
  match goal with
  | |- context [settle (propagateMasks ?p ?f ?a) ?s] =>
      destruct (propagateMasks_frame p s f a)
        as (_ & Hs & Hv & Hf & Hp & _ & Hc & Hi & _)
  end.
  cbv zeta in *. cbn [chatMessages instructions sessionId currentVideo currentFrame
                      points isLoading set_isLoading].
  rewrite Hs, Hv, Hf, Hp, Hc, Hi. repeat split.
Qed.

(** X7. After the bot's summary, [sendChatMessage] propagates from the
    first frame that has points, which for frame numbers is the smallest
    one; the masks end up as [propagateMasks] leaves them for that frame.
    After an error of the language model, or with no points, it sends no
    propagation request and the masks are as before. *)
Theorem sendChatMessage_propagates_from_first_frame
    (st : Store) (content id1 : string) (now1 : Q) (id2 : string) (now2 : Q)
    (processed : answer LLMResponse) (parsed : answer ModelInstructions)
    (propagated : result Reader) :
  arrayIndices (points st) ->
  let r := chat content id1 now1 id2 now2 processed parsed propagated st in
  let outcome := chatOutcome processed parsed in
  let started :=
    match outcome, firstKey (points st) with
    | inr _, Some f => if nothingToPropagate st f then None else Some f
    | _, _ => None
    end in
  masks (stateOf r) =
    (match started with
     | Some _ => applyRecords (appliedBy JSON_parse propagated) (masks st)
     | None => masks st
     end) /\
  List.filter (fun c => match c with Inner (PostPropagate _ _) => true | _ => false end)
    (callsOf r) =
    (match started, sessionId st with
     | Some f, Some sid => [Inner (PostPropagate sid f)]
     | _, _ => []
     end) /\
  (forall f, started = Some f ->
     f ∈ dom (points st) /\ forall g, g ∈ dom (points st) -> f <= g).
Proof.
  intros _. cbv zeta.
  destruct (sendChatMessage_eq st content id1 now1 id2 now2 processed parsed propagated)
    as (l & -> & Hreq).
  unfold stateOf, callsOf. cbn [fst snd].
  rewrite (propagations_among_requests l), Hreq. clear Hreq.
  pose proof (firstKey_spec (points st)) as Hfirst.
  destruct (chatOutcome processed parsed) as [t|ins] eqn:Hout.
  - split; [reflexivity|]. split; [|intros f [=]].
    destruct processed as [llmResponse|]; [|reflexivity].
    destruct (Js.truthy (llm_error llmResponse)); reflexivity.
  - destruct (chatOutcome_inr _ _ _ Hout) as (llmResponse & -> & Herr & _).
    rewrite Herr. cbn [List.filter].
    destruct (firstKey (points st)) as [f|]; [|split; [reflexivity|]; split; [reflexivity|]; intros f0 [=]].
    match goal with
    | |- context [settle (propagateMasks ?p ?f ?a) ?s] =>
        change (nothingToPropagate st f) with (nothingToPropagate s f);
        destruct (propagateMasks_cases p s f a)
          as (l' & [(Hg & Hrun & ->)|(Hg & Hrun)]);
        [|destruct (propagateMasks_run p s f a Hg) as (sid & l2 & Hsid & Hrun2 & _ & Hq & _)]
    end.
    + unfold settle. rewrite Hrun, Hg. unfold finalStore, effectsOf. cbn [fst snd].
      split; [reflexivity|]. split; [reflexivity|]. intros f' [=].
    + rewrite Hrun2, Hg. unfold finalStore, effectsOf. cbn [fst snd].
      cbn [sessionId set_chatMessages set_instructions set_isLoading replied] in Hsid.
      rewrite Hsid, Hq. split; [reflexivity|]. split; [reflexivity|].
      intros f' [= <-]. exact Hfirst.
Qed.

End ChatFacts.

Lemma sendChatMessage_propagates_from_first_frame_witness :
  let r := sendChatMessage parseRecord Sample.transportMessage "track the dog"
             "m1" 0%Q "m2" 1%Q (Got Sample.plainAnswer) (Got Sample.trackDog)
             (Ok {| chunks := framesUpTo 2; ending := StreamDone |}) Sample.twoFrames in
  List.filter (fun c => match c with Inner (PostPropagate _ _) => true | _ => false end)
    (callsOf r) = [Inner (PostPropagate "s1" 3)] /\
  3 ∈ dom (points Sample.twoFrames).
Proof.
  cbv zeta.
  assert (Hidx : arrayIndices (points Sample.twoFrames)).
  { intros k Hk. apply elem_of_dom in Hk as [v Hv].
    destruct (decide (k = 3)) as [->|H3]; [lia|].
    destruct (decide (k = 7)) as [->|H7]; [lia|].
    exfalso. revert Hv. unfold Sample.twoFrames. cbn [points set_points].
    rewrite lookup_insert_ne by congruence. rewrite lookup_singleton_ne by congruence.
    discriminate. }
  destruct (sendChatMessage_propagates_from_first_frame parseRecord
              Sample.transportMessage Sample.twoFrames "track the dog" "m1" 0%Q "m2" 1%Q
              (Got Sample.plainAnswer) (Got Sample.trackDog)
              (Ok {| chunks := framesUpTo 2; ending := StreamDone |}) Hidx)
    as (_ & Hreq & Hmin).
  split; [exact Hreq|]. exact (proj1 (Hmin 3 eq_refl)).
Defined.

(** ** [resetEditorState], points without a session, late answers *)

(** X8. [resetEditorState] keeps the session, the video and the loading
    flag and empties the rest; both getters then give the empty list;
    resetting again changes nothing; and although the session is still
    there, [propagateMasks] then does nothing for any frame, since no
    frame has points. *)
Theorem resetEditorState_empties_the_editor (st : Store) :
  let r := settle resetEditorState st in
  let st1 := finalStore r in
  completionOf r = Resolved /\
  sessionId st1 = sessionId st /\ currentVideo st1 = currentVideo st /\
  isLoading st1 = isLoading st /\
  points st1 = ∅ /\ masks st1 = ∅ /\ currentFrame st1 = 0 /\
  videoFrames st1 = [] /\ chatMessages st1 = [] /\ isProcessing st1 = false /\
  processingProgress st1 = 0 /\ instructions st1 = None /\
  currentFramePoints st1 = [] /\ currentFrameMasks st1 = [] /\
  finalStore (settle resetEditorState st1) = st1 /\
  forall (JSON_parse : string -> option FrameMasks) (f : Z) (answer : result Reader),
    settle (propagateMasks JSON_parse f answer) st1 = (st1, [], Resolved).
Proof.
  cbv zeta. unfold settle at 1 2 3 4 5 6 7 8 9 10 11 12 13 14.
  repeat split.
  intros JSON_parse f answer. unfold settle at 1.
  destruct (propagateMasks_cases JSON_parse (finalStore (settle resetEditorState st)) f answer)
    as (l & [(_ & -> & ->)|(Hg & _)]); [reflexivity|].
  unfold nothingToPropagate in Hg. cbn in Hg.
  rewrite orb_true_r in Hg. discriminate.
Qed.

(** X9. Without a session [addPoint] only stores the point: the points of
    the current frame gain it, no request is sent, nothing is logged and
    the masks are untouched, whatever the backend would have answered. *)
Theorem addPoint_without_session_only_stores
    (st : Store) (p : CanvasPoint) (answer : result AddPointsResult) :
  Js.truthy (sessionId st) = false ->
  let r := settle (addPoint p answer) st in
  completionOf r = Resolved /\
  effectsOf r = [] /\
  currentFramePoints (finalStore r) = currentFramePoints st ++ [p] /\
  masks (finalStore r) = masks st /\
  sessionId (finalStore r) = sessionId st.
Proof.
  intros Ht. cbv zeta. unfold settle. rewrite addPoint_eq, addPoint_send_eq. cbv zeta.
  destruct (sessionId st) as [sid|] eqn:Hs.
  - rewrite Ht. unfold completionOf, effectsOf, finalStore, currentFramePoints.
    cbn [fst snd app currentFrame set_points]. rewrite framePoints_set_points.
    cbn. rewrite Hs. repeat split.
  - unfold completionOf, effectsOf, finalStore, currentFramePoints.
    cbn [fst snd app currentFrame set_points]. rewrite framePoints_set_points.
    cbn. rewrite Hs. repeat split.
Qed.

Lemma addPoint_without_session_only_stores_witness :
  effectsOf (settle (addPoint (click 10 10) (Throw HttpError)) emptyStore) = [] /\
  currentFramePoints (finalStore (settle (addPoint (click 10 10) (Throw HttpError)) emptyStore))
    = [click 10 10].
Proof.
  destruct (addPoint_without_session_only_stores emptyStore (click 10 10)
              (Throw HttpError) eq_refl) as (_ & Heff & Hpts & _).
  split; [exact Heff | exact Hpts].
Defined.

(** X10. The answer of a point addition is stored in the store as it is
    when the answer arrives: when the session was ended in between, the
    emptied store gets a mask entry for the frame of the request although
    no session is open. *)
Theorem answer_after_endSession_is_stored
    (st : Store) (deleted : result unit) (f : Z) (res : AddPointsResult) :
  Js.truthy (sessionId st) = true ->
  let ended := finalStore (settle (endSession deleted) st) in
  let r := settle (addPoint_receive f (Ok res)) ended in
  completionOf r = Resolved /\
  sessionId (finalStore r) = None /\
  points (finalStore r) = ∅ /\
  masks (finalStore r) = {[ f := {| frame_idx := f; fm_masks := result_masks res |} ]}.
Proof.
  intros Ht. cbv zeta. destruct (truthy_inv _ Ht) as (sid & Hs & Hne).
  rewrite (endSession_active st sid deleted Hs Hne).
  unfold settle. rewrite addPoint_receive_eq.
  unfold completionOf, finalStore, storeMasks. cbn. rewrite lookup_empty.
  repeat split.
Qed.

Lemma answer_after_endSession_is_stored_witness :
  masks (finalStore (settle (addPoint_receive 0
           (Ok {| result_masks := [maskOf 1 "late"]; result_frame_idx := 0 |}))
           (finalStore (settle (endSession (Ok tt)) activeStore))))
    = {[ 0 := {| frame_idx := 0; fm_masks := [maskOf 1 "late"] |} ]}.
Proof.
  exact (proj2 (proj2 (proj2 (answer_after_endSession_is_stored activeStore (Ok tt) 0
           {| result_masks := [maskOf 1 "late"]; result_frame_idx := 0 |} eq_refl)))).
Defined.

(** ** Chunks that end at a line boundary *)

Import Chunks.

(** The characters that [trim] removes, and a no-break space at each end
    of a text. *)
Lemma is_space_spec (c : ascii) :
  Js.is_space c = true <-> In (nat_of_ascii c) [9; 10; 11; 12; 13; 32; 160]%nat.
Proof.
  unfold Js.is_space. cbv zeta.
  rewrite !orb_true_iff, andb_true_iff, !Nat.leb_le, !Nat.eqb_eq. cbn [In]. lia.
Qed.

Lemma trim_no_break_space :
  Js.trim (String (ascii_of_nat 160) ("a" +:+ String (ascii_of_nat 160) EmptyString)) = "a".
Proof. reflexivity. Qed.

Lemma visible_not_space (c : ascii) : visible c = true -> Js.is_space c = false.
Proof.
  unfold visible. cbv zeta. rewrite andb_true_iff, !Nat.leb_le. intros Hc.
  destruct (Js.is_space c) eqn:Hs; [|reflexivity].
  apply is_space_spec in Hs. cbn [In] in Hs. lia.
Qed.

Lemma split_nl_line (l rest : string) :
  noNewline l = true ->
  Js.split_nl (l +:+ String Js.newline rest) = l :: Js.split_nl rest.
Proof.
  induction l as [|c r IH]; intros Hl.
  - reflexivity.
  - cbn [noNewline] in Hl. apply andb_true_iff in Hl as [Hc Hr].
    change (String c r +:+ String Js.newline rest)
      with (String c (r +:+ String Js.newline rest)).
    cbn [Js.split_nl]. apply negb_true_iff in Hc. rewrite Hc, (IH Hr).
    reflexivity.
Qed.

Lemma split_nl_single (l : string) : noNewline l = true -> Js.split_nl l = [l].
Proof.
  induction l as [|c r IH]; intros Hl; [reflexivity|].
  cbn [noNewline] in Hl. apply andb_true_iff in Hl as [Hc Hr].
  cbn [Js.split_nl]. apply negb_true_iff in Hc. rewrite Hc, (IH Hr). reflexivity.
Qed.

Lemma trimEnd_line_feed (s : string) :
  endsClean s = true -> Js.trimEnd (s +:+ String Js.newline EmptyString) = s.
Proof.
  induction s as [|c r IH]; intros Hs; [discriminate|].
  destruct r as [|c' r'].
  - cbn [endsClean] in Hs. apply visible_not_space in Hs.
    change (String c EmptyString +:+ String Js.newline EmptyString)
      with (String c (String Js.newline EmptyString)).
    cbn [Js.trimEnd]. rewrite Hs. reflexivity.
  - change (endsClean (String c (String c' r'))) with (endsClean (String c' r')) in Hs.
    change (String c (String c' r') +:+ String Js.newline EmptyString)
      with (String c (String c' r' +:+ String Js.newline EmptyString)).
    cbn [Js.trimEnd]. rewrite (IH Hs). reflexivity.
Qed.

Lemma string_append_assoc (a b c : string) : (a +:+ b) +:+ c = a +:+ (b +:+ c).
Proof.
  induction a as [|x a IH]; [reflexivity|].
  change ((String x a +:+ b) +:+ c) with (String x ((a +:+ b) +:+ c)).
  rewrite IH. reflexivity.
Qed.

Lemma endsClean_append (a b : string) :
  endsClean b = true -> endsClean (a +:+ b) = true.
Proof.
  intros Hb. induction a as [|x a IH]; [exact Hb|].
  change (String x a +:+ b) with (String x (a +:+ b)).
  cbn [endsClean]. destruct (a +:+ b) eqn:Hab; [discriminate IH|exact IH].
Qed.

Lemma chunkOf_joinLines (ls : list string) :
  ls ≠ [] ->
  Forall (fun l => cleanLine l = true) ls ->
  chunkOf ls = joinLines ls +:+ String Js.newline EmptyString /\
  endsClean (joinLines ls) = true /\
  Js.split_nl (joinLines ls) = ls.
Proof.
  intros Hne Hclean. induction Hclean as [|l rest Hl Hrest IH]; [congruence|].
  unfold cleanLine in Hl. apply andb_true_iff in Hl as [Hl He].
  apply andb_true_iff in Hl as [Hn Hs].
  destruct rest as [|l' rest'].
  - cbn. split; [reflexivity|]. split; [exact He|]. apply split_nl_single, Hn.
  - destruct (IH ltac:(discriminate)) as (Hchunk & Hend & Hsplit).
    change (chunkOf (l :: l' :: rest'))
      with (l +:+ String Js.newline (chunkOf (l' :: rest'))).
    change (joinLines (l :: l' :: rest'))
      with (l +:+ String Js.newline (joinLines (l' :: rest'))).
    rewrite Hchunk. split; [|split].
    + rewrite string_append_assoc. reflexivity.
    + apply endsClean_append. cbn [endsClean].
      destruct (joinLines (l' :: rest')); [discriminate Hend|exact Hend].
    + rewrite (split_nl_line _ _ Hn), Hsplit. reflexivity.
Qed.

Lemma trimStart_clean (s : string) : startsClean s = true -> Js.trimStart s = s.
Proof.
  destruct s as [|c r]; [discriminate|]. cbn [startsClean Js.trimStart]. intros H.
  apply visible_not_space in H. rewrite H. reflexivity.
Qed.

(** A chunk of whole clean lines is read as exactly those lines. *)
Lemma lines_of_chunk (ls : list string) :
  ls ≠ [] ->
  Forall (fun l => cleanLine l = true) ls ->
  Js.split_nl (Js.trim (chunkOf ls)) = ls.
Proof.
  intros Hne Hclean.
  destruct (chunkOf_joinLines ls Hne Hclean) as (Hchunk & Hend & Hsplit).
  unfold Js.trim. rewrite trimStart_clean.
  - rewrite Hchunk, (trimEnd_line_feed _ Hend). exact Hsplit.
  - destruct ls as [|l rest]; [congruence|]. inversion Hclean as [|? ? Hl _]; subst.
    unfold cleanLine in Hl. apply andb_true_iff in Hl as [Hl _].
    apply andb_true_iff in Hl as [_ Hs].
    cbn [chunkOf]. destruct l; [discriminate|exact Hs].
Qed.

Lemma linesOf_aligned (groups : list (list string)) :
  Forall (fun g => g ≠ [] /\ Forall (fun l => cleanLine l = true) g) groups ->
  linesOf (map chunkOf groups) = concat groups.
Proof.
  induction 1 as [|g groups [Hne Hclean] _ IH]; [reflexivity|].
  unfold linesOf in *. cbn [map flat_map concat].
  rewrite (lines_of_chunk g Hne Hclean), IH. reflexivity.
Qed.

(** X11. When every chunk of the stream holds whole lines (each chunk ends
    with the line feed of its last line, and every line starts and ends
    with a printing ASCII character) and every line holds a record,
    [propagateMasks] applies every record of the stream in order, however
    the lines are grouped into chunks: each frame holds the last record of
    the stream for it, and the other frames what they held before. The
    trace is the first progress value, the request, one progress value per
    record, the error of a broken stream if it broke, and the last
    progress value; no line is reported as unreadable. *)
Theorem aligned_chunks_apply_every_record
    (JSON_parse : string -> option FrameMasks)
    (st : Store) (startFrame : Z) (sid : string)
    (groups : list (list string)) (records : list FrameMasks) (e : Ending) :
  nothingToPropagate st startFrame = false ->
  sessionId st = Some sid ->
  Forall (fun g => g ≠ [] /\ Forall (fun l => cleanLine l = true) g) groups ->
  Forall2 (fun l d => JSON_parse l = Some d) (concat groups) records ->
  let r := settle (propagateMasks JSON_parse startFrame
                     (Ok {| chunks := map chunkOf groups; ending := e |})) st in
  let total :=
    match videoFrames st with
    | [] => 100
    | _ :: _ => Z.of_nat (length (videoFrames st))
    end in
  let value := fun k : nat =>
    Z.min 100
      (Qfloor (Binary64.round
                 (Binary64.round (inject_Z (Z.of_nat k) / inject_Z total) * 100)%Q)) in
  completionOf r = Resolved /\
  (forall g : Z,
     masks (finalStore r) !! g =
       match last (List.filter (fun d => frame_idx d =? g) records) with
       | Some d => Some d
       | None => masks st !! g
       end) /\
  effectsOf r =
    [SetProgress 0; PostPropagate sid startFrame]
    ++ map (fun k => SetProgress (value k)) (seq 1 (length (concat groups)))
    ++ match e with
       | StreamDone => []
       | StreamBroken => [ConsoleError "Error propagating masks:"]
       end
    ++ [SetProgress 100].
Proof.
  intros Hguard Hs Haligned Hrecords. cbv zeta.
  rewrite <- (linesOf_aligned groups Haligned) in Hrecords.
  rewrite (propagateMasks_records JSON_parse st startFrame sid _ e records Hguard Hs Hrecords).
  unfold completionOf, finalStore, effectsOf. cbn [fst snd].
  split; [reflexivity|]. split.
  - intros g. cbn [masks afterRun set_processingProgress set_isProcessing set_masks].
    apply applyRecords_lookup.
  - rewrite <- (totalFramesOf_eq st).
    rewrite <- (Forall2_length _ _ _ Hrecords), (linesOf_aligned groups Haligned).
    unfold reported. rewrite map_map. reflexivity.
Qed.

Lemma aligned_chunks_apply_every_record_witness :
  let groups := [[recordText 0; recordText 1]; [recordText 2]] in
  effectsOf (settle (propagateMasks parseRecord 0
               (Ok {| chunks := map chunkOf groups; ending := StreamDone |})) activeStore)
    = [SetProgress 0; PostPropagate "s1" 0; SetProgress 1; SetProgress 2; SetProgress 3;
       SetProgress 100].
Proof.
  cbv zeta.
  destruct (aligned_chunks_apply_every_record parseRecord activeStore 0 "s1"
              [[recordText 0; recordText 1]; [recordText 2]]
              [{| frame_idx := 0; fm_masks := [] |}; {| frame_idx := 1; fm_masks := [] |};
               {| frame_idx := 2; fm_masks := [] |}]
              StreamDone eq_refl eq_refl
              ltac:(repeat constructor; discriminate)
              ltac:(repeat constructor)) as (_ & _ & Htrace).
  rewrite Htrace. reflexivity.
Defined.

End ActionFacts.

(** * Further properties of the replace effect *)

Section ImageFacts.

Import ReplaceGLEffect ReplacementImage Fixture.
Local Open Scope nat_scope.

Variable Base : Type.
Variable gl_present program_present canvas_present : Base -> bool.
Variable variant : Base -> nat.
Variable super_setupUniforms : Base -> GL -> Base * GL.
Variable hasUniform : string -> bool.
Variable decode : RLE -> option (list Z).
Variable normalizeBounds : Q * Q -> Q * Q -> nat -> nat -> list Q.

#[local] Set Default Proof Using "Type".

Local Abbreviation setup := (setupUniforms Base super_setupUniforms hasUniform).
Local Abbreviation render :=
  (apply Base gl_present program_present canvas_present variant hasUniform
     decode normalizeBounds).


(** The icon of a variant is always one of the loaded icons. *)
Lemma icon_in_range (b : Base) (icons : list ImageBitmap) :
  icons ≠ [] ->
  exists icon, icons !! ((variant b / 2) mod length icons) = Some icon.
Proof.
  clear gl_present program_present canvas_present super_setupUniforms hasUniform decode normalizeBounds.
  intros Hne. apply lookup_lt_is_Some. apply Nat.mod_upper_bound.
  destruct icons; [congruence|discriminate].
Qed.


Lemma preAllocateTextures_calls (n : nat) :
  forall g : GL,
    calls (snd (preAllocateTextures g n)) =
      calls g ++ map CreateTexture (seq (nextTexture g) n).
Proof.
  clear. induction n as [|n IH]; intros g.
  - cbn. rewrite app_nil_r. reflexivity.
  - cbn [preAllocateTextures]. unfold createTexture.
    set (g1 := {| liveTextures := _; nextTexture := S (nextTexture g); calls := _ |}).
    specialize (IH g1). destruct (preAllocateTextures g1 n) as [ts g2].
    cbn [snd] in *. rewrite IH. subst g1. cbn. rewrite <- app_assoc. reflexivity.
Qed.


(** The calls of a frame up to the draw hold no draw call. *)
Lemma no_draw_before_the_masks (context : EffectFrameContext) (b : Base) (e : Fields)
    (ms : list EffectMask) (datas : list (list Z)) (index : nat) :
  ~ In DrawArrays (frameCalls Base variant context b e
                   ++ uploadCalls hasUniform normalizeBounds e context index ms datas).
Proof.
  clear gl_present program_present canvas_present super_setupUniforms decode.
  rewrite in_app_iff. intros [H|H].
  - unfold frameCalls, replacementCalls in H.
    repeat (apply in_app_iff in H as [H|H]);
      repeat match type of H with
             | context [match ?x with _ => _ end] => destruct x
             | context [if ?x then _ else _] => destruct x
             end;
      cbn in H; intuition discriminate.
  - revert datas index H. induction ms as [|m ms IH]; intros datas index H; [exact H|].
    destruct datas as [|d datas]; [exact H|]. cbn [uploadCalls] in H.
    apply in_app_iff in H as [H|H]; [cbn in H; intuition discriminate | exact (IH _ _ H)].
Qed.

Lemma uploadMasks_stops (e : Fields) (context : EffectFrameContext)
    (ms1 : list EffectMask) (datas : list (list Z)) (bad : EffectMask) (ms2 : list EffectMask) :
  Forall2 (fun mask data => decode (bitmap mask) = Some data) ms1 datas ->
  decode (bitmap bad) = None ->
  forall (index : nat) (g : GL),
    uploadMasks hasUniform decode normalizeBounds e context index (ms1 ++ bad :: ms2) g =
      (callAll (uploadCalls hasUniform normalizeBounds e context index ms1 datas) g,
       Raise DecodeFailed).
Proof.
  clear gl_present program_present canvas_present variant super_setupUniforms.
  intros Hdec Hbad. induction Hdec as [|mask data ms ds Hd _ IH]; intros index g.
  - cbn. rewrite Hbad. unfold callAll. rewrite app_nil_r. destruct g; reflexivity.
  - cbn [app uploadMasks uploadCalls]. rewrite Hd, IH, callAll_callAll. reflexivity.
Qed.

(** X15. When the bitmap of a mask fails to decode, [apply] raises at that
    mask: the masks before it have been uploaded, and nothing is drawn for
    the frame, no call to [drawArrays] being made. *)
Theorem undecodable_mask_stops_the_frame
    (context : EffectFrameContext) (b : Base) (e : Fields) (g : GL)
    (ms1 : list EffectMask) (datas : list (list Z)) (bad : EffectMask) (ms2 : list EffectMask) :
  gl_present b = true -> program_present b = true ->
  ctx_masks context = ms1 ++ bad :: ms2 ->
  Forall2 (fun mask data => decode (bitmap mask) = Some data) ms1 datas ->
  decode (bitmap bad) = None ->
  let done := frameCalls Base variant context b e
              ++ uploadCalls hasUniform normalizeBounds e context 0 ms1 datas in
  render context b e g = (callAll done g, Raise DecodeFailed) /\
  maskUploads done = length ms1 /\
  ~ In DrawArrays done.
Proof.
  clear super_setupUniforms.
  intros Hgl Hprog Hms Hdec Hbad. cbv zeta. split; [|split].
  - unfold apply. rewrite Hgl, Hprog. cbn [negb]. rewrite Hms.
    rewrite (uploadMasks_stops e context ms1 datas bad ms2 Hdec Hbad), callAll_callAll.
    reflexivity.
  - unfold maskUploads. rewrite List.filter_app, length_app.
    assert (Hframe : length (List.filter
              (fun c => match c with TexImage2D LUMINANCE _ _ _ => true | _ => false end)
              (frameCalls Base variant context b e)) = 0).
    { unfold frameCalls, replacementCalls. rewrite !List.filter_app, !length_app.
      destruct (_useCustomImageLocation e), (_useCustomImage e), (_customImage e);
        cbn; try reflexivity;
        destruct (Nat.eqb (length (_bitmap e)) 0); cbn; try reflexivity;
        destruct (_bitmap e !! _); reflexivity. }
    rewrite Hframe. cbn [Nat.add]. clear Hms. generalize 0.
    induction Hdec as [|mask data ms ds _ _ IH]; intros index; [reflexivity|].
    cbn [uploadCalls length]. rewrite <- (IH (S index)). reflexivity.
  - apply no_draw_before_the_masks.
Qed.

Lemma bindingsAfter_app (cs1 cs2 : list GLCall) (s : Bindings) :
  bindingsAfter (cs1 ++ cs2) s = bindingsAfter cs2 (bindingsAfter cs1 s).
Proof. clear. apply fold_left_app. Qed.

(** Lines 165-219 select the unit of the replacement image and bind the
    extra texture to it. *)
Lemma frameCalls_bindings (context : EffectFrameContext) (b : Base) (e : Fields)
    (s : Bindings) :
  bindingsAfter (frameCalls Base variant context b e) s =
    {| activeUnit := _extraTextureUnit e;
       boundTo := partial_alter (fun _ => _extraTexture e) (_extraTextureUnit e)
                    (boundTo s) |}.
Proof.
  clear gl_present program_present canvas_present super_setupUniforms hasUniform
        decode normalizeBounds.
  unfold frameCalls, replacementCalls.
  destruct (_useCustomImageLocation e), (_useCustomImage e), (_customImage e);
    try reflexivity;
    destruct (Nat.eqb (length (_bitmap e)) 0); try reflexivity;
    destruct (_bitmap e !! _); reflexivity.
Qed.

(** The first [forEach] binds the slot of each mask to the unit of the
    mask and leaves the other units alone; the unit of the last mask stays
    selected. *)
Lemma uploadCalls_bindings (e : Fields) (context : EffectFrameContext)
    (ms : list EffectMask) :
  forall (datas : list (list Z)) (index : nat) (s : Bindings),
  length datas = length ms ->
  let s1 := bindingsAfter (uploadCalls hasUniform normalizeBounds e context index ms datas) s in
  (forall i, i < length ms ->
     boundTo s1 !! (index + i + _masksTextureUnitStart e) = _maskTextures e !! (index + i)) /\
  (forall u, u < index + _masksTextureUnitStart e \/
             index + length ms + _masksTextureUnitStart e <= u ->
     boundTo s1 !! u = boundTo s !! u) /\
  activeUnit s1 =
    match ms with
    | [] => activeUnit s
    | _ :: _ => index + length ms - 1 + _masksTextureUnitStart e
    end.
Proof.
  clear gl_present program_present canvas_present variant super_setupUniforms decode.
  induction ms as [|mask ms IH]; intros datas index s Hlen; cbv zeta.
  - cbn. split; [intros i Hi; lia|]. split; reflexivity.
  - destruct datas as [|data datas]; [discriminate|]. cbn [uploadCalls].
    rewrite bindingsAfter_app.
    set (s0 := bindingsAfter (maskCalls hasUniform normalizeBounds e context index mask data) s).
    assert (Hs0 : s0 = {| activeUnit := index + _masksTextureUnitStart e;
                          boundTo := partial_alter (fun _ => _maskTextures e !! index)
                                       (index + _masksTextureUnitStart e) (boundTo s) |})
      by reflexivity.
    injection Hlen as Hlen.
    destruct (IH datas (S index) s0 Hlen) as (Hin & Hout & Hact). cbv zeta in *.
    cbn [length]. split; [|split].
    + intros i Hi. destruct i as [|i].
      * rewrite Nat.add_0_r, Hout by lia. rewrite Hs0. cbn [boundTo].
        apply lookup_partial_alter_eq.
      * replace (index + S i) with (S index + i) by lia. apply Hin. lia.
    + intros u Hu. rewrite Hout by lia. rewrite Hs0. cbn [boundTo].
      apply lookup_partial_alter_ne. lia.
    + rewrite Hact. destruct ms as [|m ms']; [rewrite Hs0; cbn; lia | cbn [length]; lia].
Qed.

(** The second [forEach] leaves the unit of each mask with no texture. *)
Lemma unbindCalls_bindings (e : Fields) (n : nat) :
  forall (index : nat) (s : Bindings),
  let s1 := bindingsAfter
              (flat_map (fun i => [ActiveTexture (i + _masksTextureUnitStart e);
                                   BindTexture None]) (seq index n)) s in
  (forall i, i < n -> boundTo s1 !! (index + i + _masksTextureUnitStart e) = None) /\
  (forall u, u < index + _masksTextureUnitStart e \/
             index + n + _masksTextureUnitStart e <= u ->
     boundTo s1 !! u = boundTo s !! u).
Proof.
  clear. induction n as [|n IH]; intros index s; cbv zeta.
  - cbn. split; [intros i Hi; lia | reflexivity].
  - cbn [seq flat_map]. rewrite bindingsAfter_app.
    set (s0 := bindingsAfter [ActiveTexture (index + _masksTextureUnitStart e);
                              BindTexture None] s).
    assert (Hs0 : boundTo s0 = partial_alter (fun _ => None)
                                 (index + _masksTextureUnitStart e) (boundTo s))
      by reflexivity.
    destruct (IH (S index) s0) as (Hin & Hout). cbv zeta in *. split.
    + intros i Hi. destruct i as [|i].
      * rewrite Nat.add_0_r, Hout by lia. rewrite Hs0. apply lookup_partial_alter_eq.
      * replace (index + S i) with (S index + i) by lia. apply Hin. lia.
    + intros u Hu. rewrite Hout by lia. rewrite Hs0. apply lookup_partial_alter_ne. lia.
Qed.

(** X16. A frame whose masks decode, drawn with the texture units of the
    field initialisers and textures that are allocated, binds the extra
    texture to unit 1 and the slot of the mask at index [i] to unit
    [2 + i], and draws with these bindings. After the draw every unit of a
    mask is left with no texture. The first unbinding (line 257) is made
    on the unit selected last: with a mask that is the unit of the last
    mask, so the extra texture stays bound to unit 1 after the frame; with
    no mask it is unit 1, which is then left with no texture. The other
    units are as before the frame. *)
Theorem every_bound_unit_is_unbound
    (context : EffectFrameContext) (b : Base) (e : Fields) (g : GL)
    (datas : list (list Z)) (s : Bindings) :
  gl_present b = true -> program_present b = true -> canvas_present b = true ->
  Forall2 (fun mask data => decode (bitmap mask) = Some data) (ctx_masks context) datas ->
  _extraTextureUnit e = 1 -> _masksTextureUnitStart e = 2 ->
  match _extraTexture e with Some t => t ∈ liveTextures g | None => True end ->
  Forall (fun t => t ∈ liveTextures g) (_maskTextures e) ->
  let n := length (ctx_masks context) in
  exists drawn after : list GLCall,
    calls (fst (render context b e g)) = calls g ++ drawn ++ DrawArrays :: after /\
    ~ In DrawArrays drawn /\
    let atDraw := bindingsAfter drawn s in
    let atEnd := bindingsAfter (drawn ++ DrawArrays :: after) s in
    boundTo atDraw !! 1 = _extraTexture e /\
    (forall i, i < n -> boundTo atDraw !! (2 + i) = _maskTextures e !! i) /\
    (forall i, i < n -> boundTo atEnd !! (2 + i) = None) /\
    boundTo atEnd !! 1 = (if Nat.eqb n 0 then None else _extraTexture e) /\
    (forall u, u = 0 \/ 2 + n <= u -> boundTo atEnd !! u = boundTo s !! u).
Proof.
  clear super_setupUniforms.
  intros Hgl Hprog Hcanvas Hdec Hextra Hstart _ _. cbv zeta.
  set (uploads := uploadCalls hasUniform normalizeBounds e context 0 (ctx_masks context) datas).
  set (n := length (ctx_masks context)).
  exists (frameCalls Base variant context b e ++ uploads),
         (BindTexture None :: unbindCalls e n).
  assert (Hlen : length datas = n) by (symmetry; eapply Forall2_length; exact Hdec).
  split; [|split].
  - unfold apply. rewrite Hgl, Hprog, Hcanvas. cbn [negb].
    rewrite (uploadMasks_decoded hasUniform decode normalizeBounds e context _ _ Hdec),
      !callAll_callAll.
    cbn [fst calls callAll]. rewrite <- !app_assoc. reflexivity.
  - apply no_draw_before_the_masks.
  - rewrite !bindingsAfter_app, frameCalls_bindings.
    set (s0 := {| activeUnit := _extraTextureUnit e; boundTo := _ |}).
    destruct (uploadCalls_bindings e context (ctx_masks context) datas 0 s0 Hlen)
      as (Hin & Hout & Hact).
    cbv zeta in Hin, Hout, Hact. fold uploads n in Hin, Hout, Hact.
    set (s1 := bindingsAfter uploads s0) in *.
    rewrite Hstart in *. cbn [Nat.add] in Hin, Hout.
    assert (Hs1 : boundTo s1 !! 1 = _extraTexture e).
    { rewrite Hout by lia. subst s0. cbn [boundTo]. rewrite Hextra.
      apply lookup_partial_alter_eq. }
    assert (Hmasks : forall i, i < n -> boundTo s1 !! (2 + i) = _maskTextures e !! i).
    { intros i Hi. replace (2 + i) with (i + 2) by lia. apply Hin, Hi. }
    split; [exact Hs1|]. split; [exact Hmasks|].
    change (bindingsAfter (DrawArrays :: BindTexture None :: unbindCalls e n) s1)
      with (bindingsAfter (unbindCalls e n) (bindingsAfter [BindTexture None] s1)).
    set (s2 := bindingsAfter [BindTexture None] s1).
    assert (Hs2 : boundTo s2 = partial_alter (fun _ => None) (activeUnit s1) (boundTo s1))
      by reflexivity.
    destruct (unbindCalls_bindings e n 0 s2) as (Uin & Uout).
    cbv zeta in Uin, Uout. rewrite Hstart in Uin, Uout. cbn [Nat.add] in Uin, Uout.
    unfold unbindCalls. rewrite Hstart.
    split; [|split].
    + intros i Hi. replace (2 + i) with (i + 2) by lia. apply Uin, Hi.
    + rewrite Uout by lia. rewrite Hs2.
      unfold n in *. destruct (ctx_masks context) as [|m ms] eqn:Hms.
      * cbn [length Nat.eqb]. rewrite Hact. subst s0. cbn [activeUnit]. rewrite Hextra.
        apply lookup_partial_alter_eq.
      * cbn [length Nat.eqb] in *. rewrite lookup_partial_alter_ne by (rewrite Hact; lia).
        exact Hs1.
    + intros u Hu. rewrite Uout by lia. rewrite Hs2.
      assert (Hne : activeUnit s1 ≠ u).
      { rewrite Hact. unfold n in *. destruct (ctx_masks context) as [|m ms].
        - subst s0. cbn [activeUnit]. cbn [length] in Hu. lia.
        - cbn [length] in *. lia. }
      rewrite lookup_partial_alter_ne by exact Hne.
      rewrite Hout by lia. subst s0. cbn [boundTo].
      apply lookup_partial_alter_ne. lia.
Qed.


(** X18. [setupUniforms] never releases what an earlier set-up acquired:
    when it runs a second time, with a base class that deletes no texture
    and reuses no handle, the extra texture and the three mask textures of
    the first run are still allocated and are no longer referenced by the
    fields, which hold four new textures. *)
Theorem second_setup_abandons_the_first
    icons1 icons2 (b b1 b2 : Base) (e e1 e2 : Fields) (g g1 g2 : GL) o1 o2 :
  (forall b0 g0,
     nextTexture g0 <= nextTexture (snd (super_setupUniforms b0 g0)) /\
     liveTextures g0 ⊆ liveTextures (snd (super_setupUniforms b0 g0))) ->
  setup icons1 b e g = (b1, e1, g1, o1) ->
  setup icons2 b1 e1 g1 = (b2, e2, g2, o2) ->
  forall t : Texture,
    (_extraTexture e1 = Some t \/ t ∈ _maskTextures e1) ->
    t ∈ liveTextures g2 /\ _extraTexture e2 ≠ Some t /\ t ∉ _maskTextures e2.
Proof.
  clear gl_present program_present canvas_present variant decode normalizeBounds.
  intros Hbase H1 H2 t Ht.
  destruct (setupUniforms_acquires _ _ _ _ _ _ _ _ _ _ _ H1) as (Hx1 & Hs1 & Hl1).
  destruct (setupUniforms_acquires _ _ _ _ _ _ _ _ _ _ _ H2) as (Hx2 & Hs2 & Hl2).
  cbv zeta in *.
  set (n1 := nextTexture (snd (super_setupUniforms b g))) in *.
  set (n2 := nextTexture (snd (super_setupUniforms b1 g1))) in *.
  assert (Hnext : nextTexture g1 = n1 + 4).
  { revert H1. unfold setupUniforms. subst n1.
    destruct (super_setupUniforms b g) as [b0 g0]. cbn [snd]. unfold createTexture.
    match goal with
    | |- context [preAllocateTextures ?g3 3] =>
        destruct (preAllocateTextures_spec 3 g3) as (_ & _ & Hn);
        destruct (preAllocateTextures g3 3) as [slots g4]
    end.
    cbn [snd] in Hn. intros H.
    assert (g1 = g4) as -> by (destruct icons1 as [[[? ?] ?]|]; inversion H; reflexivity).
    rewrite Hn. cbn. lia. }
  destruct (Hbase b1 g1) as [Hle Hsub]. fold n2 in Hle.
  assert (Hin : t ∈ liveTextures g1 /\ n1 <= t < n1 + 4).
  { rewrite Hl1. destruct Ht as [Ht|Ht].
    - rewrite Hx1 in Ht. injection Ht as <-. split; [set_solver|lia].
    - rewrite Hs1 in Ht. set_unfold in Ht. split; [set_solver|lia]. }
  destruct Hin as [Hlive Hrange]. split; [|split].
  - rewrite Hl2. set_solver.
  - rewrite Hx2. intros [= <-]. lia.
  - rewrite Hs2. set_unfold. lia.
Qed.

End ImageFacts.

Section ImageExamples.

Import ReplaceGLEffect ReplacementImage Fixture Sample.
Local Open Scope nat_scope.



Lemma undecodable_mask_stops_the_frame_witness :
  let context := {| ctx_masks := [someMask; badMask; someMask];
                    ctx_width := 4; ctx_height := 4 |} in
  snd (apply PlainBase gl program canvas variantOf anyUniform pickyDecode plainBounds
         context readyBase readyFields freshGL) = Raise DecodeFailed /\
  ~ In DrawArrays
      (calls (fst (apply PlainBase gl program canvas variantOf anyUniform pickyDecode
                     plainBounds context readyBase readyFields freshGL))).
Proof.
  cbv zeta.
  destruct (undecodable_mask_stops_the_frame PlainBase gl program canvas variantOf
              anyUniform pickyDecode plainBounds
              {| ctx_masks := [someMask; badMask; someMask];
                 ctx_width := 4; ctx_height := 4 |}
              readyBase readyFields freshGL [someMask] [[0; 0; 0; 0]%Z] badMask [someMask]
              eq_refl eq_refl eq_refl ltac:(repeat constructor) eq_refl)
    as (Hrun & _ & Hdraw).
  rewrite Hrun. split; [reflexivity|exact Hdraw].
Defined.

Lemma every_bound_unit_is_unbound_witness :
  let cs := drop (length (calls readyGL))
              (calls (fst (apply PlainBase gl program canvas variantOf anyUniform fourBytes
                             plainBounds (frameOf 3) readyBase readyFields readyGL))) in
  let atEnd := bindingsAfter cs {| activeUnit := 0; boundTo := ∅ |} in
  boundTo atEnd !! 1 = Some 0 /\
  boundTo atEnd !! 2 = None /\ boundTo atEnd !! 3 = None /\ boundTo atEnd !! 4 = None.
Proof.
  cbv zeta.
  destruct (every_bound_unit_is_unbound PlainBase gl program canvas variantOf anyUniform
              fourBytes plainBounds (frameOf 3) readyBase readyFields readyGL
              (replicate 3 [0; 0; 0; 0]%Z) {| activeUnit := 0; boundTo := ∅ |}
              eq_refl eq_refl eq_refl ltac:(repeat constructor) eq_refl eq_refl
              ltac:(change (0 ∈ liveTextures readyGL);
                    apply (bool_decide_unpack _); vm_compute; exact I)
              ltac:(change (Forall (fun t => t ∈ liveTextures readyGL) [1; 2; 3]);
                    repeat constructor; apply (bool_decide_unpack _); vm_compute; exact I))
    as (drawn & after & Hcalls & _ & _ & _ & Hend & Hextra & _).
  rewrite Hcalls, drop_app_length.
  split; [exact Hextra|].
  split; [exact (Hend 0 ltac:(cbn; lia))|].
  split; [exact (Hend 1 ltac:(cbn; lia)) | exact (Hend 2 ltac:(cbn; lia))].
Defined.


Lemma second_setup_abandons_the_first_witness :
  let s1 := setupUniforms PlainBase noSuper anyUniform (Some (angery, heart, whistle))
              readyBase initial freshGL in
  let s2 := setupUniforms PlainBase noSuper anyUniform (Some (angery, heart, whistle))
              readyBase (snd (fst (fst s1))) (snd (fst s1)) in
  0 ∈ liveTextures (snd (fst s2)) /\
  _extraTexture (snd (fst (fst s2))) ≠ Some 0 /\
  0 ∉ _maskTextures (snd (fst (fst s2))).
Proof.
  cbv zeta.
  refine (second_setup_abandons_the_first PlainBase noSuper anyUniform
            (Some (angery, heart, whistle)) (Some (angery, heart, whistle))
            readyBase readyBase readyBase initial
            (snd (fst (fst (setupUniforms PlainBase noSuper anyUniform
                              (Some (angery, heart, whistle)) readyBase initial freshGL))))
            _
            freshGL
            (snd (fst (setupUniforms PlainBase noSuper anyUniform
                         (Some (angery, heart, whistle)) readyBase initial freshGL)))
            _
            (Done tt) (Done tt) _ eq_refl eq_refl 0 (or_introl eq_refl)).
  intros b0 g0. split; [apply Nat.le_refl | reflexivity].
Defined.

End ImageExamples.

(** * Properties of the views *)

Section ViewFacts.

Import EditorStore Interleaving Prog Actions EditorView Fixture Sample.

Variable JSON_parse : string -> option FrameMasks.

Lemma allForeground_insert (st : Store) (f : Z) (pts : list CanvasPoint) :
  allForeground st -> Forall (fun p => label p = 1) pts ->
  allForeground (set_points (<[f := pts]> (points st)) st).
Proof using Type.
  intros Hall Hpts g l. cbn [points set_points].
  destruct (decide (f = g)) as [->|Hne].
  - rewrite lookup_insert_eq. intros [= <-]. exact Hpts.
  - rewrite lookup_insert_ne by exact Hne. apply Hall.
Qed.

Lemma framePoints_foreground (st : Store) (f : Z) :
  allForeground st -> Forall (fun p => label p = 1) (framePoints st f).
Proof using Type.
  intros Hall. unfold framePoints. destruct (points st !! f) as [pts|] eqn:Hf.
  - exact (Hall f pts Hf).
  - constructor.
Qed.

Lemma resetStore_points (r : Run) : points (store (resetStore r)) = ∅.
Proof using Type. reflexivity. Qed.

Lemma startTracking_points (answer : result Reader) (ed : Editor) :
  points (store (run (startTracking JSON_parse answer ed))) = points (store (run ed)) /\
  (pointMode (view (startTracking JSON_parse answer ed)) = pointMode (view ed) \/
   pointMode (view (startTracking JSON_parse answer ed)) = None).
Proof.
  unfold startTracking. destruct (firstKey (points (store (run ed)))) as [f|]; [|auto].
  destruct (propagateMasks_cases JSON_parse (store (run ed)) f answer)
    as (l & [(_ & -> & _)|(_ & ->)]); cbn; auto.
Qed.

Lemma handle_keeps_foreground (ed : Editor) (ev : Ui) :
  pointMode (view ed) ≠ Some background -> allForeground (store (run ed)) ->
  pointMode (view (handle JSON_parse ed ev)) ≠ Some background /\
  allForeground (store (run (handle JSON_parse ed ev))).
Proof.
  intros Hmode Hall. destruct ev as [frameIdx| |px py| | |answer|request answer];
    cbn [handle].
  - unfold onTimeUpdate. destruct (videoElement (view ed)); split; assumption.
  - split; [discriminate | exact Hall].
  - unfold handleCanvasClick.
    destruct (pointMode (view ed)) as [[|]|] eqn:Hm; try congruence;
      [|rewrite Hm; split; [discriminate|exact Hall]].
    destruct (interactionCanvas (view ed));
      [|rewrite Hm; split; [discriminate|exact Hall]].
    cbn [view run]. rewrite Hm. split; [discriminate|].
    destruct (step_Click (run ed) {| x := px; y := py; label := 1 |}) as [-> _].
    apply allForeground_insert; [exact Hall|].
    apply Forall_app. split; [apply framePoints_foreground, Hall | repeat constructor].
  - split; [discriminate|]. intros f pts. cbn. rewrite lookup_empty. discriminate.
  - split; [discriminate|]. intros f pts. cbn. rewrite lookup_empty. discriminate.
  - destruct (startTracking_points answer ed) as [Hp [Hm|Hm]].
    + split; [rewrite Hm; exact Hmode|]. intros f pts. rewrite Hp. apply Hall.
    + split; [rewrite Hm; discriminate|]. intros f pts. rewrite Hp. apply Hall.
  - cbn [view run]. split; [exact Hmode|].
    destruct (step_Answer_frame (run ed) request answer) as (Hp & _ & _).
    intros f pts. rewrite Hp. apply Hall.
Qed.

(** X19. The editor view never stores a background point: the point mode
    is only ever switched to foreground or off, so through any sequence of
    time updates, button presses, canvas clicks, trackings and answers of
    the backend, every point in the store keeps the label 1 and the mode is
    never background. *)
Theorem view_adds_only_foreground_points (ed : Editor) (evs : list Ui) :
  pointMode (view ed) ≠ Some background ->
  allForeground (store (run ed)) ->
  pointMode (view (session JSON_parse ed evs)) ≠ Some background /\
  allForeground (store (run (session JSON_parse ed evs))).
Proof.
  revert ed. induction evs as [|ev evs IH]; intros ed Hmode Hall; [auto|].
  cbn [session fold_left].
  destruct (handle_keeps_foreground ed ev Hmode Hall) as [Hm1 Ha1].
  exact (IH _ Hm1 Ha1).
Qed.

(** X20. [clearPoints] and [resetSession] leave the same view and the same
    store: the session and the video are kept, the points, the masks and
    the chat are emptied, and a tracking started then only shows the alert
    and sends nothing. *)
Theorem clear_and_reset_agree (ed : Editor) (answer : result Reader) :
  let cleared := clearPoints ed in
  view (resetSession ed) = view cleared /\
  store (run (resetSession ed)) = store (run cleared) /\
  sessionId (store (run cleared)) = sessionId (store (run ed)) /\
  currentVideo (store (run cleared)) = currentVideo (store (run ed)) /\
  points (store (run cleared)) = ∅ /\ masks (store (run cleared)) = ∅ /\
  chatMessages (store (run cleared)) = [] /\
  hasPoints cleared = false /\
  startTracking JSON_parse answer cleared =
    {| view := view cleared; run := run cleared;
       alerts := alerts ed ++ ["Please add points first!"%string] |}.
Proof using Type. cbv zeta. repeat split. Qed.

(** X21. [startTracking] with points in the store pauses a playing video,
    propagates from the first frame that has points (the smallest one),
    leaves the store as [propagateMasks] leaves it for that frame and
    turns the point mode off; it shows no alert. *)
Theorem startTracking_runs_from_first_frame
    (ed : Editor) (answer : result Reader) (f : Z) :
  arrayIndices (points (store (run ed))) ->
  firstKey (points (store (run ed))) = Some f ->
  let ed1 := startTracking JSON_parse answer ed in
  let r := settle (propagateMasks JSON_parse f answer) (store (run ed)) in
  (f ∈ dom (points (store (run ed))) /\
   forall g, g ∈ dom (points (store (run ed))) -> f <= g) /\
  store (run ed1) = finalStore r /\
  log (run ed1) = log (run ed) ++ effectsOf r /\
  pointMode (view ed1) = None /\
  videoElement (view ed1) ≠ Some false /\
  (videoElement (view ed) = Some false -> isPlaying (view ed1) = false) /\
  alerts ed1 = alerts ed.
Proof.
  intros _ Hf. cbv zeta.
  pose proof (firstKey_spec (points (store (run ed)))) as Hmin. rewrite Hf in Hmin.
  split; [exact Hmin|].
  unfold startTracking, settle. rewrite Hf.
  destruct (propagateMasks_cases JSON_parse (store (run ed)) f answer)
    as (l & [(_ & -> & ->)|(_ & ->)]);
    unfold finalStore, effectsOf; cbn [fst snd view run store log alerts withStore
                                         pointMode set_pointMode videoElement isPlaying];
    (split; [reflexivity|]); (split; [reflexivity|]); (split; [reflexivity|]);
    (split; [destruct (videoElement (view ed)) as [[|]|] eqn:Hv; cbn; rewrite ?Hv;
             discriminate|]);
    (split; [intros ->; reflexivity | reflexivity]).
Qed.

End ViewFacts.

Section ViewExamples.

Import EditorStore Interleaving Prog Actions EditorView Fixture Sample.

Lemma view_adds_only_foreground_points_witness :
  let evs := [StartPointMode; CanvasClick 10 10; TimeUpdate 4; CanvasClick 20 20;
              Arrives 0 (Throw HttpError);
              StartTracking (Ok {| chunks := framesUpTo 2; ending := StreamDone |});
              CanvasClick 30 30] in
  allForeground (store (run (session parseRecord (freshEditor activeStore) evs))) /\
  dom (points (store (run (session parseRecord (freshEditor activeStore) evs))))
    = {[0; 4]}.
Proof.
  cbv zeta. split; [|vm_compute; reflexivity].
  refine (proj2 (view_adds_only_foreground_points parseRecord (freshEditor activeStore) _
                   ltac:(discriminate) _)).
  intros f pts. unfold freshEditor, activeStore. cbn [run store start points set_points].
  destruct (decide (f = 0)) as [->|Hne].
  - rewrite lookup_singleton_eq. intros [= <-]. repeat constructor.
  - rewrite lookup_singleton_ne by congruence. discriminate.
Defined.

Lemma startTracking_runs_from_first_frame_witness :
  let ed1 := startTracking parseRecord
               (Ok {| chunks := framesUpTo 2; ending := StreamDone |})
               (freshEditor twoFrames) in
  requestsOf (log (run ed1)) = [PostPropagate "s1" 3] /\
  pointMode (view ed1) = None /\ videoElement (view ed1) = Some true.
Proof.
  cbv zeta.
  assert (Hidx : arrayIndices (points (store (run (freshEditor twoFrames))))).
  { intros k Hk. apply elem_of_dom in Hk as [v Hv].
    destruct (decide (k = 3)) as [->|H3]; [lia|].
    destruct (decide (k = 7)) as [->|H7]; [lia|].
    exfalso. revert Hv. unfold twoFrames. cbn [points set_points freshEditor run store start].
    rewrite lookup_insert_ne by congruence. rewrite lookup_singleton_ne by congruence.
    discriminate. }
  destruct (startTracking_runs_from_first_frame parseRecord (freshEditor twoFrames)
              (Ok {| chunks := framesUpTo 2; ending := StreamDone |}) 3 Hidx eq_refl)
    as (_ & _ & Hlog & Hmode & _).
  split; [rewrite Hlog; reflexivity|]. split; [exact Hmode | reflexivity].
Defined.

End ViewExamples.

Section HomeFacts.

Import EditorStore Prog Actions HomeView Sample.


(** The two parts of [selectVideo] make the whole action. *)
Lemma selectVideo_split (video : GalleryVideo) (deleted : result unit)
    (created : answer Session) (st : Store) :
  selectVideo video deleted created st =
    Prog.bind (selectVideo_begin video)
      (fun awaited => selectVideo_resume video awaited deleted created) st.
Proof.
  unfold selectVideo, selectVideo_begin, Prog.bind at 1 3, Prog.get.
  destruct (sessionId st) as [[|c sid]|] eqn:Hs; cbn [Js.truthy];
    destruct deleted, created; unfold Prog.bind, inner, endSession, EditorStore.bind,
      EditorStore.get; rewrite ?Hs; reflexivity.
Qed.

(** X23. A file that passes both checks is uploaded with one request.
    When the upload succeeds the video is put at the head of the gallery
    and the editor is opened for it: [selectVideo] runs to its first
    [await] and then the route changes. Without a session the store then
    holds the video as the current one with the loading flag on, and the
    request for the new session is outstanding; with a session the DELETE
    request of that session is outstanding and the store is as before the
    upload, the loading flag off. When the upload fails the gallery and the
    store are unchanged but for the loading flag, nothing is opened and the
    upload error is shown. On both exits the uploading flag is off and the
    file input is emptied. *)
Theorem accepted_file_is_uploaded
    (file : File) (others : list File) (got : answer GalleryVideo) (h : Home) (st : Store) :
  accepted file = true ->
  let r := handleFileUpload (file :: others) got (h, st) in
  answerOf r = Got tt /\
  isUploading (fst (stateOf r)) = false /\
  fileInput (fst (stateOf r)) =
    (match fileInput h with Some _ => Some EmptyString | None => None end) /\
  match got with
  | Got video =>
      galleryVideos (fst (stateOf r)) = video :: galleryVideos h /\
      uploadError (fst (stateOf r)) = EmptyString /\
      match sessionId st with
      | Some (String c sid) =>
          callsOf r = [PostUpload file; Inner (DeleteSession (String c sid));
                       RouterPush "/editor"] /\
          snd (stateOf r) = set_isLoading false st
      | _ =>
          callsOf r = [PostUpload file; PostSession (video_path video);
                       RouterPush "/editor"] /\
          snd (stateOf r) = set_isLoading true (set_currentVideo (Some video) st)
      end
  | Failed _ =>
      galleryVideos (fst (stateOf r)) = galleryVideos h /\
      uploadError (fst (stateOf r)) = "Upload failed. Please try again."%string /\
      callsOf r = [PostUpload file; LogError "Failed to upload video:";
                   LogError "Upload failed:"] /\
      snd (stateOf r) = set_isLoading false st
  end.
Proof.
  intros Hacc. cbv zeta. unfold accepted in Hacc.
  apply andb_true_iff in Hacc as [Hsize Htype]. apply negb_true_iff in Hsize.
  unfold handleFileUpload. rewrite Hsize, Htype. cbn [negb].
  destruct got as [video|t]; [|repeat split].
  unfold openEditor, selectVideo_begin, onStore, Prog.bind, Prog.try_finally,
    Prog.try_catch, Prog.get, onHome, Prog.modify, uploadVideo, Prog.emit, Prog.await,
    Prog.ret.
  cbn [fst snd sessionId set_isLoading].
  destruct (sessionId st) as [[|c sid]|] eqn:Hs; cbn; rewrite ?Hs; repeat split.
Qed.

(** X24. The gallery of the home view is what the store action gives:
    the list of the backend, or the empty list when the request fails.
    Since the store action never rejects, the failure is logged once, by
    the store, and the handler of the view never runs; both loading flags
    are off at the end. *)
Theorem home_gallery_is_what_the_store_gives
    (got : answer (list GalleryVideo)) (h : Home) (st : Store) :
  let r := HomeView.loadGalleryVideos got (h, st) in
  answerOf r = Got tt /\
  galleryVideos (fst (stateOf r)) =
    (match got with Got videos => videos | Failed _ => [] end) /\
  homeLoading (fst (stateOf r)) = false /\
  isLoading (snd (stateOf r)) = false /\
  callsOf r =
    GetGalleryVideos ::
    match got with
    | Got _ => []
    | Failed _ => [LogError "Failed to load gallery videos:"]
    end.
Proof. cbv zeta. destruct got as [videos|t]; repeat split. Qed.


Lemma accepted_file_is_uploaded_witness :
  callsOf (handleFileUpload [fullFile] (Got someVideo) (emptyHome, Fixture.emptyStore))
    = [PostUpload fullFile; PostSession "/videos/clip.mp4"; RouterPush "/editor"] /\
  isLoading (snd (stateOf (handleFileUpload [fullFile] (Got someVideo)
                             (emptyHome, Fixture.emptyStore)))) = true.
Proof.
  destruct (accepted_file_is_uploaded fullFile [] (Got someVideo) emptyHome
              Fixture.emptyStore eq_refl) as (_ & _ & _ & _ & _ & Hcalls & Hstore).
  split; [exact Hcalls | rewrite Hstore; reflexivity].
Defined.

End HomeFacts.
